(** * DragonFF DFF exporter: a shallow embedding of [ops/dff_exporter.py]

    The development follows the exporter function by function.  Python
    integers that are list lengths or list positions are [nat]; a frame's
    parent index, which may be [-1], is [Z]; the class-level dictionaries
    of [dff_exporter] are [gmap]s; Python lists are [list]s; exceptions
    are the [Raise] branch of [result].  Host floats ([mathutils] vectors,
    colours, key-frame coordinates) are idealised as rationals [Q]; the
    host's [==] on two vectors is [Vector_host_eq], which accepts a
    difference of one float step in each component. *)

From Stdlib Require Import ZArith QArith Qabs Qround String Ascii List Lia Lra Reals Qreals.
From stdpp Require Import gmap strings list fin_maps sorting.

Open Scope Z_scope.

(** ** Python outcomes *)

Inductive exn : Set :=
| KeyError | IndexError | ValueError | ZeroDivisionError | AttributeError.

Inductive result (A : Type) : Type :=
| Ok (a : A)
| Raise (e : exn).
Arguments Ok {A} a.
Arguments Raise {A} e.

#[global] Instance result_ret : MRet result := fun A a => Ok a.

#[global] Instance result_bind : MBind result :=
  fun A B k m =>
    match m with
    | Ok a => k a
    | Raise e => Raise e
    end.

(** [d[k]] on a dictionary and [l[i]] on a list. *)
Definition getitem {K V : Type} `{Countable K} (d : gmap K V) (k : K) : result V :=
  match d !! k with
  | Some v => Ok v
  | None => Raise KeyError
  end.

Definition index {A : Type} (l : list A) (i : nat) : result A :=
  match l !! i with
  | Some a => Ok a
  | None => Raise IndexError
  end.

(** [l[i] = x]: Python raises on a position past the end. *)
Definition setitem {A : Type} (l : list A) (i : nat) (x : A) : result (list A) :=
  if decide (i < length l)%nat then Ok (<[i := x]> l) else Raise IndexError.

(** [for x in xs: body] over a state threaded through the body. *)
Fixpoint for_each {A S : Type} (body : S -> A -> result S) (xs : list A) (s : S)
  : result S :=
  match xs with
  | [] => Ok s
  | x :: xs' => s' ← body s x; for_each body xs' s'
  end.

(** [enumerate(xs)] from a starting count. *)
Fixpoint enumerate_from {A : Type} (k : nat) (xs : list A) : list (nat * A) :=
  match xs with
  | [] => []
  | x :: xs' => (k, x) :: enumerate_from (S k) xs'
  end.

Definition enumerate {A : Type} (xs : list A) : list (nat * A) := enumerate_from 0 xs.

(** ** Host values: mathutils vectors and matrices over [Q] *)

#[global] Instance Q_eq_dec : EqDecision Q.
Proof. solve_decision. Defined.

Definition Vector : Type := Q * Q * Q.
Definition Row4 : Type := Q * Q * Q * Q.
Definition Matrix4 : Type := Row4 * Row4 * Row4 * Row4.
Definition Matrix3 : Type := Vector * Vector * Vector.

Definition vec_add (a b : Vector) : Vector :=
  let '(ax, ay, az) := a in
  let '(bx, by_, bz) := b in
  (ax + bx, ay + by_, az + bz)%Q.

Definition vec_scale (k : Q) (a : Vector) : Vector :=
  let '(ax, ay, az) := a in (k * ax, k * ay, k * az)%Q.

Definition vec_zero : Vector := (0, 0, 0)%Q.

(** The host's [==] on two [mathutils.Vector]s compares them component by
    component and accepts two floats that are at most one step apart on
    the grid of 32-bit floats (the routine reads both as 32-bit integers
    and compares their difference with [maxDiff = 1]).  Numbers are
    rationals here; [float_magnitude] is the integer in the low 31 bits of
    the 32-bit float of a rational, the biased exponent above 23 bits of
    fraction, and [float_sign] is its sign bit.  A rational between two
    floats is read as the one nearer to zero. *)

(** [floor (log2 |x|)], for [x] other than zero. *)
Definition float_exponent (x : Q) : Z :=
  let e := Z.log2 (Z.abs (Qnum x)) - Z.log2 (Zpos (Qden x)) in
  if Qle_bool (Qpower 2 e) (Qabs x) then e else e - 1.

Definition float_magnitude (x : Q) : Z :=
  if Qeq_bool x 0 then 0
  else
    let e := Z.max (float_exponent x) (-126) in
    (e + 126) * 2 ^ 23 + Qfloor (Qabs x * Qpower 2 (23 - e)).

Definition float_sign (x : Q) : bool := negb (Qle_bool 0 x).

(** Two floats of the same sign are equal when their integers differ by
    at most one; two floats of different sign only when both are zero. *)
Definition float_eq (a b : Q) : bool :=
  if xorb (float_sign a) (float_sign b)
  then (float_magnitude a =? 0) && (float_magnitude b =? 0)
  else Z.abs (float_magnitude a - float_magnitude b) <=? 1.

Definition Vector_host_eq (a b : Vector) : bool :=
  let '(ax, ay, az) := a in
  let '(bx, by_, bz) := b in
  float_eq ax bx && float_eq ay by_ && float_eq az bz.

(** [matrix.to_translation()]: the fourth column of the first three rows. *)
Definition to_translation (m : Matrix4) : Vector :=
  let '((_, _, _, tx), (_, _, _, ty), (_, _, _, tz), _) := m in (tx, ty, tz).

(** [matrix.to_3x3()] and [.transposed()]. *)
Definition to_3x3 (m : Matrix4) : Matrix3 :=
  let '((a, b, c, _), (d, e, f, _), (g, h, i, _), _) := m in
  ((a, b, c), (d, e, f), (g, h, i)).

Definition transposed3 (m : Matrix3) : Matrix3 :=
  let '((a, b, c), (d, e, f), (g, h, i)) := m in
  ((a, d, g), (b, e, h), (c, f, i)).

Definition transposed4 (m : Matrix4) : Matrix4 :=
  let '((a, b, c, d), (e, f, g, h), (i, j, k, l), (p, q, r, s)) := m in
  ((a, e, i, p), (b, f, j, q), (c, g, k, r), (d, h, l, s)).

(** [a @ b] of a 4x4 matrix with a 3-vector: the host extends the vector
    with [w = 1] and keeps three components.  [multiply_matrix] picks
    [a * b] or [a @ b] by host version; both are this product. *)
Definition multiply_matrix (m : Matrix4) (v : Vector) : Vector :=
  let '((a, b, c, d), (e, f, g, h), (i, j, k, l), _) := m in
  let '(x, y, z) := v in
  (a * x + b * y + c * z + d * 1,
   e * x + f * y + g * z + h * 1,
   i * x + j * y + k * z + l * 1)%Q.

(** Python's [max(a, b)]: [b] only when it is strictly greater. *)
Definition pymax (a b : Q) : Q :=
  match (a ?= b)%Q with
  | Lt => b
  | _ => a
  end.

(** [int(x)] on a float: truncation towards zero. *)
Definition pyint (x : Q) : Z := Qnum x ÷ Zpos (Qden x).

(** ** [clear_extension] *)

Fixpoint rfind_dot (s : string) : option nat :=
  match s with
  | EmptyString => None
  | String c s' =>
      match rfind_dot s' with
      | Some k => Some (S k)
      | None => if Ascii.eqb c "."%char then Some 0%nat else None
      end
  end.

Definition clear_extension (s : string) : string :=
  match rfind_dot s with
  | None => s
  | Some k => substring 0 k s
  end.

(** ** The DFF data model *)

(** Modelled from the spec: the records of [gtaLib/dff.py] (Frame,
    Triangle, Sphere, SkinPLG, UVFrame, UVAnim, HAnimPLG, Geometry, Atomic,
    Clump), which the exporter fills but which are declared outside this
    source file.  Fields are those the exporter writes; a named tuple built
    with [_make] lists its fields in the order of the tuple.  The extension
    dictionary of a geometry, keyed by a closed set of strings, is one
    optional field per key. *)
Module dff.

Definition RGBA : Type := Z * Z * Z * Z.
Definition TexCoords : Type := Q * Q.
Definition UserData : Type := list Z.

Record HAnimHeader := {
  version : Z;
  id : Z;
  bone_count : nat
}.

Record Bone := {
  bone_id : Z;
  bone_index : nat;
  bone_type : Z
}.

Record HAnimPLG := {
  header : HAnimHeader;
  bones : list Bone
}.

Record Frame := {
  name : string;
  parent : Z;
  creation_flags : Z;
  position : Vector;
  rotation_matrix : Matrix3;
  user_data : option UserData;
  bone_data : option HAnimPLG
}.

Record Triangle := {
  b : option nat;
  a : option nat;
  material : nat;
  c : option nat
}.

Record Sphere := {
  center : Vector;
  radius : Q
}.

Record SkinPLG := {
  num_bones : nat;
  bone_matrices : list Matrix4;
  vertex_bone_indices : list (list nat);
  vertex_bone_weights : list (list Q)
}.

Record UVFrame := {
  time : Q;
  uv : list Q;
  prev : Z
}.

Record UVAnim := {
  duration : Q;
  anim_name : string;
  frames : list UVFrame
}.

Record Material := {
  uv_anim : option string
}.

Record Geometry := {
  vertices : list Vector;
  normals : list Vector;
  prelit_colors : list RGBA;
  uv_layers : list (list TexCoords);
  triangles : list Triangle;
  bounding_sphere : option Sphere;
  materials : list Material;
  ext_skin : option SkinPLG;
  ext_extra_vert_color : option (list RGBA)
}.

Record Atomic := {
  atomic_frame : Z;
  atomic_geometry : Z;
  atomic_flags : Z;
  atomic_unk : Z
}.

Record Clump := {
  frame_list : list Frame;
  geometry_list : list Geometry;
  atomic_list : list Atomic
}.

(** [dff.Geometry()], [dff.Clump()], [dff.SkinPLG()] and [dff.UVAnim()]
    as freshly constructed. *)
Definition new_Geometry : Geometry :=
  {| vertices := []; normals := []; prelit_colors := []; uv_layers := [];
     triangles := []; bounding_sphere := None; materials := [];
     ext_skin := None; ext_extra_vert_color := None |}.

Definition new_Clump : Clump :=
  {| frame_list := []; geometry_list := []; atomic_list := [] |}.

Definition new_SkinPLG : SkinPLG :=
  {| num_bones := 0; bone_matrices := [];
     vertex_bone_indices := []; vertex_bone_weights := [] |}.

Definition new_UVAnim : UVAnim :=
  {| duration := 0%Q; anim_name := ""; frames := [] |}.

End dff.

(** ** The host scene graph, as far as the exporter reads it *)
Module bpy.

(** What [create_frame] reads of an object or of a bone: its name, the
    name of its parent, its local matrix and the custom property
    [dff_user_data]. *)
Record Node := {
  name : string;
  parent : option string;
  matrix_local : Matrix4;
  dff_user_data : option dff.UserData
}.

(** The argument of [create_frame]: an object of the scene or a bone of
    an armature.  [type(obj) is bpy.types.Bone] tells them apart. *)
Inductive Datablock :=
| an_object (n : Node)
| a_bone (n : Node).

Definition is_bone (obj : Datablock) : bool :=
  match obj with
  | an_object _ => false
  | a_bone _ => true
  end.

Definition node_of (obj : Datablock) : Node :=
  match obj with
  | an_object n => n
  | a_bone n => n
  end.

(** A bone of [armature.data.bones].  [matrix_local_inverted] is the
    host's [bone.matrix_local.inverted()], [None] when the host raises
    on a singular matrix; [bone_id] and [bone_type] are the custom
    properties [bone["bone_id"]] and [bone["type"]]. *)
Record Bone := {
  bone_node : Node;
  matrix_local_inverted : option Matrix4;
  bone_id : option Z;
  bone_type : option Z
}.

Record Modifier := {
  modifier_type : string;
  modifier_object : option (list Bone)
}.

Definition UV : Type := Q * Q.
Definition Color : Type := Q * Q * Q * Q.

Record MeshLoop := {
  vertex_index : nat;
  normal : Vector
}.

Record VertexGroupElement := {
  group : nat;
  weight : Q
}.

Record MeshVertex := {
  co : Vector;
  groups : list VertexGroupElement
}.

Record MeshPolygon := {
  material_index : nat;
  loop_indices : list nat
}.

(** The evaluated, triangulated mesh with split normals, as
    [convert_to_mesh], [triangulate_mesh] and [calc_normals_split] leave
    it.  A UV or colour layer is its [data] array, indexed by loop. *)
Record Mesh := {
  polygons : list MeshPolygon;
  loops : list MeshLoop;
  vertices : list MeshVertex;
  uv_layers : list (list UV);
  vertex_colors : list (list Color)
}.

Record FCurve := {
  array_index : nat;
  data_path : string;
  keyframe_points : list (Q * Q)
}.

(** A material as [get_uv_animation] reads it.  [anim_data] is
    [node_tree.animation_data]; its [action] may be unset. *)
Record Material := {
  export_animation : bool;
  animation_name : string;
  principled : bool;
  has_mapping_node : bool;
  anim_data : option (option (list FCurve))
}.

Record Object := {
  node : Node;
  type : string;
  clump : Z;
  data_bones : list Bone;
  mesh : Mesh;
  modifiers : list Modifier;
  vertex_groups : list string;
  day_cols : bool;
  night_cols : bool;
  uv_map1 : bool;
  uv_map2 : bool;
  bound_box : list Vector;
  matrix_world : Matrix4;
  dimensions : Vector;
  materials : list (option Material)
}.

End bpy.

(** ** [material_helper.get_uv_animation] *)

Definition dquote : string := String (ascii_of_nat 34) EmptyString.

Definition mapping_input (n : string) : string :=
  "nodes[" +:+ dquote +:+ "Mapping" +:+ dquote +:+ "].inputs[" +:+ n +:+ "].default_value".

(** The dictionary [uv_offset]. *)
Definition uv_offset : gmap string nat :=
  <[ mapping_input "3" := 1%nat ]> (<[ mapping_input "1" := 4%nat ]> ∅).

Definition UVFrame_set_time (t : Q) (f : dff.UVFrame) : dff.UVFrame :=
  {| dff.time := t; dff.uv := dff.uv f; dff.prev := dff.prev f |}.

Definition UVFrame_set_uv (u : list Q) (f : dff.UVFrame) : dff.UVFrame :=
  {| dff.time := dff.time f; dff.uv := u; dff.prev := dff.prev f |}.

(** The body of [for i, frame in enumerate(curve.keyframe_points)]. *)
Definition keyframe_step (fps : Z) (off array_index : nat)
    (anim : dff.UVAnim) (ik : nat * (Q * Q)) : result dff.UVAnim :=
  let '(i, (co0, co1)) := ik in
  let frames0 :=
    if decide (length (dff.frames anim) <= i)%nat
    then dff.frames anim ++
         [ {| dff.time := 0%Q; dff.uv := replicate 6 0%Q;
              dff.prev := Z.of_nat i - 1 |} ]
    else dff.frames anim in
  _frame ← index frames0 i;
  uv ← setitem (dff.uv _frame) (off + array_index) co1;
  t ← (if decide (fps = 0) then Raise ZeroDivisionError
       else Ok (co0 / inject_Z fps)%Q);
  let _frame' := UVFrame_set_time t (UVFrame_set_uv uv _frame) in
  let frames1 := <[ i := _frame' ]> frames0 in
  Ok {| dff.duration := pymax (dff.time _frame') (dff.duration anim);
        dff.anim_name := dff.anim_name anim;
        dff.frames := frames1 |}.

(** The body of [for curve in anim_data.action.fcurves]. *)
Definition curve_step (fps : Z) (anim : dff.UVAnim) (curve : bpy.FCurve)
  : result dff.UVAnim :=
  if decide (1 < bpy.array_index curve)%nat then Ok anim
  else
    match uv_offset !! bpy.data_path curve with
    | None => Ok anim
    | Some off =>
        for_each (keyframe_step fps off (bpy.array_index curve))
                 (enumerate (bpy.keyframe_points curve)) anim
    end.

(** [get_uv_animation]: [Ok None] is Python's [None] (also the value of
    falling off the end of the function). *)
Definition get_uv_animation (fps : Z) (material : bpy.Material)
  : result (option dff.UVAnim) :=
  if negb (bpy.export_animation material) then Ok None
  else
    let anim :=
      {| dff.duration := dff.duration dff.new_UVAnim;
         dff.anim_name := bpy.animation_name material;
         dff.frames := dff.frames dff.new_UVAnim |} in
    if bpy.principled material then
      if bpy.has_mapping_node material then
        match bpy.anim_data material with
        | None => Ok None
        | Some None => Raise AttributeError
        | Some (Some fcurves) =>
            anim' ← for_each (curve_step fps) fcurves anim;
            Ok (Some anim')
        end
      else Ok None
    else Ok None.

(** ** The geometry builder *)

(** The dictionaries built per corner and per face by
    [populate_geometry_with_mesh_data].  A face's vertex entries are
    integers, or [None] once [find_vert_idx_by_tmp_idx] has found
    nothing. *)
Record vert := {
  idx : nat;
  tmp_idx : nat;
  co : Vector;
  normal : Vector;
  uvs : list bpy.UV;
  vert_cols : list bpy.Color;
  bones : list (nat * Q)
}.

Record face := {
  verts : list (option nat);
  mat_idx : nat
}.

(** [get_skin_plg_and_bone_groups]: the first armature modifier, if any. *)
Fixpoint find_armature (modifiers : list bpy.Modifier) : option (list bpy.Bone) :=
  match modifiers with
  | [] => None
  | m :: ms =>
      if decide (bpy.modifier_type m = "ARMATURE")
      then bpy.modifier_object m
      else find_armature ms
  end.

(** [obj.vertex_groups[name].index]: the position of the group of that
    name, [None] where the host raises [KeyError]. *)
Definition vertex_group_index (vertex_groups : list string) (name : string)
  : option nat :=
  fst <$> list_find (fun g => g = name) vertex_groups.

Definition skin_bone_step (vertex_groups : list string)
    (acc : dff.SkinPLG * gmap nat nat) (ib : nat * bpy.Bone)
  : result (dff.SkinPLG * gmap nat nat) :=
  let '(skin, bone_groups) := acc in
  let '(index, bone) := ib in
  match bpy.matrix_local_inverted bone with
  | None => Raise ValueError
  | Some inv =>
      let skin' :=
        {| dff.num_bones := dff.num_bones skin;
           dff.bone_matrices := dff.bone_matrices skin ++ [transposed4 inv];
           dff.vertex_bone_indices := dff.vertex_bone_indices skin;
           dff.vertex_bone_weights := dff.vertex_bone_weights skin |} in
      match vertex_group_index vertex_groups (bpy.name (bpy.bone_node bone)) with
      | Some g => Ok (skin', <[ g := index ]> bone_groups)
      | None => Ok (skin', bone_groups)
      end
  end.

Definition get_skin_plg_and_bone_groups (obj : bpy.Object)
  : result (option dff.SkinPLG * gmap nat nat) :=
  match find_armature (bpy.modifiers obj) with
  | None => Ok (None, ∅)
  | Some bones =>
      let skin :=
        {| dff.num_bones := length bones;
           dff.bone_matrices := dff.bone_matrices dff.new_SkinPLG;
           dff.vertex_bone_indices := dff.vertex_bone_indices dff.new_SkinPLG;
           dff.vertex_bone_weights := dff.vertex_bone_weights dff.new_SkinPLG |} in
      '(skin', bone_groups) ←
        for_each (skin_bone_step (bpy.vertex_groups obj)) (enumerate bones) (skin, ∅);
      Ok (Some skin', bone_groups)
  end.

(** [find_vert_idx_by_tmp_idx]: the first position whose [tmp_idx] is the
    one looked for; Python's implicit [None] otherwise.  An entry that is
    already [None] equals no [tmp_idx]. *)
Definition find_vert_idx_by_tmp_idx (verts : list vert) (i : option nat)
  : option nat :=
  match i with
  | None => None
  | Some k => fst <$> list_find (fun v => tmp_idx v = k) verts
  end.

(** The host's [==] on two UV vectors, and Python's [==] on two lists of
    them: the same length and equal entries. *)
Definition UV_host_eq (a b : bpy.UV) : bool :=
  float_eq a.1 b.1 && float_eq a.2 b.2.

Fixpoint uvs_host_eq (l1 l2 : list bpy.UV) : bool :=
  match l1, l2 with
  | [], [] => true
  | a :: l1', b :: l2' => UV_host_eq a b && uvs_host_eq l1' l2'
  | _, _ => false
  end.

(** The test of the inner loop of [cleanup_duplicate_verts]: [==] on the
    two integers, on the two normals and on the two lists of UVs. *)
Definition same_corner (v v2 : vert) : bool :=
  bool_decide (idx v = idx v2) &&
  Vector_host_eq (normal v) (normal v2) &&
  uvs_host_eq (uvs v) (uvs v2).

(** The inner [while j < len(verts)] loop for a fixed [vert]: [rest] is
    [verts[j:]]; the result is what is left of it and the updated
    [removed_verts]. *)
Fixpoint cleanup_inner (v : vert) (rest : list vert) (removed_verts : gmap nat nat)
  : list vert * gmap nat nat :=
  match rest with
  | [] => ([], removed_verts)
  | v2 :: rest' =>
      if same_corner v v2
      then cleanup_inner v rest' (<[ tmp_idx v2 := tmp_idx v ]> removed_verts)
      else
        let '(kept, removed_verts') := cleanup_inner v rest' removed_verts in
        (v2 :: kept, removed_verts')
  end.

(** The outer [while i < len(verts)] loop: [verts[i:]] is the list
    argument; each round fixes [verts[i]] and runs the inner loop on what
    follows.  The list never grows, so [length verts] rounds are enough
    (see [cleanup_outer_fuel]). *)
Fixpoint cleanup_outer (fuel : nat) (verts : list vert) (removed_verts : gmap nat nat)
  : list vert * gmap nat nat :=
  match fuel, verts with
  | S fuel', v :: rest =>
      let '(rest', removed_verts') := cleanup_inner v rest removed_verts in
      let '(done, removed_verts'') := cleanup_outer fuel' rest' removed_verts' in
      (v :: done, removed_verts'')
  | _, _ => (verts, removed_verts)
  end.

(** The update of one entry of [face['verts']]. *)
Definition remap_vert_idx (verts : list vert) (removed_verts : gmap nat nat)
    (vert_idx : option nat) : option nat :=
  match vert_idx with
  | Some k =>
      match removed_verts !! k with
      | Some kept => find_vert_idx_by_tmp_idx verts (Some kept)
      | None => find_vert_idx_by_tmp_idx verts (Some k)
      end
  | None => find_vert_idx_by_tmp_idx verts None
  end.

Definition remap_face (vertices_list : list vert) (removed_verts : gmap nat nat)
    (f : face) : face :=
  {| verts := map (remap_vert_idx vertices_list removed_verts) (verts f);
     mat_idx := mat_idx f |}.

(** [cleanup_duplicate_verts] mutates both lists; here it returns them. *)
Definition cleanup_duplicate_verts (verts : list vert) (faces : list face)
  : list vert * list face :=
  let '(verts', removed_verts) := cleanup_outer (length verts) verts ∅ in
  (verts', map (remap_face verts' removed_verts) faces).

(** [populate_geometry_from_vertices_data] *)

Definition max_uv_layers (obj : bpy.Object) : nat :=
  ((Nat.b2n (bpy.uv_map2 obj) + 1) * Nat.b2n (bpy.uv_map1 obj))%nat.

Definition to_RGBA (col : bpy.Color) : dff.RGBA :=
  let '(r, g, b, a) := col in
  (pyint (r * 255), pyint (g * 255), pyint (b * 255), pyint (a * 255)).

(** [while index >= len(uv_layers): uv_layers.append([])] *)
Definition grow_uv_layers (index : nat) (uv_layers : list (list dff.TexCoords))
  : list (list dff.TexCoords) :=
  uv_layers ++ replicate (S index - length uv_layers) [].

(** [for index, uv in enumerate(vertex['uvs'])], with its [break]. *)
Fixpoint uv_loop (max_uv : nat) (iuvs : list (nat * bpy.UV))
    (uv_layers : list (list dff.TexCoords)) : list (list dff.TexCoords) :=
  match iuvs with
  | [] => uv_layers
  | (index, (x, y)) :: rest =>
      if decide (max_uv <= index)%nat then uv_layers
      else
        let grown := grow_uv_layers index uv_layers in
        uv_loop max_uv rest (alter (fun layer => layer ++ [(x, 1 - y)%Q]) index grown)
  end.

(** [for index, bone in enumerate(vertex['bones'])] on the two rows just
    appended to the skin. *)
Definition bone_row_step (rows : list nat * list Q) (ib : nat * (nat * Q))
  : result (list nat * list Q) :=
  let '(indices, weights) := rows in
  let '(index, (bone, w)) := ib in
  indices' ← setitem indices index bone;
  weights' ← setitem weights index w;
  Ok (indices', weights').

Definition skin_add_vertex (skin : dff.SkinPLG) (vertex : vert) : result dff.SkinPLG :=
  '(indices, weights) ←
    for_each bone_row_step (enumerate (bones vertex))
             (replicate 4 0%nat, replicate 4 0%Q);
  Ok {| dff.num_bones := dff.num_bones skin;
        dff.bone_matrices := dff.bone_matrices skin;
        dff.vertex_bone_indices := dff.vertex_bone_indices skin ++ [indices];
        dff.vertex_bone_weights := dff.vertex_bone_weights skin ++ [weights] |}.

(** What the vertex loop updates: the geometry, the skin object and the
    extra colour extension. *)
Record vertices_state := {
  vs_geometry : dff.Geometry;
  vs_skin : option dff.SkinPLG;
  vs_extra_vert : option (list dff.RGBA)
}.

Definition vertex_step (has_prelit_colors has_night_colors : bool) (max_uv : nat)
    (st : vertices_state) (vertex : vert) : result vertices_state :=
  let g := vs_geometry st in
  prelit ←
    (if has_prelit_colors
     then col ← index (vert_cols vertex) 0;
          Ok (dff.prelit_colors g ++ [to_RGBA col])
     else Ok (dff.prelit_colors g));
  extra ←
    (if has_night_colors
     then col ← index (vert_cols vertex) 1;
          Ok ((fun colors => colors ++ [to_RGBA col]) <$> vs_extra_vert st)
     else Ok (vs_extra_vert st));
  skin ←
    match vs_skin st with
    | Some skin => skin' ← skin_add_vertex skin vertex; Ok (Some skin')
    | None => Ok None
    end;
  Ok {| vs_geometry :=
          {| dff.vertices := dff.vertices g ++ [co vertex];
             dff.normals := dff.normals g ++ [normal vertex];
             dff.prelit_colors := prelit;
             dff.uv_layers := uv_loop max_uv (enumerate (uvs vertex)) (dff.uv_layers g);
             dff.triangles := dff.triangles g;
             dff.bounding_sphere := dff.bounding_sphere g;
             dff.materials := dff.materials g;
             dff.ext_skin := dff.ext_skin g;
             dff.ext_extra_vert_color := dff.ext_extra_vert_color g |};
        vs_skin := skin;
        vs_extra_vert := extra |}.

Definition populate_geometry_from_vertices_data (vertices_list : list vert)
    (skin_plg : option dff.SkinPLG) (obj : bpy.Object) (geometry : dff.Geometry)
  : result dff.Geometry :=
  let mesh := bpy.mesh obj in
  let has_prelit_colors :=
    bool_decide (0 < length (bpy.vertex_colors mesh))%nat && bpy.day_cols obj in
  let has_night_colors :=
    bool_decide (1 < length (bpy.vertex_colors mesh))%nat && bpy.night_cols obj in
  let extra_vert := if has_night_colors then Some [] else None in
  st ← for_each (vertex_step has_prelit_colors has_night_colors (max_uv_layers obj))
         vertices_list
         {| vs_geometry := geometry; vs_skin := skin_plg; vs_extra_vert := extra_vert |};
  let g := vs_geometry st in
  Ok {| dff.vertices := dff.vertices g;
        dff.normals := dff.normals g;
        dff.prelit_colors := dff.prelit_colors g;
        dff.uv_layers := dff.uv_layers g;
        dff.triangles := dff.triangles g;
        dff.bounding_sphere := dff.bounding_sphere g;
        dff.materials := dff.materials g;
        dff.ext_skin :=
          match vs_skin st with
          | Some skin => Some skin
          | None => dff.ext_skin g
          end;
        dff.ext_extra_vert_color :=
          match vs_extra_vert st with
          | Some colors => Some colors
          | None => dff.ext_extra_vert_color g
          end |}.

(** [populate_geometry_from_faces_data] *)

Definition Geometry_set_triangles (t : list dff.Triangle) (g : dff.Geometry)
  : dff.Geometry :=
  {| dff.vertices := dff.vertices g;
     dff.normals := dff.normals g;
     dff.prelit_colors := dff.prelit_colors g;
     dff.uv_layers := dff.uv_layers g;
     dff.triangles := t;
     dff.bounding_sphere := dff.bounding_sphere g;
     dff.materials := dff.materials g;
     dff.ext_skin := dff.ext_skin g;
     dff.ext_extra_vert_color := dff.ext_extra_vert_color g |}.

Definition face_step (geometry : dff.Geometry) (f : face) : result dff.Geometry :=
  v1 ← index (verts f) 1;
  v0 ← index (verts f) 0;
  v2 ← index (verts f) 2;
  Ok (Geometry_set_triangles
        (dff.triangles geometry ++
         [ {| dff.b := v1; dff.a := v0; dff.material := mat_idx f; dff.c := v2 |} ])
        geometry).

Definition populate_geometry_from_faces_data (faces_list : list face)
    (geometry : dff.Geometry) : result dff.Geometry :=
  for_each face_step faces_list geometry.

(** [populate_geometry_with_mesh_data] *)

Fixpoint collect {A B : Type} (f : A -> result B) (xs : list A) : result (list B) :=
  match xs with
  | [] => Ok []
  | x :: xs' => y ← f x; ys ← collect f xs'; Ok (y :: ys)
  end.

Definition Qpositive (w : Q) : bool :=
  match (0 ?= w)%Q with
  | Lt => true
  | _ => false
  end.

(** [for group in vertex.groups], with its [break] at four entries. *)
Fixpoint collect_bones (bone_groups : gmap nat nat)
    (groups : list bpy.VertexGroupElement) (bones : list (nat * Q))
  : list (nat * Q) :=
  match groups with
  | [] => bones
  | g :: groups' =>
      if decide (4 <= length bones)%nat then bones
      else
        match bone_groups !! bpy.group g with
        | Some bone_index =>
            if Qpositive (bpy.weight g)
            then collect_bones bone_groups groups' (bones ++ [(bone_index, bpy.weight g)])
            else collect_bones bone_groups groups' bones
        | None => collect_bones bone_groups groups' bones
        end
  end.

(** The body of [for loop_index in polygon.loop_indices]. *)
Definition corner_step (mesh : bpy.Mesh) (bone_groups : gmap nat nat)
    (vertices_list : list vert) (loop_index : nat) : result (list vert) :=
  loop ← index (bpy.loops mesh) loop_index;
  vertex ← index (bpy.vertices mesh) (bpy.vertex_index loop);
  uvs ← collect (fun uv_layer => index uv_layer loop_index) (bpy.uv_layers mesh);
  vert_cols ← collect (fun vert_col => index vert_col loop_index) (bpy.vertex_colors mesh);
  let bones := collect_bones bone_groups (bpy.groups vertex) [] in
  Ok (vertices_list ++
      [ {| idx := bpy.vertex_index loop;
           tmp_idx := length vertices_list;
           co := bpy.co vertex;
           normal := bpy.normal loop;
           uvs := uvs;
           vert_cols := vert_cols;
           bones := bones |} ]).

(** The body of [for idx, polygon in enumerate(mesh.polygons)]. *)
Definition polygon_step (mesh : bpy.Mesh) (bone_groups : gmap nat nat)
    (acc : list vert * list face) (ip : nat * bpy.MeshPolygon)
  : result (list vert * list face) :=
  let '(vertices_list, faces_list) := acc in
  let '(i, polygon) := ip in
  let faces_list' :=
    faces_list ++
    [ {| verts := [Some (i * 3); Some (i * 3 + 1); Some (i * 3 + 2)]%nat;
         mat_idx := bpy.material_index polygon |} ] in
  vertices_list' ←
    for_each (corner_step mesh bone_groups) (bpy.loop_indices polygon) vertices_list;
  Ok (vertices_list', faces_list').

Definition populate_geometry_with_mesh_data (obj : bpy.Object) (geometry : dff.Geometry)
  : result dff.Geometry :=
  let mesh := bpy.mesh obj in
  '(skin_plg, bone_groups) ← get_skin_plg_and_bone_groups obj;
  '(vertices_list, faces_list) ←
    for_each (polygon_step mesh bone_groups) (enumerate (bpy.polygons mesh)) ([], []);
  let '(vertices_list', faces_list') :=
    cleanup_duplicate_verts vertices_list faces_list in
  geometry' ← populate_geometry_from_vertices_data vertices_list' skin_plg obj geometry;
  populate_geometry_from_faces_data faces_list' geometry'.

(** ** The exporter's class-level state *)

(** [current_clump] is a reference to one of the values of [clumps]; it is
    kept as that value's key, and writes through it go to the map.
    [uvanim_dict] and [dff_clumps] are the two lists of [self.dff]. *)
Record exporter := {
  current_clump : option Z;
  clumps : gmap Z dff.Clump;
  frames : gmap string nat;
  bones_registry : gmap string nat;
  parent_queue : gmap string nat;
  uvanim_dict : list dff.UVAnim;
  dff_clumps : list dff.Clump
}.

(** The class attributes as the module is loaded. *)
Definition initial : exporter :=
  {| current_clump := None; clumps := ∅; frames := ∅; bones_registry := ∅;
     parent_queue := ∅; uvanim_dict := []; dff_clumps := [] |}.

Definition get_current_clump (self : exporter) : result (Z * dff.Clump) :=
  match current_clump self with
  | None => Raise AttributeError
  | Some k => cl ← getitem (clumps self) k; Ok (k, cl)
  end.

Definition set_clumps (c : gmap Z dff.Clump) (self : exporter) : exporter :=
  {| current_clump := current_clump self; clumps := c; frames := frames self;
     bones_registry := bones_registry self; parent_queue := parent_queue self;
     uvanim_dict := uvanim_dict self; dff_clumps := dff_clumps self |}.

Definition set_current_clump (k : Z) (self : exporter) : exporter :=
  {| current_clump := Some k; clumps := clumps self; frames := frames self;
     bones_registry := bones_registry self; parent_queue := parent_queue self;
     uvanim_dict := uvanim_dict self; dff_clumps := dff_clumps self |}.

Definition Clump_set_frame_list (fl : list dff.Frame) (cl : dff.Clump) : dff.Clump :=
  {| dff.frame_list := fl; dff.geometry_list := dff.geometry_list cl;
     dff.atomic_list := dff.atomic_list cl |}.

Definition Frame_set_parent (p : Z) (f : dff.Frame) : dff.Frame :=
  {| dff.name := dff.name f; dff.parent := p;
     dff.creation_flags := dff.creation_flags f; dff.position := dff.position f;
     dff.rotation_matrix := dff.rotation_matrix f; dff.user_data := dff.user_data f;
     dff.bone_data := dff.bone_data f |}.

Definition Frame_set_bone_data (d : dff.HAnimPLG) (f : dff.Frame) : dff.Frame :=
  {| dff.name := dff.name f; dff.parent := dff.parent f;
     dff.creation_flags := dff.creation_flags f; dff.position := dff.position f;
     dff.rotation_matrix := dff.rotation_matrix f; dff.user_data := dff.user_data f;
     dff.bone_data := Some d |}.

(** [id_array[name] = frame_index] on the registry chosen by [is_bone]. *)
Definition register (is_bone : bool) (name : string) (frame_index : nat)
    (self : exporter) : exporter :=
  {| current_clump := current_clump self; clumps := clumps self;
     frames := if is_bone then frames self else <[ name := frame_index ]> (frames self);
     bones_registry :=
       if is_bone then <[ name := frame_index ]> (bones_registry self)
       else bones_registry self;
     parent_queue := parent_queue self;
     uvanim_dict := uvanim_dict self; dff_clumps := dff_clumps self |}.

(** [self.current_clump.frame_list.append(frame)] *)
Definition append_frame (frame : dff.Frame) (self : exporter) : result exporter :=
  '(k, cl) ← get_current_clump self;
  Ok (set_clumps
        (<[ k := Clump_set_frame_list (dff.frame_list cl ++ [frame]) cl ]> (clumps self))
        self).

(** The scan of the parent queue at the head of [create_frame]: the one
    key equal to [obj.name], if the queue has it, names a frame whose
    parent becomes the frame being created. *)
Definition scan_parent_queue (name : string) (frame_index : nat) (self : exporter)
  : result exporter :=
  match parent_queue self !! name with
  | None => Ok self
  | Some i =>
      '(k, cl) ← get_current_clump self;
      queued ← index (dff.frame_list cl) i;
      Ok (set_clumps
            (<[ k := Clump_set_frame_list
                       (<[ i := Frame_set_parent (Z.of_nat frame_index) queued ]>
                          (dff.frame_list cl)) cl ]> (clumps self))
            self)
  end.

Definition create_frame (self : exporter) (obj : bpy.Datablock)
    (append set_parent : bool) : result (dff.Frame * exporter) :=
  '(_, cl) ← get_current_clump self;
  let frame_index := length (dff.frame_list cl) in
  self1 ← scan_parent_queue (bpy.name (bpy.node_of obj)) frame_index self;
  let matrix := bpy.matrix_local (bpy.node_of obj) in
  let id_array := if bpy.is_bone obj then bones_registry self1 else frames self1 in
  parent ←
    match bpy.parent (bpy.node_of obj) with
    | Some parent_name =>
        if set_parent then p ← getitem id_array parent_name; Ok (Z.of_nat p)
        else Ok (-1)
    | None => Ok (-1)
    end;
  let frame :=
    {| dff.name := clear_extension (bpy.name (bpy.node_of obj));
       dff.parent := parent;
       dff.creation_flags := 0;
       dff.position := to_translation matrix;
       dff.rotation_matrix := transposed3 (to_3x3 matrix);
       dff.user_data := bpy.dff_user_data (bpy.node_of obj);
       dff.bone_data := None |} in
  let self2 :=
    register (bpy.is_bone obj) (bpy.name (bpy.node_of obj)) frame_index self1 in
  self3 ← (if append then append_frame frame self2 else Ok self2);
  Ok (frame, self3).

(** [generate_material_list]: of the plugins of a material only the UV
    animation is kept; a produced track is named by the material and
    appended to [self.dff.uvanim_dict]. *)
Definition material_step (fps : Z) (acc : list dff.Material * exporter)
    (b_material : option bpy.Material) : result (list dff.Material * exporter) :=
  let '(materials, self) := acc in
  match b_material with
  | None => Ok (materials, self)
  | Some m =>
      anim ← get_uv_animation fps m;
      match anim with
      | Some an =>
          Ok (materials ++ [ {| dff.uv_anim := Some (dff.anim_name an) |} ],
              {| current_clump := current_clump self; clumps := clumps self;
                 frames := frames self; bones_registry := bones_registry self;
                 parent_queue := parent_queue self;
                 uvanim_dict := uvanim_dict self ++ [an];
                 dff_clumps := dff_clumps self |})
      | None => Ok (materials ++ [ {| dff.uv_anim := None |} ], self)
      end
  end.

Definition generate_material_list (fps : Z) (self : exporter) (obj : bpy.Object)
  : result (list dff.Material * exporter) :=
  for_each (material_step fps) (bpy.materials obj) ([], self).

(** The bounding sphere of [populate_atomic]. *)
Definition sphere_center (obj : bpy.Object) : Vector :=
  multiply_matrix (bpy.matrix_world obj)
    (vec_scale 0.125 (fold_left vec_add (bpy.bound_box obj) vec_zero)).

Definition max3 (d : Vector) : Q :=
  let '(x, y, z) := d in pymax (pymax x y) z.

Definition sphere_radius (obj : bpy.Object) : Q :=
  (1.732 * max3 (bpy.dimensions obj) / 2)%Q.

Definition populate_atomic (fps : Z) (self : exporter) (obj : bpy.Object)
  : result exporter :=
  geometry ← populate_geometry_with_mesh_data obj dff.new_Geometry;
  '(_, self1) ← create_frame self (bpy.an_object (bpy.node obj)) true true;
  '(materials, self2) ← generate_material_list fps self1 obj;
  let geometry' :=
    {| dff.vertices := dff.vertices geometry;
       dff.normals := dff.normals geometry;
       dff.prelit_colors := dff.prelit_colors geometry;
       dff.uv_layers := dff.uv_layers geometry;
       dff.triangles := dff.triangles geometry;
       dff.bounding_sphere :=
         Some {| dff.center := sphere_center obj; dff.radius := sphere_radius obj |};
       dff.materials := materials;
       dff.ext_skin := dff.ext_skin geometry;
       dff.ext_extra_vert_color := dff.ext_extra_vert_color geometry |} in
  '(k, cl) ← get_current_clump self2;
  let geometry_list := dff.geometry_list cl ++ [geometry'] in
  let atomic :=
    {| dff.atomic_frame := Z.of_nat (length (dff.frame_list cl)) - 1;
       dff.atomic_geometry := Z.of_nat (length geometry_list) - 1;
       dff.atomic_flags := 4;
       dff.atomic_unk := 0 |} in
  Ok (set_clumps
        (<[ k := {| dff.frame_list := dff.frame_list cl;
                    dff.geometry_list := geometry_list;
                    dff.atomic_list := dff.atomic_list cl ++ [atomic] |} ]>
           (clumps self2))
        self2).

(** [bone["bone_id"]] and [bone["type"]] *)
Definition custom_prop (p : option Z) : result Z :=
  match p with
  | Some v => Ok v
  | None => Raise KeyError
  end.

Definition hanim_bone (ib : nat * bpy.Bone) : result dff.Bone :=
  let '(_index, _bone) := ib in
  i ← custom_prop (bpy.bone_id _bone);
  t ← custom_prop (bpy.bone_type _bone);
  Ok {| dff.bone_id := i; dff.bone_index := _index; dff.bone_type := t |}.

(** The body of [for index, bone in enumerate(obj.data.bones)]. *)
Definition armature_bone_step (obj : bpy.Object) (self : exporter)
    (ib : nat * bpy.Bone) : result exporter :=
  let '(i, bone) := ib in
  match i with
  | O =>
      '(frame, self1) ← create_frame self (bpy.a_bone (bpy.bone_node bone)) false true;
      frame1 ←
        match bpy.parent (bpy.node obj) with
        | Some parent_name =>
            p ← getitem (frames self1) parent_name;
            Ok (Frame_set_parent (Z.of_nat p) frame)
        | None => Ok frame
        end;
      root_id ← custom_prop (bpy.bone_id bone);
      all_bones ← collect hanim_bone (enumerate (bpy.data_bones obj));
      let bone_data :=
        {| dff.header :=
             {| dff.version := 256; dff.id := root_id;
                dff.bone_count := length (bpy.data_bones obj) |};
           dff.bones := all_bones |} in
      append_frame (Frame_set_bone_data bone_data frame1) self1
  | S _ =>
      '(frame, self1) ← create_frame self (bpy.a_bone (bpy.bone_node bone)) false true;
      this_id ← custom_prop (bpy.bone_id bone);
      let bone_data :=
        {| dff.header :=
             {| dff.version := 256; dff.id := this_id; dff.bone_count := 0 |};
           dff.bones := [] |} in
      append_frame (Frame_set_bone_data bone_data frame) self1
  end.

Definition export_armature (self : exporter) (obj : bpy.Object) : result exporter :=
  for_each (armature_bone_step obj) (enumerate (bpy.data_bones obj)) self.

(** The first two statements of the body of [for obj in objects]: the
    clump of the object is created if it is new, and becomes current. *)
Definition enter_clump (self : exporter) (k : Z) : exporter :=
  set_current_clump k
    match clumps self !! k with
    | Some _ => self
    | None => set_clumps (<[ k := dff.new_Clump ]> (clumps self)) self
    end.

(** The body of [for obj in objects] in [export_objects]. *)
Definition export_object (fps : Z) (self : exporter) (obj : bpy.Object)
  : result exporter :=
  let self2 := enter_clump self (bpy.clump obj) in
  if decide (bpy.type obj = "MESH") then populate_atomic fps self2 obj
  else if decide (bpy.type obj = "EMPTY") then
    '(_, self3) ← create_frame self2 (bpy.an_object (bpy.node obj)) true true; Ok self3
  else if decide (bpy.type obj = "ARMATURE") then export_armature self2 obj
  else Ok self2.

(** [self.dff = dff.dff()] *)
Definition new_dff (self : exporter) : exporter :=
  {| current_clump := current_clump self; clumps := clumps self;
     frames := frames self; bones_registry := bones_registry self;
     parent_queue := parent_queue self; uvanim_dict := []; dff_clumps := [] |}.

(** [for clump_idx in sorted(self.clumps.keys())] *)
Definition assemble (self : exporter) : exporter :=
  {| current_clump := current_clump self; clumps := clumps self;
     frames := frames self; bones_registry := bones_registry self;
     parent_queue := parent_queue self; uvanim_dict := uvanim_dict self;
     dff_clumps :=
       dff_clumps self ++
       omap (fun k => clumps self !! k)
            (merge_sort Z.le (elements (dom (clumps self)))) |}.

(** [export_objects], up to the assembled [self.dff]; the collision blob
    and the file written from [self.dff] are outside this file. *)
Definition export_objects (fps : Z) (self : exporter) (objects : list bpy.Object)
  : result exporter :=
  let self0 := new_dff self in
  match objects with
  | [] => Ok self0
  | _ =>
      self1 ← for_each (export_object fps) objects self0;
      Ok (assemble self1)
  end.

(** [dff_exporter.export_dff] without [mass_export], from the point where
    the objects have been collected and sorted by parent depth: the clump
    map was emptied on entry, the two registries were not (the
    [mass_export] branch empties all three after each unit). *)
Definition export_dff (fps : Z) (self : exporter) (sorted_objects : list bpy.Object)
  : result exporter :=
  export_objects fps (set_clumps ∅ self) sorted_objects.

(** ** Properties stated about the exporter *)

(** No forward parent reference: every frame is a root or points to an
    earlier position of its own list. *)
Definition parents_backward (frame_list : list dff.Frame) : Prop :=
  forall (i : nat) (f : dff.Frame),
    frame_list !! i = Some f ->
    dff.parent f = -1 \/ dff.parent f < Z.of_nat i.

(** The registry chosen by [create_frame] for a node. *)
Definition id_array (self : exporter) (obj : bpy.Datablock) : gmap string nat :=
  if bpy.is_bone obj then bones_registry self else frames self.

(** Every frame in a clump's list before is still there, unchanged and at
    the same position, after. *)
Definition frames_kept (self self' : exporter) : Prop :=
  forall (k : Z) (cl : dff.Clump),
    clumps self !! k = Some cl ->
    exists cl', clumps self' !! k = Some cl' /\
                dff.frame_list cl `prefix_of` dff.frame_list cl'.

(** A step that, started with an empty parent queue, leaves the queue
    empty and every frame already listed in place. *)
Definition quiet_step (self self' : exporter) : Prop :=
  parent_queue self = ∅ ->
  parent_queue self' = ∅ /\ frames_kept self self'.

(** The number of frames of clump [k], zero while the clump is not there. *)
Definition frame_count (self : exporter) (k : Z) : nat :=
  match clumps self !! k with
  | Some cl => length (dff.frame_list cl)
  | None => 0%nat
  end.

(** The state of a pass all of whose objects are in clump [k]: nothing is
    queued, no other clump exists, the frames of the clump point
    backwards, and both registries hold positions of its frame list. *)
Definition single_clump_ok (k : Z) (self : exporter) : Prop :=
  parent_queue self = ∅ /\
  (forall (k' : Z) (cl : dff.Clump),
     clumps self !! k' = Some cl -> k' = k /\ parents_backward (dff.frame_list cl)) /\
  (forall (name : string) (i : nat),
     frames self !! name = Some i -> (i < frame_count self k)%nat) /\
  (forall (name : string) (i : nat),
     bones_registry self !! name = Some i -> (i < frame_count self k)%nat).

(** The three attributes compared by the deduplication. *)
Definition corner_key (v : vert) : nat * Vector * list bpy.UV :=
  (idx v, normal v, uvs v).

(** No corner of the list compares equal, by the test of the
    deduplication, to one that comes after it. *)
Fixpoint distinct_corners (vertices_list : list vert) : Prop :=
  match vertices_list with
  | [] => True
  | v :: rest => Forall (fun w => same_corner v w = false) rest /\ distinct_corners rest
  end.

(** Corners as [populate_geometry_with_mesh_data] collects them: the
    [tmp_idx] of a corner is its position. *)
Definition corners_numbered (vertices_list : list vert) : Prop :=
  forall (i : nat) (v : vert), vertices_list !! i = Some v -> tmp_idx v = i.

(** A face entry after the remap through a slot assignment: corner [p]
    goes to [slot p]; an entry that names no corner becomes [None]. *)
Definition slot_entry (n : nat) (slot : nat -> nat) (e : option nat) : option nat :=
  match e with
  | Some p => if decide (p < n)%nat then Some (slot p) else None
  | None => None
  end.

Definition slot_face (n : nat) (slot : nat -> nat) (f : face) : face :=
  {| verts := map (slot_entry n slot) (verts f); mat_idx := mat_idx f |}.

(** The times written while the key frames of the accepted curves are
    visited, in visiting order. *)
Definition curve_times (fps : Z) (curve : bpy.FCurve) : list Q :=
  if decide (1 < bpy.array_index curve)%nat then []
  else
    match uv_offset !! bpy.data_path curve with
    | None => []
    | Some _ => map (fun k => (fst k / inject_Z fps)%Q) (bpy.keyframe_points curve)
    end.

Definition visited_times (fps : Z) (fcurves : list bpy.FCurve) : list Q :=
  flat_map (curve_times fps) fcurves.

Definition running_max (times : list Q) (start : Q) : Q :=
  fold_left (fun d t => pymax t d) times start.

(** [m] is the largest element of [times]. *)
Definition is_maximum (times : list Q) (m : Q) : Prop :=
  In m times /\ Forall (fun t => (t <= m)%Q) times.

Definition Vector_eq (a b : Vector) : Prop :=
  let '(ax, ay, az) := a in
  let '(bx, by_, bz) := b in
  (ax == bx)%Q /\ (ay == by_)%Q /\ (az == bz)%Q.

(** The average of the transformed corners of a bounding box. *)
Definition average_of_transformed (m : Matrix4) (corners : list Vector) : Vector :=
  vec_scale 0.125 (fold_left vec_add (map (multiply_matrix m) corners) vec_zero).

(** The rows written for one vertex with influences [infl]: the
    influences first, zeros after them. *)
Definition padded_indices (infl : list (nat * Q)) : list nat :=
  map fst infl ++ replicate (4 - length infl) 0%nat.

Definition padded_weights (infl : list (nat * Q)) : list Q :=
  map snd infl ++ replicate (4 - length infl) 0%Q.

(** The influences collected for a corner: at most four, each with a
    positive weight. *)
Definition influences_ok (infl : list (nat * Q)) : Prop :=
  (length infl <= 4)%nat /\ Forall (fun iw => (0 < snd iw)%Q) infl.

(** The skin rows of one vertex: four entries each, the influences first
    and zeros in the positions after them. *)
Definition padded_rows (indices : list nat) (weights : list Q) : Prop :=
  exists infl : list (nat * Q),
    influences_ok infl /\
    indices = padded_indices infl /\ weights = padded_weights infl.

(** What the vertex loop keeps true of the skin: it is there, its bones
    are untouched, and it has one pair of padded rows per vertex of the
    geometry. *)
Definition skin_rows_ok (n_bones n_matrices : nat) (st : vertices_state) : Prop :=
  exists skin,
    vs_skin st = Some skin /\
    dff.num_bones skin = n_bones /\
    length (dff.bone_matrices skin) = n_matrices /\
    length (dff.vertex_bone_indices skin) = length (dff.vertices (vs_geometry st)) /\
    Forall2 padded_rows (dff.vertex_bone_indices skin) (dff.vertex_bone_weights skin).

(** ** Sample scenes *)

Definition identity4 : Matrix4 :=
  ((1, 0, 0, 0), (0, 1, 0, 0), (0, 0, 1, 0), (0, 0, 0, 1))%Q.

Definition sample_node (name : string) (parent : option string) : bpy.Node :=
  {| bpy.name := name; bpy.parent := parent;
     bpy.matrix_local := identity4; bpy.dff_user_data := None |}.

Definition empty_mesh : bpy.Mesh :=
  {| bpy.polygons := []; bpy.loops := []; bpy.vertices := [];
     bpy.uv_layers := []; bpy.vertex_colors := [] |}.

Definition sample_object (type name : string) (parent : option string) (clump : Z)
  : bpy.Object :=
  {| bpy.node := sample_node name parent; bpy.type := type;
     bpy.clump := clump; bpy.data_bones := []; bpy.mesh := empty_mesh;
     bpy.modifiers := []; bpy.vertex_groups := [];
     bpy.day_cols := false; bpy.night_cols := false;
     bpy.uv_map1 := true; bpy.uv_map2 := true; bpy.bound_box := [];
     bpy.matrix_world := identity4; bpy.dimensions := (0, 0, 0)%Q;
     bpy.materials := [] |}.

(** Two empties in clump 0 and a child of the second one in clump 1, in
    parent-depth order. *)
Definition two_clump_scene : list bpy.Object :=
  [ sample_object "EMPTY" "body" None 0;
    sample_object "EMPTY" "door" None 0;
    sample_object "EMPTY" "handle" (Some "door") 1 ].

(** The same three empties in one clump. *)
Definition one_clump_scene : list bpy.Object :=
  [ sample_object "EMPTY" "body" None 0;
    sample_object "EMPTY" "door" None 0;
    sample_object "EMPTY" "handle" (Some "door") 0 ].

(** The state in which [export_objects] calls [create_frame] for the
    first object of a pass, here an object of clump 0. *)
Definition first_call_state : exporter :=
  set_current_clump 0 (set_clumps (<[ 0 := dff.new_Clump ]> ∅) initial).

Definition orphan : bpy.Datablock :=
  bpy.an_object (sample_node "handle" (Some "door")).

(** A quad of two triangles sharing the edge between vertices 0 and 2,
    with two UV layers, one colour layer and weights for two bones. *)
Definition quad_vertex (x y : Q) (groups : list (nat * Q)) : bpy.MeshVertex :=
  {| bpy.co := (x, y, 0%Q);
     bpy.groups :=
       map (fun g => {| bpy.group := fst g; bpy.weight := snd g |}) groups |}.

Definition quad_mesh : bpy.Mesh :=
  let up : Vector := (0, 0, 1)%Q in
  let lp (v : nat) := {| bpy.vertex_index := v; bpy.normal := up |} in
  let uv0 : list bpy.UV := [(0, 0); (1, 0); (1, 1); (0, 0); (1, 1); (0, 1)]%Q in
  let white : bpy.Color := (1, 1, 1, 1)%Q in
  {| bpy.polygons :=
       [ {| bpy.material_index := 0; bpy.loop_indices := [0; 1; 2]%nat |};
         {| bpy.material_index := 1; bpy.loop_indices := [3; 4; 5]%nat |} ];
     bpy.loops := [lp 0; lp 1; lp 2; lp 0; lp 2; lp 3]%nat;
     bpy.vertices :=
       [ quad_vertex 0 0 [(0%nat, 1 # 2); (1%nat, 1 # 2)]%Q;
         quad_vertex 1 0 [(1%nat, 1%Q)];
         quad_vertex 1 1 [(0%nat, 0%Q); (1%nat, (1 # 4)%Q)];
         quad_vertex 0 1 [] ];
     bpy.uv_layers := [uv0; uv0];
     bpy.vertex_colors := [replicate 6 white] |}.

Definition sample_bone (name : string) (parent : option string) (bone_id : Z)
  : bpy.Bone :=
  {| bpy.bone_node := sample_node name parent;
     bpy.matrix_local_inverted := Some identity4;
     bpy.bone_id := Some bone_id; bpy.bone_type := Some 0 |}.

Definition sample_bones : list bpy.Bone :=
  [ sample_bone "root" None 0; sample_bone "arm" (Some "root") 1;
    sample_bone "hand" (Some "arm") 2 ].

Definition quad_object : bpy.Object :=
  {| bpy.node := sample_node "quad.001" None; bpy.type := "MESH";
     bpy.clump := 0; bpy.data_bones := []; bpy.mesh := quad_mesh;
     bpy.modifiers :=
       [ {| bpy.modifier_type := "SUBSURF"; bpy.modifier_object := None |};
         {| bpy.modifier_type := "ARMATURE";
            bpy.modifier_object := Some sample_bones |} ];
     bpy.vertex_groups := ["root"; "hand"];
     bpy.day_cols := true; bpy.night_cols := true;
     bpy.uv_map1 := true; bpy.uv_map2 := false;
     bpy.bound_box :=
       [ (0, 0, 0); (0, 0, 0); (0, 1, 0); (0, 1, 0);
         (1, 0, 0); (1, 0, 0); (1, 1, 0); (1, 1, 0) ]%Q;
     bpy.matrix_world :=
       ((2, 0, 0, 5), (0, 2, 0, 0), (0, 0, 2, 0), (0, 0, 0, 1))%Q;
     bpy.dimensions := (2, 2, 0)%Q;
     bpy.materials := [] |}.

Definition armature_object : bpy.Object :=
  {| bpy.node := sample_node "skeleton" (Some "body"); bpy.type := "ARMATURE";
     bpy.clump := 0; bpy.data_bones := sample_bones; bpy.mesh := empty_mesh;
     bpy.modifiers := []; bpy.vertex_groups := [];
     bpy.day_cols := false; bpy.night_cols := false;
     bpy.uv_map1 := false; bpy.uv_map2 := false; bpy.bound_box := [];
     bpy.matrix_world := identity4; bpy.dimensions := (0, 0, 0)%Q;
     bpy.materials := [] |}.

(** The six corners of [quad_mesh] as collected, without bones. *)
Definition quad_corner (tmp idx : nat) (x y : Q) : vert :=
  {| idx := idx; tmp_idx := tmp; co := (x, y, 0%Q); normal := (0, 0, 1)%Q;
     uvs := [(x, y)]; vert_cols := []; bones := [] |}.

Definition quad_corners : list vert :=
  [ quad_corner 0 0 0 0; quad_corner 1 1 1 0; quad_corner 2 2 1 1;
    quad_corner 3 0 0 0; quad_corner 4 2 1 1; quad_corner 5 3 0 1 ].

Definition quad_faces : list face :=
  [ {| verts := [Some 0; Some 1; Some 2]%nat; mat_idx := 0 |};
    {| verts := [Some 3; Some 4; Some 5]%nat; mat_idx := 1 |} ].

(** A material whose mapping node has two animated inputs: the offset
    keyed at frames 0 and 48, the scale keyed at frames 0 and 24. *)
Definition two_curve_material : bpy.Material :=
  {| bpy.export_animation := true; bpy.animation_name := "scroll";
     bpy.principled := true; bpy.has_mapping_node := true;
     bpy.anim_data :=
       Some (Some
         [ {| bpy.array_index := 0; bpy.data_path := mapping_input "1";
              bpy.keyframe_points := [(0, 0); (48, 1)]%Q |};
           {| bpy.array_index := 0; bpy.data_path := mapping_input "3";
              bpy.keyframe_points := [(0, 1); (24, 2)]%Q |} ]) |}.

(** A material whose offset is keyed at frames -48 and -24 only. *)
Definition negative_keys_material : bpy.Material :=
  {| bpy.export_animation := true; bpy.animation_name := "intro";
     bpy.principled := true; bpy.has_mapping_node := true;
     bpy.anim_data :=
       Some (Some
         [ {| bpy.array_index := 1; bpy.data_path := mapping_input "1";
              bpy.keyframe_points := [(-48, 0); (-24, 1)]%Q |} ]) |}.

(** ** Further properties of the exporter *)

(** A string without a period. *)
Fixpoint dotless (s : string) : bool :=
  match s with
  | EmptyString => true
  | String c s' => negb (Ascii.eqb c "."%char) && dotless s'
  end.

(** A colour channel between 0 and 1, and a value that fits a byte. *)
Definition unit_channel (x : Q) : Prop := (0 <= x)%Q /\ (x <= 1)%Q.

Definition is_byte (z : Z) : Prop := 0 <= z <= 255.

(** What one vertex group contributes to the influences of a corner: the
    bone it is mapped to with its weight, if it is mapped and the weight is
    positive. *)
Definition bone_influence (bone_groups : gmap nat nat) (g : bpy.VertexGroupElement)
  : option (nat * Q) :=
  match bone_groups !! bpy.group g with
  | Some bone_index =>
      if Qpositive (bpy.weight g) then Some (bone_index, bpy.weight g) else None
  | None => None
  end.

(** The world matrix moved by [t]. *)
Definition translated (t : Vector) (m : Matrix4) : Matrix4 :=
  let '((a, b, c, d), (e, f, g, h), (i, j, k, l), r4) := m in
  let '(tx, ty, tz) := t in
  ((a, b, c, d + tx), (e, f, g, h + ty), (i, j, k, l + tz), r4)%Q.

(** [quad_object] with twice the dimensions and a world matrix moved by
    one unit along x. *)
Definition quad_object_moved : bpy.Object :=
  {| bpy.node := bpy.node quad_object; bpy.type := bpy.type quad_object;
     bpy.clump := bpy.clump quad_object; bpy.data_bones := bpy.data_bones quad_object;
     bpy.mesh := bpy.mesh quad_object; bpy.modifiers := bpy.modifiers quad_object;
     bpy.vertex_groups := bpy.vertex_groups quad_object;
     bpy.day_cols := bpy.day_cols quad_object;
     bpy.night_cols := bpy.night_cols quad_object;
     bpy.uv_map1 := bpy.uv_map1 quad_object; bpy.uv_map2 := bpy.uv_map2 quad_object;
     bpy.bound_box := bpy.bound_box quad_object;
     bpy.matrix_world := translated (1, 0, 0)%Q (bpy.matrix_world quad_object);
     bpy.dimensions := (4, 4, 0)%Q;
     bpy.materials := bpy.materials quad_object |}.

(** A mesh all of whose polygons have three corners. *)
Definition triangulated (mesh : bpy.Mesh) : Prop :=
  Forall (fun p => length (bpy.loop_indices p) = 3%nat) (bpy.polygons mesh).

(** The corner [v] was collected from the loop [loop_index] of the mesh:
    it has the index and the position of the loop's vertex, the normal of
    the loop and, per UV layer, the coordinate of the loop. *)
Definition corner_from (mesh : bpy.Mesh) (loop_index : nat) (v : vert) : Prop :=
  exists loop mv,
    bpy.loops mesh !! loop_index = Some loop /\
    bpy.vertices mesh !! bpy.vertex_index loop = Some mv /\
    idx v = bpy.vertex_index loop /\
    co v = bpy.co mv /\
    normal v = bpy.normal loop /\
    Forall2 (fun layer uv => layer !! loop_index = Some uv) (bpy.uv_layers mesh) (uvs v).

(** The loops of the polygons, in polygon order. *)
Definition all_loop_indices (mesh : bpy.Mesh) : list nat :=
  concat (map bpy.loop_indices (bpy.polygons mesh)).

(** The stored texture coordinate of a UV. *)
Definition flip_v (uv : bpy.UV) : dff.TexCoords := (uv.1, (1 - uv.2)%Q).

(** The [j]-th UV of every vertex, flipped. *)
Definition uv_column (vertices_list : list vert) (j : nat) : list dff.TexCoords :=
  omap (fun v => flip_v <$> uvs v !! j) vertices_list.

(** Every entry of a face names one of the first [n] corners. *)
Definition face_in_range (n : nat) (f : face) : Prop :=
  Forall (fun e => exists p, e = Some p /\ (p < n)%nat) (verts f).


(** The entry [entry] of a triangle names a stored vertex that has the
    position of the vertex of the loop [loop_index], a normal that the
    host's [==] takes for the normal of that loop and, in every UV layer
    of the geometry, the flipped form of a UV that the host's [==] takes
    for the UV that the layer of the mesh has at that loop. *)
Definition corner_stored (mesh : bpy.Mesh) (geometry : dff.Geometry)
    (loop_index : nat) (entry : option nat) : Prop :=
  exists i loop mv stored_normal,
    entry = Some i /\
    bpy.loops mesh !! loop_index = Some loop /\
    bpy.vertices mesh !! bpy.vertex_index loop = Some mv /\
    dff.vertices geometry !! i = Some (bpy.co mv) /\
    dff.normals geometry !! i = Some stored_normal /\
    Vector_host_eq stored_normal (bpy.normal loop) = true /\
    forall j layer,
      dff.uv_layers geometry !! j = Some layer ->
      exists mesh_layer uv stored_uv,
        bpy.uv_layers mesh !! j = Some mesh_layer /\
        mesh_layer !! loop_index = Some uv /\
        layer !! i = Some (flip_v stored_uv) /\
        UV_host_eq stored_uv uv = true.


(** An entry of the bone array of the first bone: the id and the type of
    the bone at position [jb.1], and that position. *)
Definition hanim_entry (jb : nat * bpy.Bone) (hb : dff.Bone) : Prop :=
  bpy.bone_id jb.2 = Some (dff.bone_id hb) /\
  bpy.bone_type jb.2 = Some (dff.bone_type hb) /\
  dff.bone_index hb = jb.1.

(** The frame written for the bone at position [i] of an armature: it is
    named after the bone and carries HAnim data headed by the id of the
    bone; the data of the first bone counts the bones and lists them, the
    data of the others is empty. *)
Definition bone_frame (obj : bpy.Object) (i : nat) (bone : bpy.Bone)
    (frame : dff.Frame) : Prop :=
  dff.name frame = clear_extension (bpy.name (bpy.bone_node bone)) /\
  exists id data,
    bpy.bone_id bone = Some id /\
    dff.bone_data frame = Some data /\
    dff.header data =
      {| dff.version := 256; dff.id := id;
         dff.bone_count :=
           match i with O => length (bpy.data_bones obj) | S _ => 0%nat end |} /\
    match i with
    | O => Forall2 hanim_entry (enumerate (bpy.data_bones obj)) (dff.bones data)
    | S _ => dff.bones data = []
    end.

(** [j] is the last position before [i] of a bone named [name]. *)
Definition last_named (bones : list bpy.Bone) (i : nat) (name : string) (j : nat)
  : Prop :=
  (j < i)%nat /\
  (exists b, bones !! j = Some b /\ bpy.name (bpy.bone_node b) = name) /\
  forall j' b',
    (j < j' < i)%nat -> bones !! j' = Some b' -> bpy.name (bpy.bone_node b') <> name.

(** The parent of the frame of the bone at position [i], where [base] is
    the number of frames listed before the armature: the first bone of an
    armature that has a parent hangs under the frame registered for that
    parent; any other bone is a root if it has no parent, and hangs under
    the frame of the last earlier bone that has the name of its parent. *)
Definition bone_frame_parent (obj : bpy.Object) (registered : gmap string nat)
    (base i : nat) (bone : bpy.Bone) (frame : dff.Frame) : Prop :=
  match i, bpy.parent (bpy.node obj) with
  | O, Some q => exists p, registered !! q = Some p /\ dff.parent frame = Z.of_nat p
  | _, _ =>
      match bpy.parent (bpy.bone_node bone) with
      | None => dff.parent frame = -1
      | Some pn =>
          forall j, last_named (bpy.data_bones obj) i pn j ->
                    dff.parent frame = Z.of_nat (base + j)
      end
  end.

(** The state in which the armature of a scene is exported: the empty
    that is its parent has been exported into clump 0. *)
Definition body_state : exporter :=
  match export_object 24 first_call_state (sample_object "EMPTY" "body" None 0) with
  | Ok self => self
  | Raise _ => first_call_state
  end.

(** [armature_object] with a second bone that lacks the [bone_id]
    property. *)
Definition unmarked_armature : bpy.Object :=
  {| bpy.node := bpy.node armature_object; bpy.type := bpy.type armature_object;
     bpy.clump := bpy.clump armature_object;
     bpy.data_bones :=
       [ sample_bone "root" None 0;
         {| bpy.bone_node := sample_node "arm" (Some "root");
            bpy.matrix_local_inverted := Some identity4;
            bpy.bone_id := None; bpy.bone_type := Some 0 |} ];
     bpy.mesh := bpy.mesh armature_object;
     bpy.modifiers := bpy.modifiers armature_object;
     bpy.vertex_groups := bpy.vertex_groups armature_object;
     bpy.day_cols := bpy.day_cols armature_object;
     bpy.night_cols := bpy.night_cols armature_object;
     bpy.uv_map1 := bpy.uv_map1 armature_object;
     bpy.uv_map2 := bpy.uv_map2 armature_object;
     bpy.bound_box := bpy.bound_box armature_object;
     bpy.matrix_world := bpy.matrix_world armature_object;
     bpy.dimensions := bpy.dimensions armature_object;
     bpy.materials := bpy.materials armature_object |}.


(** [j] is the last position before [i] of an object named [name]. *)
Definition last_object_named (objects : list bpy.Object) (i : nat) (name : string)
    (j : nat) : Prop :=
  (j < i)%nat /\
  (exists o, objects !! j = Some o /\ bpy.name (bpy.node o) = name) /\
  forall j' o',
    (j < j' < i)%nat -> objects !! j' = Some o' -> bpy.name (bpy.node o') <> name.

(** The frame written for the object at position [j] of a pass: it is
    named after the object and placed by its local matrix, it carries no
    bone data, and it is a root if the object has no parent and hangs
    under the frame of the last earlier object that has the name of the
    parent otherwise. *)
Definition object_frame (objects : list bpy.Object) (j : nat) (obj : bpy.Object)
    (frame : dff.Frame) : Prop :=
  dff.name frame = clear_extension (bpy.name (bpy.node obj)) /\
  dff.position frame = to_translation (bpy.matrix_local (bpy.node obj)) /\
  dff.rotation_matrix frame = transposed3 (to_3x3 (bpy.matrix_local (bpy.node obj))) /\
  dff.bone_data frame = None /\
  match bpy.parent (bpy.node obj) with
  | None => dff.parent frame = -1
  | Some pn =>
      exists p, dff.parent frame = Z.of_nat p /\ last_object_named objects j pn p
  end.

(** The positions of the mesh objects of a pass. *)
Definition mesh_positions (objects : list bpy.Object) : list Z :=
  omap (fun jo : nat * bpy.Object =>
          if decide (bpy.type jo.2 = "MESH") then Some (Z.of_nat jo.1) else None)
       (enumerate objects).

(** The state of a pass over meshes and empties of clump [k] after [n]
    objects: nothing is queued, no other clump exists, the registry names
    objects already visited, the clump has one frame per visited object and
    one geometry and one atomic per visited mesh. *)
Definition pass_state (k : Z) (objects : list bpy.Object) (n : nat) (self : exporter)
  : Prop :=
  parent_queue self = ∅ /\
  (forall k', k' <> k -> clumps self !! k' = None) /\
  ((0 < n)%nat -> is_Some (clumps self !! k)) /\
  (forall name p, frames self !! name = Some p -> last_object_named objects n name p) /\
  let cl := default dff.new_Clump (clumps self !! k) in
  length (dff.frame_list cl) = n /\
  (forall j obj,
     (j < n)%nat -> objects !! j = Some obj ->
     exists frame, dff.frame_list cl !! j = Some frame /\ object_frame objects j obj frame) /\
  dff.atomic_frame <$> dff.atomic_list cl = mesh_positions (take n objects) /\
  dff.atomic_geometry <$> dff.atomic_list cl =
    Z.of_nat <$> seq 0 (length (dff.atomic_list cl)) /\
  length (dff.geometry_list cl) = length (dff.atomic_list cl).

(** An empty, a mesh and an empty under the first one, all in clump 0. *)
Definition mesh_scene : list bpy.Object :=
  [ sample_object "EMPTY" "body" None 0;
    quad_object;
    sample_object "EMPTY" "handle" (Some "body") 0 ].


(** The key frame at position [i] of a UV animation: six values, of which
    the first and the fourth are never written, and a link to the position
    before. *)
Definition uv_frame_ok (i : nat) (f : dff.UVFrame) : Prop :=
  length (dff.uv f) = 6%nat /\
  dff.prev f = Z.of_nat i - 1 /\
  dff.uv f !! 0%nat = Some 0%Q /\
  dff.uv f !! 3%nat = Some 0%Q.

(** [quad_object] with three material slots, the second one empty. *)
Definition painted_object : bpy.Object :=
  {| bpy.node := bpy.node quad_object; bpy.type := bpy.type quad_object;
     bpy.clump := bpy.clump quad_object; bpy.data_bones := bpy.data_bones quad_object;
     bpy.mesh := bpy.mesh quad_object; bpy.modifiers := bpy.modifiers quad_object;
     bpy.vertex_groups := bpy.vertex_groups quad_object;
     bpy.day_cols := bpy.day_cols quad_object;
     bpy.night_cols := bpy.night_cols quad_object;
     bpy.uv_map1 := bpy.uv_map1 quad_object; bpy.uv_map2 := bpy.uv_map2 quad_object;
     bpy.bound_box := bpy.bound_box quad_object;
     bpy.matrix_world := bpy.matrix_world quad_object;
     bpy.dimensions := bpy.dimensions quad_object;
     bpy.materials := [Some two_curve_material; None; Some negative_keys_material] |}.



(** A loop of a mesh that the corner loop can read: the loop and its
    vertex exist, and every UV layer and colour layer has an entry for it. *)
Definition loop_ok (mesh : bpy.Mesh) (loop_index : nat) : Prop :=
  (exists loop,
     bpy.loops mesh !! loop_index = Some loop /\
     is_Some (bpy.vertices mesh !! bpy.vertex_index loop)) /\
  Forall (fun layer : list bpy.UV => (loop_index < length layer)%nat)
         (bpy.uv_layers mesh) /\
  Forall (fun layer : list bpy.Color => (loop_index < length layer)%nat)
         (bpy.vertex_colors mesh).

Definition well_formed (mesh : bpy.Mesh) : Prop :=
  Forall (fun polygon => Forall (loop_ok mesh) (bpy.loop_indices polygon))
         (bpy.polygons mesh).

(** The bones of the armature of the object, if it has one, have
    invertible matrices. *)
Definition bones_invertible (obj : bpy.Object) : Prop :=
  match find_armature (bpy.modifiers obj) with
  | Some armature_bones =>
      Forall (fun bone => is_Some (bpy.matrix_local_inverted bone)) armature_bones
  | None => True
  end.


(** Nothing is queued and no frame of any clump has a parent index below
    -1. *)
Definition parents_from_root (self : exporter) : Prop :=
  parent_queue self = ∅ /\
  forall (k : Z) (cl : dff.Clump) (f : dff.Frame),
    clumps self !! k = Some cl -> f ∈ dff.frame_list cl -> -1 <= dff.parent f.


(** Two corners of the same vertex, with the same normal, whose UVs are
    one float step apart: [1] and [1 + 2^-23]. *)
Definition near_corners : list vert :=
  [ quad_corner 0 0 1 0;
    {| idx := 0; tmp_idx := 1; co := (1, 0, 0)%Q; normal := (0, 0, 1)%Q;
       uvs := [((1 + (1 # 8388608))%Q, 0%Q)]; vert_cols := []; bones := [] |} ].

Definition near_faces : list face :=
  [ {| verts := [Some 0; Some 1; Some 1]%nat; mat_idx := 0 |} ].

(** A vertex with one colour and the given influences. *)
Definition weighted_vertex (infl : list (nat * Q)) : vert :=
  {| idx := 0; tmp_idx := 0; co := (0, 0, 0)%Q; normal := (0, 0, 1)%Q;
     uvs := []; vert_cols := [(1, 1, 1, 1)%Q]; bones := infl |}.

(** * Proofs *)

(** ** The outcome monad and the loops *)

Lemma bind_Ok {A B : Type} (m : result A) (k : A -> result B) (b : B) :
  (m ≫= k) = Ok b -> exists a, m = Ok a /\ k a = Ok b.
Proof.
  destruct m as [a | e]; simpl; intros Hk; [eauto | discriminate].
Qed.

Ltac inv_bind H :=
  let a := fresh "a" in
  let Ha := fresh "Ha" in
  apply bind_Ok in H; destruct H as (a & Ha & H).

Lemma index_Ok {A : Type} (l : list A) (i : nat) (a : A) :
  index l i = Ok a <-> l !! i = Some a.
Proof.
  unfold index. destruct (l !! i); split; intros Heq; congruence.
Qed.

Lemma getitem_Ok {K V : Type} `{Countable K} (d : gmap K V) (k : K) (v : V) :
  getitem d k = Ok v <-> d !! k = Some v.
Proof.
  unfold getitem. destruct (d !! k); split; intros Heq; congruence.
Qed.

Lemma setitem_Ok {A : Type} (l l' : list A) (i : nat) (x : A) :
  setitem l i x = Ok l' -> (i < length l)%nat /\ l' = <[i := x]> l.
Proof.
  unfold setitem. case_decide; intros Heq; [|discriminate].
  split; congruence.
Qed.

(** An invariant of the loop body holds after the loop. *)
Lemma for_each_invariant {A S : Type} (P : S -> Prop) (body : S -> A -> result S)
    (xs : list A) :
  (forall s x s', P s -> In x xs -> body s x = Ok s' -> P s') ->
  forall s s', P s -> for_each body xs s = Ok s' -> P s'.
Proof.
  induction xs as [|x xs IH]; intros Hbody s s' Hs Hrun; simpl in Hrun.
  - congruence.
  - inv_bind Hrun.
    apply IH with (s := a); [| |done].
    + intros s0 y s1 H0 Hy. apply Hbody; [done | by right].
    + apply (Hbody s x a); [done | by left | done].
Qed.

(** A reflexive, transitive relation that every round of the body keeps
    relates the state before the loop to the state after it. *)
Lemma for_each_related {A S : Type} (R : S -> S -> Prop) (body : S -> A -> result S)
    (xs : list A) :
  (forall s, R s s) ->
  (forall s1 s2 s3, R s1 s2 -> R s2 s3 -> R s1 s3) ->
  (forall s x s', In x xs -> body s x = Ok s' -> R s s') ->
  forall s s', for_each body xs s = Ok s' -> R s s'.
Proof.
  intros Hrefl Htrans Hbody s s' Hrun.
  apply (for_each_invariant (R s) body xs) with (s := s); [|apply Hrefl|done].
  intros s0 x s1 H0 Hx Hstep. eapply Htrans; [exact H0|]. by apply (Hbody s0 x).
Qed.

Lemma for_each_app {A S : Type} (body : S -> A -> result S) (xs ys : list A) (s : S) :
  for_each body (xs ++ ys) s = (for_each body xs s ≫= for_each body ys).
Proof.
  revert s. induction xs as [|x xs IH]; intros s; simpl; [done|].
  destruct (body s x) as [s1|e]; simpl; [apply IH | done].
Qed.

Lemma enumerate_from_length {A : Type} (k : nat) (xs : list A) :
  length (enumerate_from k xs) = length xs.
Proof.
  revert k. induction xs as [|x xs IH]; intros k; simpl; [done|]. by rewrite IH.
Qed.

Lemma enumerate_from_lookup {A : Type} (k i : nat) (xs : list A) (x : A) :
  xs !! i = Some x -> enumerate_from k xs !! i = Some ((k + i)%nat, x).
Proof.
  revert k i. induction xs as [|y xs IH]; intros k i Hx; [done|].
  destruct i as [|i]; simpl in *.
  - inversion Hx. by rewrite Nat.add_0_r.
  - rewrite (IH (S k) i Hx). f_equal. f_equal. lia.
Qed.

Lemma enumerate_from_In {A : Type} (k i : nat) (xs : list A) (x : A) :
  In (i, x) (enumerate_from k xs) -> (k <= i < k + length xs)%nat /\ In x xs.
Proof.
  revert k. induction xs as [|y xs IH]; intros k Hin; simpl in *; [done|].
  destruct Hin as [Heq | Hin].
  - inversion Heq; subst. split; [lia | by left].
  - apply IH in Hin as [Hr Hx]. split; [lia | by right].
Qed.

(** ** C5: the triangle emitted for a face *)

Lemma face_step_triangles (g : dff.Geometry) (f : face) (va vb vc : option nat) :
  verts f = [va; vb; vc] ->
  face_step g f =
    Ok (Geometry_set_triangles
          (dff.triangles g ++
           [ {| dff.b := vb; dff.a := va; dff.material := mat_idx f; dff.c := vc |} ]) g).
Proof.
  intros Hv. unfold face_step. by rewrite Hv.
Qed.

Lemma three_entries {A : Type} (l : list A) :
  length l = 3%nat -> exists x y z, l = [x; y; z].
Proof.
  destruct l as [|x [|y [|z [|w l]]]]; simpl; intros Hlen; try discriminate.
  by exists x, y, z.
Qed.

(** C5: a face with vertex entries (a, b, c) and material index m is
    emitted as the triangle record (b, a, m, c): the builder returns, adds
    one triangle per face in face order, and the triangle of the face at
    position [i] has its first two entries swapped. *)
Theorem triangle_is_b_a_material_c (faces_list : list face) (geometry : dff.Geometry) :
  Forall (fun f => length (verts f) = 3%nat) faces_list ->
  exists geometry',
    populate_geometry_from_faces_data faces_list geometry = Ok geometry' /\
    length (dff.triangles geometry') =
      (length (dff.triangles geometry) + length faces_list)%nat /\
    forall (i : nat) (f : face) (va vb vc : option nat),
      faces_list !! i = Some f ->
      verts f = [va; vb; vc] ->
      dff.triangles geometry' !! (length (dff.triangles geometry) + i)%nat =
        Some {| dff.b := vb; dff.a := va; dff.material := mat_idx f; dff.c := vc |}.
Proof.
  unfold populate_geometry_from_faces_data.
  revert geometry.
  induction faces_list as [|f faces IH]; intros geometry Hall.
  - exists geometry. simpl. split; [done|]. split; [lia|]. intros i f ? ? ? Hi. done.
  - inversion Hall as [|? ? Hf Hrest]; subst.
    destruct (three_entries _ Hf) as (x & y & z & Hxyz).
    simpl. rewrite (face_step_triangles geometry f x y z Hxyz). simpl.
    destruct (IH (Geometry_set_triangles
                    (dff.triangles geometry ++
                     [ {| dff.b := y; dff.a := x; dff.material := mat_idx f;
                          dff.c := z |} ]) geometry) Hrest)
      as (g' & Hrun & Hlen & Hnth).
    simpl in Hlen, Hnth. rewrite length_app in Hlen, Hnth. simpl in Hlen, Hnth.
    exists g'. split; [exact Hrun|]. split; [lia|].
    intros i f0 va vb vc Hi Hv.
    destruct i as [|i]; simpl in Hi.
    + inversion Hi; subst f0. rewrite Hxyz in Hv. inversion Hv; subst.
      clear Hnth Hlen.
      assert (Hkeep : forall (fs : list face) (g0 g1 : dff.Geometry) (t : dff.Triangle) (n : nat),
                 for_each face_step fs g0 = Ok g1 ->
                 dff.triangles g0 !! n = Some t -> dff.triangles g1 !! n = Some t).
      { clear. induction fs as [|f1 fs IHfs]; intros g0 g1 t n Hrun Ht; simpl in Hrun.
        - by inversion Hrun; subst.
        - inv_bind Hrun. apply (IHfs a g1 t n Hrun).
          unfold face_step in Ha. do 3 inv_bind Ha. inversion Ha; subst. simpl.
          by apply lookup_app_l_Some. }
      apply (Hkeep _ _ _ _ _ Hrun). simpl.
      rewrite Nat.add_0_r. rewrite lookup_app_r; [|lia].
      by rewrite Nat.sub_diag.
    + rewrite <- (Hnth i f0 va vb vc Hi Hv). f_equal. lia.
Qed.

Lemma triangle_is_b_a_material_c_witness :
  exists geometry',
    populate_geometry_from_faces_data quad_faces dff.new_Geometry = Ok geometry' /\
    length (dff.triangles geometry') =
      (length (dff.triangles dff.new_Geometry) + length quad_faces)%nat /\
    forall (i : nat) (f : face) (va vb vc : option nat),
      quad_faces !! i = Some f ->
      verts f = [va; vb; vc] ->
      dff.triangles geometry' !! (length (dff.triangles dff.new_Geometry) + i)%nat =
        Some {| dff.b := vb; dff.a := va; dff.material := mat_idx f; dff.c := vc |}.
Proof.
  apply (triangle_is_b_a_material_c quad_faces dff.new_Geometry).
  repeat constructor.
Defined.

(** ** C8: the number of UV layers *)

Lemma max_uv_layers_cases (obj : bpy.Object) :
  max_uv_layers obj =
    if bpy.uv_map1 obj then (if bpy.uv_map2 obj then 2%nat else 1%nat) else 0%nat.
Proof.
  unfold max_uv_layers. by destruct (bpy.uv_map1 obj), (bpy.uv_map2 obj).
Qed.

Lemma uv_loop_length (max_uv bound : nat) (iuvs : list (nat * bpy.UV))
    (uv_layers : list (list dff.TexCoords)) :
  (max_uv <= bound)%nat ->
  (length uv_layers <= bound)%nat ->
  (length (uv_loop max_uv iuvs uv_layers) <= bound)%nat.
Proof.
  intros Hmax. revert uv_layers.
  induction iuvs as [|[i [x y]] rest IH]; intros uv_layers Hlen; simpl; [done|].
  case_decide as Hi; [done|].
  apply IH. rewrite length_alter. unfold grow_uv_layers.
  rewrite length_app, length_replicate. lia.
Qed.

Lemma vertex_step_uv_layers (p n : bool) (max_uv bound : nat)
    (st st' : vertices_state) (v : vert) :
  (max_uv <= bound)%nat ->
  vertex_step p n max_uv st v = Ok st' ->
  (length (dff.uv_layers (vs_geometry st)) <= bound)%nat ->
  (length (dff.uv_layers (vs_geometry st')) <= bound)%nat.
Proof.
  intros Hmax Hstep Hlen. unfold vertex_step in Hstep.
  do 3 inv_bind Hstep. inversion Hstep; subst; simpl.
  by apply uv_loop_length.
Qed.

Lemma from_vertices_uv_layers (vertices_list : list vert) (skin_plg : option dff.SkinPLG)
    (obj : bpy.Object) (geometry geometry' : dff.Geometry) (bound : nat) :
  (max_uv_layers obj <= bound)%nat ->
  (length (dff.uv_layers geometry) <= bound)%nat ->
  populate_geometry_from_vertices_data vertices_list skin_plg obj geometry = Ok geometry' ->
  (length (dff.uv_layers geometry') <= bound)%nat.
Proof.
  intros Hmax Hlen Hrun. unfold populate_geometry_from_vertices_data in Hrun.
  inv_bind Hrun. inversion Hrun; subst; simpl.
  apply (for_each_invariant
           (fun st => (length (dff.uv_layers (vs_geometry st)) <= bound)%nat)
           _ _) with (s' := a) in Ha; [done| |done].
  intros s x s' Hs _ Hstep.
  exact (vertex_step_uv_layers _ _ _ _ _ _ _ Hmax Hstep Hs).
Qed.

Lemma from_faces_keeps (faces_list : list face) (g g' : dff.Geometry) :
  populate_geometry_from_faces_data faces_list g = Ok g' ->
  dff.vertices g' = dff.vertices g /\
  dff.uv_layers g' = dff.uv_layers g /\
  dff.ext_skin g' = dff.ext_skin g.
Proof.
  unfold populate_geometry_from_faces_data.
  apply (for_each_related
           (fun g0 g1 => dff.vertices g1 = dff.vertices g0 /\
                         dff.uv_layers g1 = dff.uv_layers g0 /\
                         dff.ext_skin g1 = dff.ext_skin g0)).
  - done.
  - intros s1 s2 s3 (? & ? & ?) (? & ? & ?). repeat split; congruence.
  - intros s f s' _ Hstep. unfold face_step in Hstep.
    do 3 inv_bind Hstep. by inversion Hstep; subst.
Qed.

(** What [populate_geometry_with_mesh_data] is made of, once it returns. *)
Lemma with_mesh_data_stages (obj : bpy.Object) (geometry geometry' : dff.Geometry) :
  populate_geometry_with_mesh_data obj geometry = Ok geometry' ->
  exists skin_plg bone_groups vertices_list faces_list g1,
    get_skin_plg_and_bone_groups obj = Ok (skin_plg, bone_groups) /\
    for_each (polygon_step (bpy.mesh obj) bone_groups)
             (enumerate (bpy.polygons (bpy.mesh obj))) ([], []) =
      Ok (vertices_list, faces_list) /\
    populate_geometry_from_vertices_data
      (fst (cleanup_duplicate_verts vertices_list faces_list)) skin_plg obj geometry =
      Ok g1 /\
    populate_geometry_from_faces_data
      (snd (cleanup_duplicate_verts vertices_list faces_list)) g1 = Ok geometry'.
Proof.
  unfold populate_geometry_with_mesh_data. intros Hrun.
  inv_bind Hrun. destruct a as [skin_plg bone_groups].
  inv_bind Hrun. destruct a as [vertices_list faces_list].
  destruct (cleanup_duplicate_verts vertices_list faces_list) as [vl fl] eqn:Hclean.
  inv_bind Hrun.
  exists skin_plg, bone_groups, vertices_list, faces_list, a.
  rewrite Hclean. simpl. done.
Qed.

(** C8: the geometry built for an object has at most [max_uv_layers]
    UV layers, and that maximum is 0 without [uv_map1], 1 with [uv_map1]
    alone and 2 with both flags. *)
Theorem uv_layer_count_bounded (obj : bpy.Object) (geometry : dff.Geometry) :
  populate_geometry_with_mesh_data obj dff.new_Geometry = Ok geometry ->
  (length (dff.uv_layers geometry) <= max_uv_layers obj)%nat /\
  max_uv_layers obj =
    (if bpy.uv_map1 obj then (if bpy.uv_map2 obj then 2%nat else 1%nat) else 0%nat) /\
  (max_uv_layers obj <= 2)%nat.
Proof.
  intros Hrun.
  destruct (with_mesh_data_stages _ _ _ Hrun)
    as (skin_plg & bone_groups & vl & fl & g1 & _ & _ & Hverts & Hfaces).
  apply from_faces_keeps in Hfaces as (_ & Huv & _).
  split; [|split].
  - rewrite Huv.
    apply (from_vertices_uv_layers _ _ _ _ _ _ (le_n _)) in Hverts; [done|].
    simpl. lia.
  - apply max_uv_layers_cases.
  - rewrite max_uv_layers_cases.
    destruct (bpy.uv_map1 obj), (bpy.uv_map2 obj); lia.
Qed.

Lemma uv_layer_count_bounded_witness :
  exists geometry,
    populate_geometry_with_mesh_data quad_object dff.new_Geometry = Ok geometry /\
    length (dff.uv_layers geometry) = 1%nat /\
    (length (dff.uv_layers geometry) <= max_uv_layers quad_object)%nat.
Proof.
  eexists. split; [vm_compute; reflexivity|].
  split; [reflexivity|].
  eapply (uv_layer_count_bounded quad_object). vm_compute. reflexivity.
Defined.

(** ** The frame builder *)

Lemma frames_kept_refl (self : exporter) : frames_kept self self.
Proof. intros k cl Hk. by exists cl. Qed.

Lemma frames_kept_trans (s1 s2 s3 : exporter) :
  frames_kept s1 s2 -> frames_kept s2 s3 -> frames_kept s1 s3.
Proof.
  intros H12 H23 k cl Hk.
  destruct (H12 k cl Hk) as (cl2 & Hk2 & Hp2).
  destruct (H23 k cl2 Hk2) as (cl3 & Hk3 & Hp3).
  exists cl3. split; [done|]. by etrans.
Qed.

Lemma frames_kept_same_clumps (s1 s2 : exporter) :
  clumps s2 = clumps s1 -> frames_kept s1 s2.
Proof. intros Heq k cl Hk. exists cl. by rewrite Heq. Qed.

(** Replacing one clump by one whose frame list extends the old one, or
    adding a clump under a fresh key. *)
Lemma frames_kept_insert (self : exporter) (k : Z) (cl' : dff.Clump) :
  (forall cl, clumps self !! k = Some cl ->
              dff.frame_list cl `prefix_of` dff.frame_list cl') ->
  frames_kept self (set_clumps (<[ k := cl' ]> (clumps self)) self).
Proof.
  intros Hext k0 cl0 Hk0. simpl.
  destruct (decide (k = k0)) as [->|Hne].
  - exists cl'. rewrite lookup_insert_eq. split; [done|]. by apply Hext.
  - exists cl0. by rewrite lookup_insert_ne.
Qed.

Lemma quiet_step_refl (self : exporter) : quiet_step self self.
Proof. intros Hq. split; [done | apply frames_kept_refl]. Qed.

Lemma quiet_step_trans (s1 s2 s3 : exporter) :
  quiet_step s1 s2 -> quiet_step s2 s3 -> quiet_step s1 s3.
Proof.
  intros H12 H23 Hq.
  destruct (H12 Hq) as [Hq2 Hk2]. destruct (H23 Hq2) as [Hq3 Hk3].
  split; [done|]. by eapply frames_kept_trans.
Qed.

Lemma get_current_clump_Ok (self : exporter) (k : Z) (cl : dff.Clump) :
  get_current_clump self = Ok (k, cl) <->
  current_clump self = Some k /\ clumps self !! k = Some cl.
Proof.
  unfold get_current_clump. destruct (current_clump self) as [k0|]; simpl.
  - unfold getitem. destruct (clumps self !! k0) as [cl0|] eqn:Hk0; simpl.
    + split; [intros [= <- <-]; done | intros [[= <-] Hcl]; congruence].
    + split; [done | intros [[= <-] Hcl]; congruence].
  - split; [done | intros [? ?]; done].
Qed.

(** With nothing queued, the scan at the head of [create_frame] does
    nothing. *)
Lemma scan_parent_queue_empty (name : string) (frame_index : nat) (self : exporter) :
  parent_queue self = ∅ -> scan_parent_queue name frame_index self = Ok self.
Proof.
  intros Hq. unfold scan_parent_queue. by rewrite Hq, lookup_empty.
Qed.

(** The scan writes to frame lists only: both registries, the queue and
    the current clump are as before. *)
Lemma scan_parent_queue_registries (name : string) (frame_index : nat)
    (self self' : exporter) :
  scan_parent_queue name frame_index self = Ok self' ->
  frames self' = frames self /\ bones_registry self' = bones_registry self /\
  parent_queue self' = parent_queue self /\ current_clump self' = current_clump self.
Proof.
  unfold scan_parent_queue. destruct (parent_queue self !! name) as [i|].
  - intros Hrun. inv_bind Hrun. destruct a as [k cl]. inv_bind Hrun.
    by inversion Hrun; subst.
  - by intros [= <-].
Qed.

Lemma append_frame_Ok (frame : dff.Frame) (self self' : exporter) :
  append_frame frame self = Ok self' ->
  exists k cl,
    current_clump self = Some k /\ clumps self !! k = Some cl /\
    self' = set_clumps
              (<[ k := Clump_set_frame_list (dff.frame_list cl ++ [frame]) cl ]>
                 (clumps self)) self.
Proof.
  unfold append_frame. intros Hrun. inv_bind Hrun. destruct a as [k cl].
  apply get_current_clump_Ok in Ha as [Hk Hcl].
  exists k, cl. by inversion Hrun.
Qed.

Lemma append_frame_quiet (frame : dff.Frame) (self self' : exporter) :
  append_frame frame self = Ok self' -> quiet_step self self'.
Proof.
  intros Hrun Hq. apply append_frame_Ok in Hrun as (k & cl & Hk & Hcl & ->).
  split; [done|]. apply frames_kept_insert.
  intros cl0 Hcl0. rewrite Hcl in Hcl0. inversion Hcl0; subst. simpl.
  by apply prefix_app_r.
Qed.

(** What [create_frame] returns and leaves behind when nothing is queued. *)
Lemma create_frame_Ok (self self' : exporter) (obj : bpy.Datablock)
    (append set_parent : bool) (frame : dff.Frame) :
  parent_queue self = ∅ ->
  create_frame self obj append set_parent = Ok (frame, self') ->
  exists k cl,
    current_clump self = Some k /\ clumps self !! k = Some cl /\
    (dff.parent frame = -1 /\ (bpy.parent (bpy.node_of obj) = None \/ set_parent = false) \/
     exists parent_name p,
       bpy.parent (bpy.node_of obj) = Some parent_name /\ set_parent = true /\
       id_array self obj !! parent_name = Some p /\
       dff.parent frame = Z.of_nat p) /\
    dff.bone_data frame = None /\
    let registered :=
      register (bpy.is_bone obj) (bpy.name (bpy.node_of obj)) (length (dff.frame_list cl)) self in
    self' =
      if append
      then set_clumps
             (<[ k := Clump_set_frame_list (dff.frame_list cl ++ [frame]) cl ]>
                (clumps self)) registered
      else registered.
Proof.
  intros Hq Hrun. unfold create_frame in Hrun.
  inv_bind Hrun. destruct a as [k cl].
  apply get_current_clump_Ok in Ha as [Hk Hcl].
  rewrite (scan_parent_queue_empty _ _ _ Hq) in Hrun. simpl in Hrun.
  inv_bind Hrun. rename a into parent. inv_bind Hrun. rename a into self3.
  inversion Hrun; subst frame self'; clear Hrun.
  exists k, cl. split; [done|]. split; [done|]. simpl.
  split; [|split; [done|]].
  - unfold id_array.
    destruct (bpy.parent (bpy.node_of obj)) as [pn|]; [|left; split; [congruence | by left]].
    destruct set_parent; [|left; split; [congruence | by right]].
    inv_bind Ha. apply getitem_Ok in Ha1.
    right. exists pn, a. by inversion Ha; subst.
  - destruct append; [|congruence].
    apply append_frame_Ok in Ha0 as (k' & cl' & Hk' & Hcl' & ->).
    simpl in Hk', Hcl'. rewrite Hk in Hk'. inversion Hk'; subst k'.
    rewrite Hcl in Hcl'. by inversion Hcl'; subst cl'.
Qed.

Lemma register_quiet (is_bone : bool) (name : string) (i : nat) (self : exporter) :
  quiet_step self (register is_bone name i self).
Proof. intros Hq. split; [done|]. by apply frames_kept_same_clumps. Qed.

Lemma create_frame_quiet (self self' : exporter) (obj : bpy.Datablock)
    (append set_parent : bool) (frame : dff.Frame) :
  create_frame self obj append set_parent = Ok (frame, self') -> quiet_step self self'.
Proof.
  intros Hrun Hq.
  destruct (create_frame_Ok _ _ _ _ _ _ Hq Hrun)
    as (k & cl & Hk & Hcl & _ & _ & ->).
  destruct append.
  - split; [done|]. intros k0 cl0 Hk0. simpl.
    destruct (decide (k = k0)) as [->|Hne].
    + rewrite lookup_insert_eq. eexists. split; [done|]. simpl.
      rewrite Hcl in Hk0. inversion Hk0; subst. by apply prefix_app_r.
    + rewrite lookup_insert_ne by done. by exists cl0.
  - by apply register_quiet.
Qed.

Lemma material_step_registries (fps : Z) (materials materials' : list dff.Material)
    (self self' : exporter) (b_material : option bpy.Material) :
  material_step fps (materials, self) b_material = Ok (materials', self') ->
  clumps self' = clumps self /\ frames self' = frames self /\
  bones_registry self' = bones_registry self /\
  parent_queue self' = parent_queue self /\
  current_clump self' = current_clump self.
Proof.
  unfold material_step. destruct b_material as [m|]; [|by intros [= <- <-]].
  intros Hrun. inv_bind Hrun. destruct a as [an|]; by inversion Hrun; subst.
Qed.

Lemma generate_material_list_registries (fps : Z) (self self' : exporter)
    (obj : bpy.Object) (materials : list dff.Material) :
  generate_material_list fps self obj = Ok (materials, self') ->
  clumps self' = clumps self /\ frames self' = frames self /\
  bones_registry self' = bones_registry self /\
  parent_queue self' = parent_queue self /\
  current_clump self' = current_clump self.
Proof.
  unfold generate_material_list. intros Hrun.
  apply (for_each_related
           (fun a b : list dff.Material * exporter =>
              clumps b.2 = clumps a.2 /\ frames b.2 = frames a.2 /\
              bones_registry b.2 = bones_registry a.2 /\
              parent_queue b.2 = parent_queue a.2 /\
              current_clump b.2 = current_clump a.2)) in Hrun; [done|done| |].
  - intros s1 s2 s3 (? & ? & ? & ? & ?) (? & ? & ? & ? & ?).
    repeat split; congruence.
  - intros [ms s] x [ms' s'] _ Hstep. by apply material_step_registries in Hstep.
Qed.

(** What [populate_atomic] does to the current clump: one frame, then one
    geometry and one atomic. *)
Lemma populate_atomic_Ok (fps : Z) (self self' : exporter) (obj : bpy.Object) :
  populate_atomic fps self obj = Ok self' ->
  exists geometry frame self1 materials self2 k cl,
    populate_geometry_with_mesh_data obj dff.new_Geometry = Ok geometry /\
    create_frame self (bpy.an_object (bpy.node obj)) true true = Ok (frame, self1) /\
    generate_material_list fps self1 obj = Ok (materials, self2) /\
    current_clump self2 = Some k /\ clumps self2 !! k = Some cl /\
    exists geometry' atomic,
      self' = set_clumps
                (<[ k := {| dff.frame_list := dff.frame_list cl;
                            dff.geometry_list := dff.geometry_list cl ++ [geometry'];
                            dff.atomic_list := dff.atomic_list cl ++ [atomic] |} ]>
                   (clumps self2)) self2 /\
      dff.vertices geometry' = dff.vertices geometry /\
      dff.uv_layers geometry' = dff.uv_layers geometry /\
      dff.triangles geometry' = dff.triangles geometry /\
      dff.ext_skin geometry' = dff.ext_skin geometry /\
      dff.bounding_sphere geometry' =
        Some {| dff.center := sphere_center obj; dff.radius := sphere_radius obj |}.
Proof.
  unfold populate_atomic. intros Hrun.
  inv_bind Hrun. rename a into geometry.
  inv_bind Hrun. destruct a as [frame self1].
  inv_bind Hrun. destruct a as [materials self2].
  inv_bind Hrun. destruct a as [k cl].
  apply get_current_clump_Ok in Ha2 as [Hk Hcl].
  exists geometry, frame, self1, materials, self2, k, cl.
  do 5 (split; [done|]).
  inversion Hrun; subst self'. eexists _, _. split; [reflexivity|]. done.
Qed.

Lemma populate_atomic_quiet (fps : Z) (self self' : exporter) (obj : bpy.Object) :
  populate_atomic fps self obj = Ok self' -> quiet_step self self'.
Proof.
  intros Hrun.
  destruct (populate_atomic_Ok _ _ _ _ Hrun)
    as (g & frame & self1 & ms & self2 & k & cl & _ & Hframe & Hmat & Hk & Hcl
        & g' & atomic & -> & _).
  eapply quiet_step_trans; [by eapply create_frame_quiet|].
  apply generate_material_list_registries in Hmat as (Hc & _ & _ & Hq & _).
  intros Hq1. split; [simpl; congruence|].
  eapply frames_kept_trans; [apply (frames_kept_same_clumps self1 self2 Hc)|].
  apply frames_kept_insert. intros cl0 Hcl0.
  rewrite Hcl in Hcl0. by inversion Hcl0; subst.
Qed.

Lemma armature_bone_step_quiet (obj : bpy.Object) (self self' : exporter)
    (ib : nat * bpy.Bone) :
  armature_bone_step obj self ib = Ok self' -> quiet_step self self'.
Proof.
  destruct ib as [i bone]. unfold armature_bone_step. intros Hrun.
  destruct i as [|i].
  - inv_bind Hrun. destruct a as [frame self1].
    do 3 inv_bind Hrun.
    eapply quiet_step_trans; [by eapply create_frame_quiet|].
    by eapply append_frame_quiet.
  - inv_bind Hrun. destruct a as [frame self1].
    inv_bind Hrun.
    eapply quiet_step_trans; [by eapply create_frame_quiet|].
    by eapply append_frame_quiet.
Qed.

Lemma export_armature_quiet (self self' : exporter) (obj : bpy.Object) :
  export_armature self obj = Ok self' -> quiet_step self self'.
Proof.
  unfold export_armature.
  apply (for_each_related quiet_step).
  - apply quiet_step_refl.
  - apply quiet_step_trans.
  - intros s ib s' _ Hstep. by eapply armature_bone_step_quiet.
Qed.


Lemma enter_clump_quiet (self : exporter) (k : Z) : quiet_step self (enter_clump self k).
Proof.
  intros Hq. unfold enter_clump.
  destruct (clumps self !! k) as [cl|] eqn:Hk.
  - split; [done|]. by apply frames_kept_same_clumps.
  - split; [done|]. intros k0 cl0 Hk0. exists cl0. split; [|done]. simpl.
    rewrite lookup_insert_ne; [done|]. intros ->. congruence.
Qed.

Lemma export_object_quiet (fps : Z) (self self' : exporter) (obj : bpy.Object) :
  export_object fps self obj = Ok self' -> quiet_step self self'.
Proof.
  unfold export_object. intros Hrun.
  eapply quiet_step_trans; [apply (enter_clump_quiet self (bpy.clump obj))|].
  repeat case_decide.
  - by eapply populate_atomic_quiet.
  - inv_bind Hrun. destruct a as [frame self3]. inversion Hrun; subst.
    by eapply create_frame_quiet.
  - by eapply export_armature_quiet.
  - inversion Hrun; subst. apply quiet_step_refl.
Qed.

Lemma export_objects_quiet (fps : Z) (self self' : exporter) (objects : list bpy.Object) :
  export_objects fps self objects = Ok self' -> quiet_step self self'.
Proof.
  unfold export_objects. intros Hrun.
  assert (Hnew : quiet_step self (new_dff self)).
  { intros Hq. split; [done|]. by apply frames_kept_same_clumps. }
  destruct objects as [|obj objects]; [by inversion Hrun; subst|].
  inv_bind Hrun. inversion Hrun; subst self'.
  eapply quiet_step_trans; [exact Hnew|].
  apply quiet_step_trans with (s2 := a).
  - apply (for_each_related quiet_step (export_object fps) (obj :: objects));
      [apply quiet_step_refl | apply quiet_step_trans | | exact Ha].
    intros s x s' _ Hstep. by eapply export_object_quiet.
  - intros Hq. split; [done|]. by apply frames_kept_same_clumps.
Qed.

(** What [export_armature] makes of the frame of the first bone: the frame
    that [create_frame] returned goes into the frame list with the bone
    data and, when the armature has a parent, with the index registered
    for that parent in place of the parent index it was created with. *)
Lemma first_bone_frame_stored (self self1 self' : exporter) (obj : bpy.Object)
    (bone : bpy.Bone) (frame : dff.Frame) :
  parent_queue self = ∅ ->
  create_frame self (bpy.a_bone (bpy.bone_node bone)) false true = Ok (frame, self1) ->
  armature_bone_step obj self (0%nat, bone) = Ok self' ->
  exists k cl bone_data stored,
    current_clump self = Some k /\
    clumps self !! k = Some cl /\
    clumps self' !! k =
      Some (Clump_set_frame_list
              (dff.frame_list cl ++ [Frame_set_bone_data bone_data stored]) cl) /\
    match bpy.parent (bpy.node obj) with
    | Some q => exists p, frames self !! q = Some p /\
                          stored = Frame_set_parent (Z.of_nat p) frame
    | None => stored = frame
    end.
Proof.
  intros Hq Hcreate Hrun. unfold armature_bone_step in Hrun.
  rewrite Hcreate in Hrun. simpl in Hrun.
  destruct (create_frame_Ok _ _ _ _ _ _ Hq Hcreate)
    as (k & cl & Hk & Hcl & _ & _ & Hself1).
  simpl in Hself1.
  inv_bind Hrun. rename a into frame1. inv_bind Hrun. rename a into root_id.
  inv_bind Hrun. rename a into all_bones.
  apply append_frame_Ok in Hrun as (k0 & cl0 & Hk0 & Hcl0 & ->).
  subst self1. simpl in Hk0, Hcl0. rewrite Hk in Hk0. inversion Hk0; subst k0.
  rewrite Hcl in Hcl0. inversion Hcl0; subst cl0.
  eexists k, cl, _, frame1. split; [done|]. split; [done|].
  split; [simpl; by rewrite lookup_insert_eq|].
  destruct (bpy.parent (bpy.node obj)) as [q|].
  - inv_bind Ha. apply getitem_Ok in Ha2. simpl in Ha2.
    inversion Ha; subst frame1. by exists a.
  - by inversion Ha.
Qed.

(** C10: the parent queue is empty throughout an export pass.  Started
    with the empty queue of the class, the scan at the head of
    [create_frame] returns the state as it got it, and [create_frame],
    each round of [export_armature], each round of [export_objects] and the
    whole pass leave the queue empty and leave every frame that was in a
    clump's frame list in place with the parent index it had.  A frame
    that is not yet in a frame list can still change: the frame that
    [create_frame] returned for the first bone of an armature is stored
    with the index registered for the parent of the armature as its
    parent, when the armature has one, whatever parent index it was
    created with. *)
Theorem parent_queue_stays_empty (fps : Z) (self : exporter) :
  parent_queue self = ∅ ->
  (forall (name : string) (frame_index : nat),
     scan_parent_queue name frame_index self = Ok self) /\
  (forall (obj : bpy.Datablock) (append set_parent : bool) (frame : dff.Frame)
          (self' : exporter),
     create_frame self obj append set_parent = Ok (frame, self') ->
     parent_queue self' = ∅ /\ frames_kept self self') /\
  (forall (obj : bpy.Object) (ib : nat * bpy.Bone) (self' : exporter),
     armature_bone_step obj self ib = Ok self' ->
     parent_queue self' = ∅ /\ frames_kept self self') /\
  (forall (obj : bpy.Object) (self' : exporter),
     export_object fps self obj = Ok self' ->
     parent_queue self' = ∅ /\ frames_kept self self') /\
  (forall (objects : list bpy.Object) (self' : exporter),
     export_objects fps self objects = Ok self' ->
     parent_queue self' = ∅ /\ frames_kept self self') /\
  (forall (obj : bpy.Object) (bone : bpy.Bone) (frame : dff.Frame)
          (self1 self' : exporter),
     create_frame self (bpy.a_bone (bpy.bone_node bone)) false true =
       Ok (frame, self1) ->
     armature_bone_step obj self (0%nat, bone) = Ok self' ->
     exists k cl bone_data stored,
       current_clump self = Some k /\
       clumps self !! k = Some cl /\
       clumps self' !! k =
         Some (Clump_set_frame_list
                 (dff.frame_list cl ++ [Frame_set_bone_data bone_data stored]) cl) /\
       match bpy.parent (bpy.node obj) with
       | Some q => exists p, frames self !! q = Some p /\
                             stored = Frame_set_parent (Z.of_nat p) frame
       | None => stored = frame
       end).
Proof.
  intros Hq. split; [|split; [|split; [|split; [|split]]]].
  - intros name frame_index. by apply scan_parent_queue_empty.
  - intros obj append set_parent frame self' Hrun.
    by apply (create_frame_quiet _ _ _ _ _ _ Hrun).
  - intros obj ib self' Hrun. by apply (armature_bone_step_quiet _ _ _ _ Hrun).
  - intros obj self' Hrun. by apply (export_object_quiet _ _ _ _ Hrun).
  - intros objects self' Hrun. by apply (export_objects_quiet _ _ _ _ Hrun).
  - intros obj bone frame self1 self' Hcreate Hrun.
    by apply (first_bone_frame_stored self self1 self' obj bone frame).
Qed.

Lemma parent_queue_stays_empty_witness :
  parent_queue body_state = ∅ /\
  exists (self' : exporter) (cl cl' : dff.Clump),
    export_objects 24 body_state [armature_object] = Ok self' /\
    parent_queue self' = ∅ /\
    clumps body_state !! 0 = Some cl /\
    clumps self' !! 0 = Some cl' /\
    length (dff.frame_list cl) = 1%nat /\
    length (dff.frame_list cl') = 4%nat /\
    dff.frame_list cl `prefix_of` dff.frame_list cl'.
Proof.
  split; [reflexivity|].
  destruct (export_objects 24 body_state [armature_object]) as [self'|e] eqn:Hrun;
    [|vm_compute in Hrun; discriminate Hrun].
  destruct (clumps body_state !! 0) as [cl|] eqn:Hcl;
    [|vm_compute in Hcl; discriminate Hcl].
  destruct (parent_queue_stays_empty 24 body_state eq_refl)
    as (_ & _ & _ & _ & Hpass & _).
  destruct (Hpass [armature_object] self' Hrun) as [Hq Hkept].
  destruct (Hkept 0 cl Hcl) as (cl' & Hcl' & Hprefix).
  exists self', cl, cl'.
  split; [reflexivity|]. split; [exact Hq|]. split; [reflexivity|].
  split; [exact Hcl'|].
  split; [vm_compute in Hcl; by inversion Hcl|].
  split; [|exact Hprefix].
  vm_compute in Hrun. inversion Hrun; subst self'.
  vm_compute in Hcl'. by inversion Hcl'.
Defined.

(** C10 as stated fails in its last clause.  For the root bone of
    [armature_object], an armature whose parent [body] has frame 0,
    [create_frame] returns a frame with parent index [-1]; the round of
    [export_armature] that called it stores that frame, behind the frame
    of [body], with parent index [0]. *)
Lemma first_bone_parent_is_overwritten :
  exists (frame stored body : dff.Frame) (self1 self' : exporter) (cl' : dff.Clump),
    parent_queue body_state = ∅ /\
    create_frame body_state (bpy.a_bone (bpy.bone_node (sample_bone "root" None 0)))
                 false true = Ok (frame, self1) /\
    dff.parent frame = -1 /\
    armature_bone_step armature_object body_state
                       (0%nat, sample_bone "root" None 0) = Ok self' /\
    clumps self' !! 0 = Some cl' /\
    dff.frame_list cl' = [body; stored] /\
    dff.name stored = dff.name frame /\
    dff.parent stored = 0 /\
    dff.parent stored <> dff.parent frame.
Proof.
  destruct (create_frame body_state
              (bpy.a_bone (bpy.bone_node (sample_bone "root" None 0))) false true)
    as [[frame self1]|e] eqn:Hcreate; [|vm_compute in Hcreate; discriminate Hcreate].
  destruct (armature_bone_step armature_object body_state
              (0%nat, sample_bone "root" None 0))
    as [self'|e] eqn:Hrun; [|vm_compute in Hrun; discriminate Hrun].
  destruct (clumps self' !! 0) as [cl'|] eqn:Hcl'.
  2:{ vm_compute in Hrun. inversion Hrun; subst self'. vm_compute in Hcl'.
      discriminate Hcl'. }
  vm_compute in Hcreate. inversion Hcreate; subst frame self1.
  vm_compute in Hrun. inversion Hrun; subst self'.
  vm_compute in Hcl'. inversion Hcl'; subst cl'.
  eexists _, _, _, _, _, _.
  split; [reflexivity|]. split; [reflexivity|]. split; [reflexivity|].
  split; [reflexivity|]. split; [reflexivity|]. split; [reflexivity|].
  split; [reflexivity|]. split; [reflexivity|]. discriminate.
Qed.

(** ** C2: a parent that is in no registry *)

Lemma create_frame_set_parent (self : exporter) (obj : bpy.Datablock) (append : bool)
    (parent_name : string) (r : result (dff.Frame * exporter)) :
  bpy.parent (bpy.node_of obj) = Some parent_name ->
  id_array self obj !! parent_name = None ->
  create_frame self obj append true = r ->
  exists e, r = Raise e /\
    (parent_queue self = ∅ ->
     (exists k cl, current_clump self = Some k /\ clumps self !! k = Some cl) ->
     e = KeyError).
Proof.
  intros Hparent Hreg <-. unfold create_frame.
  destruct (get_current_clump self) as [[k cl]|e] eqn:Hcur; simpl.
  - destruct (scan_parent_queue (bpy.name (bpy.node_of obj)) (length (dff.frame_list cl)) self)
      as [self1|e] eqn:Hscan; simpl.
    + apply scan_parent_queue_registries in Hscan as (Hf & Hb & _ & _).
      rewrite Hparent. unfold id_array in Hreg. rewrite Hf, Hb.
      unfold getitem. rewrite Hreg. simpl. by exists KeyError.
    + exists e. split; [done|]. intros Hq _.
      rewrite (scan_parent_queue_empty _ _ _ Hq) in Hscan. done.
  - exists e. split; [done|]. intros _ (k & cl & Hk & Hcl).
    assert (Hget : get_current_clump self = Ok (k, cl))
      by (by apply get_current_clump_Ok).
    congruence.
Qed.

(** C2, as the code has it: with [set_parent] true, as at every call, a
    node whose parent is in neither registry makes [create_frame] raise;
    it returns no frame, and where the frame could be built at all the
    exception is [KeyError].  The node gets a frame, with parent index
    -1, only when [set_parent] is false. *)
Theorem create_frame_unregistered_parent (self : exporter) (obj : bpy.Datablock)
    (append : bool) (parent_name : string) :
  bpy.parent (bpy.node_of obj) = Some parent_name ->
  id_array self obj !! parent_name = None ->
  (forall (frame : dff.Frame) (self' : exporter),
     create_frame self obj append true <> Ok (frame, self')) /\
  (parent_queue self = ∅ ->
   (exists k cl, current_clump self = Some k /\ clumps self !! k = Some cl) ->
   create_frame self obj append true = Raise KeyError) /\
  (forall (set_parent : bool) (frame : dff.Frame) (self' : exporter),
     create_frame self obj append set_parent = Ok (frame, self') ->
     set_parent = false /\ dff.parent frame = -1).
Proof.
  intros Hparent Hreg.
  destruct (create_frame_set_parent self obj append parent_name _ Hparent Hreg eq_refl)
    as (e & He & Hkey).
  split; [|split].
  - intros frame self'. rewrite He. discriminate.
  - intros Hq Hcur. rewrite He. f_equal. by apply Hkey.
  - intros set_parent frame self' Hrun.
    destruct set_parent; [rewrite He in Hrun; discriminate|].
    split; [done|].
    unfold create_frame in Hrun.
    inv_bind Hrun. destruct a as [k cl]. inv_bind Hrun.
    rewrite Hparent in Hrun. simpl in Hrun.
    inv_bind Hrun. by inversion Hrun; subst.
Qed.

Lemma create_frame_unregistered_parent_witness :
  bpy.parent (bpy.node_of orphan) = Some "door" /\
  id_array first_call_state orphan !! "door" = None /\
  create_frame first_call_state orphan true true = Raise KeyError.
Proof.
  split; [reflexivity|]. split; [reflexivity|].
  apply (create_frame_unregistered_parent first_call_state orphan true "door").
  - reflexivity.
  - reflexivity.
  - reflexivity.
  - exists 0, dff.new_Clump. split; reflexivity.
Defined.

(** C2 as stated fails: the first object of a pass, a child of an object
    that is not exported, has its parent in no registry; [create_frame]
    raises [KeyError] and returns no frame. *)
Lemma orphan_frame_raises :
  id_array first_call_state orphan !! "door" = None /\
  create_frame first_call_state orphan true true = Raise KeyError /\
  ~ (exists (frame : dff.Frame) (self' : exporter),
       create_frame first_call_state orphan true true = Ok (frame, self') /\
       dff.parent frame = -1).
Proof.
  split; [reflexivity|]. split; [reflexivity|].
  intros (frame & self' & Hrun & _). discriminate Hrun.
Qed.

(** ** C1: parent indices after a pass *)

(** C1 fails on a scene with two clumps.  The registries are shared by
    all clumps of a pass while a frame index counts within one clump: the
    child "handle", alone in clump 1 at position 0, is given the index 1
    that its parent "door" has in the frame list of clump 0. *)
Theorem cross_clump_parent_is_forward :
  exists (self' : exporter) (cl : dff.Clump) (f : dff.Frame),
    export_objects 24 initial two_clump_scene = Ok self' /\
    clumps self' !! 1 = Some cl /\
    dff.frame_list cl = [f] /\
    dff.parent f = 1 /\
    ~ parents_backward (dff.frame_list cl).
Proof.
  destruct (export_objects 24 initial two_clump_scene) as [self'|e] eqn:Hrun;
    [|vm_compute in Hrun; discriminate Hrun].
  destruct (clumps self' !! 1) as [cl|] eqn:Hcl;
    [|vm_compute in Hrun; inversion Hrun; subst self'; vm_compute in Hcl;
      discriminate Hcl].
  vm_compute in Hrun. inversion Hrun; subst self'; clear Hrun.
  vm_compute in Hcl. inversion Hcl; subst cl; clear Hcl.
  eexists _, _, _. split; [reflexivity|]. split; [reflexivity|].
  split; [reflexivity|]. split; [reflexivity|].
  intros Hback. destruct (Hback 0%nat _ eq_refl) as [H|H]; simpl in H; lia.
Qed.

(** The same defect across passes: a second export of the child alone,
    after an export of the whole scene, finds the index that its parent
    had in the first export. *)
Lemma stale_registry_parent_is_forward :
  exists (first second : exporter) (cl : dff.Clump) (f : dff.Frame),
    export_dff 24 initial one_clump_scene = Ok first /\
    export_dff 24 first [sample_object "EMPTY" "handle" (Some "door") 0] = Ok second /\
    clumps second !! 0 = Some cl /\
    dff.frame_list cl = [f] /\
    dff.parent f = 1.
Proof.
  destruct (export_dff 24 initial one_clump_scene) as [first|e] eqn:Hfirst;
    [|vm_compute in Hfirst; discriminate Hfirst].
  vm_compute in Hfirst. inversion Hfirst; subst first; clear Hfirst.
  eexists _, _, _, _. split; [reflexivity|].
  split; [vm_compute; reflexivity|].
  split; [vm_compute; reflexivity|]. split; reflexivity.
Qed.

(** Within one clump the registries only hold positions of frames already
    listed, so every parent index points backwards. *)

Lemma parents_backward_snoc (frame_list : list dff.Frame) (f : dff.Frame) :
  parents_backward frame_list ->
  dff.parent f = -1 \/ dff.parent f < Z.of_nat (length frame_list) ->
  parents_backward (frame_list ++ [f]).
Proof.
  intros Hback Hf i g Hi.
  destruct (decide (i < length frame_list)%nat) as [Hlt|Hge].
  - rewrite lookup_app_l in Hi by done. by apply Hback.
  - rewrite lookup_app_r in Hi by lia.
    destruct (i - length frame_list)%nat as [|j] eqn:Hj; simpl in Hi; [|done].
    inversion Hi; subst g. destruct Hf as [Hf|Hf]; [by left | right; lia].
Qed.

Lemma frame_count_Some (self : exporter) (k : Z) (cl : dff.Clump) :
  clumps self !! k = Some cl -> frame_count self k = length (dff.frame_list cl).
Proof. intros Hcl. unfold frame_count. by rewrite Hcl. Qed.

(** Appending to clump [k] a frame that points backwards, in a state whose
    registries hold positions up to and including the new one. *)
Lemma single_clump_append (k : Z) (self : exporter) (cl : dff.Clump) (f : dff.Frame) :
  parent_queue self = ∅ ->
  (forall (k' : Z) (cl' : dff.Clump),
     clumps self !! k' = Some cl' -> k' = k /\ parents_backward (dff.frame_list cl')) ->
  clumps self !! k = Some cl ->
  (forall (name : string) (i : nat),
     frames self !! name = Some i -> (i <= length (dff.frame_list cl))%nat) ->
  (forall (name : string) (i : nat),
     bones_registry self !! name = Some i -> (i <= length (dff.frame_list cl))%nat) ->
  dff.parent f = -1 \/ dff.parent f < Z.of_nat (length (dff.frame_list cl)) ->
  single_clump_ok k
    (set_clumps (<[ k := Clump_set_frame_list (dff.frame_list cl ++ [f]) cl ]>
                   (clumps self)) self).
Proof.
  intros Hq Hclumps Hcl Hframes Hbones Hf.
  assert (Hcount : frame_count
            (set_clumps (<[ k := Clump_set_frame_list (dff.frame_list cl ++ [f]) cl ]>
                           (clumps self)) self) k = S (length (dff.frame_list cl))).
  { unfold frame_count. simpl. rewrite lookup_insert_eq. simpl.
    rewrite length_app. simpl. lia. }
  split; [done|]. split; [|split].
  - intros k' cl' Hk'. simpl in Hk'.
    destruct (decide (k = k')) as [<-|Hne].
    + rewrite lookup_insert_eq in Hk'. inversion Hk'; subst cl'. split; [done|].
      simpl. apply parents_backward_snoc; [|done]. by apply (Hclumps k cl).
    + rewrite lookup_insert_ne in Hk' by done. by apply Hclumps.
  - intros name i Hi. rewrite Hcount. simpl in Hi. apply Hframes in Hi. lia.
  - intros name i Hi. rewrite Hcount. simpl in Hi. apply Hbones in Hi. lia.
Qed.

Lemma lookup_register (is_bone b : bool) (name name' : string) (n i : nat)
    (self : exporter) :
  (if b then bones_registry (register is_bone name n self)
   else frames (register is_bone name n self)) !! name' = Some i ->
  i = n \/ (if b then bones_registry self else frames self) !! name' = Some i.
Proof.
  destruct is_bone, b; simpl; intros Hi; try by right.
  - destruct (decide (name = name')) as [<-|Hne].
    + rewrite lookup_insert_eq in Hi. left. congruence.
    + rewrite lookup_insert_ne in Hi by done. by right.
  - destruct (decide (name = name')) as [<-|Hne].
    + rewrite lookup_insert_eq in Hi. left. congruence.
    + rewrite lookup_insert_ne in Hi by done. by right.
Qed.

(** The frame returned by [create_frame] points backwards, and the state
    it leaves has the node registered at the position the frame will
    take. *)
Lemma create_frame_single_clump (k : Z) (self self' : exporter) (obj : bpy.Datablock)
    (set_parent : bool) (frame : dff.Frame) :
  single_clump_ok k self ->
  current_clump self = Some k ->
  create_frame self obj false set_parent = Ok (frame, self') ->
  exists cl,
    clumps self !! k = Some cl /\
    self' = register (bpy.is_bone obj) (bpy.name (bpy.node_of obj)) (length (dff.frame_list cl)) self /\
    (dff.parent frame = -1 \/ dff.parent frame < Z.of_nat (length (dff.frame_list cl))).
Proof.
  intros (Hq & Hclumps & Hframes & Hbones) Hcur Hrun.
  destruct (create_frame_Ok _ _ _ _ _ _ Hq Hrun)
    as (k0 & cl & Hk0 & Hcl & Hparent & _ & Hself').
  rewrite Hcur in Hk0. inversion Hk0; subst k0.
  exists cl. split; [done|]. split; [done|].
  destruct Hparent as [[Hroot _]|(pn & p & _ & _ & Hreg & Hp)]; [by left|].
  right. rewrite Hp. rewrite <- (frame_count_Some self k cl Hcl).
  unfold id_array in Hreg.
  destruct (bpy.is_bone obj); [apply Hbones in Hreg | apply Hframes in Hreg]; lia.
Qed.

Lemma append_registered_single_clump (k : Z) (self : exporter) (cl : dff.Clump)
    (is_bone : bool) (name : string) (f : dff.Frame) :
  single_clump_ok k self ->
  clumps self !! k = Some cl ->
  dff.parent f = -1 \/ dff.parent f < Z.of_nat (length (dff.frame_list cl)) ->
  single_clump_ok k
    (set_clumps
       (<[ k := Clump_set_frame_list (dff.frame_list cl ++ [f]) cl ]>
          (clumps (register is_bone name (length (dff.frame_list cl)) self)))
       (register is_bone name (length (dff.frame_list cl)) self)).
Proof.
  intros (Hq & Hclumps & Hframes & Hbones) Hcl Hf.
  apply single_clump_append; try done.
  - intros name' i Hi.
    destruct (lookup_register is_bone false name name' _ i self Hi) as [->|Hold];
      [done|].
    apply Hframes in Hold. rewrite (frame_count_Some self k cl Hcl) in Hold. lia.
  - intros name' i Hi.
    destruct (lookup_register is_bone true name name' _ i self Hi) as [->|Hold];
      [done|].
    apply Hbones in Hold. rewrite (frame_count_Some self k cl Hcl) in Hold. lia.
Qed.

Lemma create_frame_appended_single_clump (k : Z) (self self' : exporter)
    (obj : bpy.Datablock) (set_parent : bool) (frame : dff.Frame) :
  single_clump_ok k self /\ current_clump self = Some k ->
  create_frame self obj true set_parent = Ok (frame, self') ->
  single_clump_ok k self' /\ current_clump self' = Some k.
Proof.
  intros [Hok Hcur] Hrun.
  pose proof Hok as (Hq & Hclumps & Hframes & Hbones).
  destruct (create_frame_Ok _ _ _ _ _ _ Hq Hrun)
    as (k0 & cl & Hk0 & Hcl & Hparent & _ & ->).
  rewrite Hcur in Hk0. inversion Hk0; subst k0.
  split; [|done].
  apply append_registered_single_clump; [done|done|].
  destruct Hparent as [[Hroot _]|(pn & p & _ & _ & Hreg & Hp)]; [by left|].
  right. rewrite Hp. rewrite <- (frame_count_Some self k cl Hcl).
  unfold id_array in Hreg.
  destruct (bpy.is_bone obj); [apply Hbones in Hreg | apply Hframes in Hreg]; lia.
Qed.

Lemma append_after_create_single_clump (k : Z) (self self' : exporter)
    (cl : dff.Clump) (is_bone : bool) (name : string) (f : dff.Frame) :
  single_clump_ok k self /\ current_clump self = Some k ->
  clumps self !! k = Some cl ->
  dff.parent f = -1 \/ dff.parent f < Z.of_nat (length (dff.frame_list cl)) ->
  append_frame f (register is_bone name (length (dff.frame_list cl)) self) = Ok self' ->
  single_clump_ok k self' /\ current_clump self' = Some k.
Proof.
  intros [Hok Hcur] Hcl Hf Hrun.
  apply append_frame_Ok in Hrun as (k0 & cl0 & Hk0 & Hcl0 & ->).
  simpl in Hk0, Hcl0. rewrite Hcur in Hk0. inversion Hk0; subst k0.
  rewrite Hcl in Hcl0. inversion Hcl0; subst cl0.
  split; [|done]. by apply append_registered_single_clump.
Qed.

Lemma armature_bone_step_single_clump (k : Z) (obj : bpy.Object)
    (self self' : exporter) (ib : nat * bpy.Bone) :
  single_clump_ok k self /\ current_clump self = Some k ->
  armature_bone_step obj self ib = Ok self' ->
  single_clump_ok k self' /\ current_clump self' = Some k.
Proof.
  intros [Hok Hcur] Hrun. destruct ib as [i bone].
  pose proof Hok as (Hq & Hclumps & Hframes & Hbones).
  unfold armature_bone_step in Hrun. destruct i as [|i].
  - inv_bind Hrun. destruct a as [frame self1].
    destruct (create_frame_single_clump _ _ _ _ _ _ Hok Hcur Ha)
      as (cl & Hcl & -> & Hparent).
    inv_bind Hrun. rename a into frame1. do 2 inv_bind Hrun.
    eapply append_after_create_single_clump; [done|exact Hcl| |exact Hrun].
    simpl. destruct (bpy.parent (bpy.node obj)) as [pn|].
    + inv_bind Ha0. inversion Ha0; subst frame1. simpl. right.
      apply getitem_Ok in Ha3.
      simpl in Ha3. rename Ha3 into Hold.
      apply Hframes in Hold. rewrite (frame_count_Some self k cl Hcl) in Hold. lia.
    + by inversion Ha0; subst frame1.
  - inv_bind Hrun. destruct a as [frame self1].
    destruct (create_frame_single_clump _ _ _ _ _ _ Hok Hcur Ha)
      as (cl & Hcl & -> & Hparent).
    inv_bind Hrun.
    eapply append_after_create_single_clump; [done|exact Hcl| |exact Hrun].
    done.
Qed.

Lemma export_armature_single_clump (k : Z) (obj : bpy.Object) (self self' : exporter) :
  single_clump_ok k self /\ current_clump self = Some k ->
  export_armature self obj = Ok self' ->
  single_clump_ok k self' /\ current_clump self' = Some k.
Proof.
  intros Hok Hrun. unfold export_armature in Hrun.
  apply (for_each_invariant
           (fun s => single_clump_ok k s /\ current_clump s = Some k)
           (armature_bone_step obj) (enumerate (bpy.data_bones obj)))
    with (s := self); [|done|done].
  intros s ib s' Hs _ Hstep. by eapply armature_bone_step_single_clump.
Qed.

Lemma populate_atomic_single_clump (fps : Z) (k : Z) (obj : bpy.Object)
    (self self' : exporter) :
  single_clump_ok k self /\ current_clump self = Some k ->
  populate_atomic fps self obj = Ok self' ->
  single_clump_ok k self' /\ current_clump self' = Some k.
Proof.
  intros Hok Hrun.
  destruct (populate_atomic_Ok _ _ _ _ Hrun)
    as (g & frame & self1 & ms & self2 & k2 & cl & _ & Hframe & Hmat & Hk2 & Hcl
        & g' & atomic & -> & _).
  destruct (create_frame_appended_single_clump _ _ _ _ _ _ Hok Hframe)
    as [(Hq & Hclumps & Hframes & Hbones) Hcur1].
  apply generate_material_list_registries in Hmat as (Hc & Hf & Hb & Hpq & Hcc).
  rewrite Hcc, Hcur1 in Hk2. inversion Hk2; subst k2.
  assert (Hcount : forall s,
            frame_count
              (set_clumps
                 (<[ k := {| dff.frame_list := dff.frame_list cl;
                             dff.geometry_list := dff.geometry_list cl ++ [g'];
                             dff.atomic_list := dff.atomic_list cl ++ [atomic] |} ]>
                    (clumps self2)) s) k = frame_count self1 k).
  { intros s. unfold frame_count. simpl. rewrite lookup_insert_eq. simpl.
    rewrite <- Hc. by rewrite Hcl. }
  split; [|simpl; congruence].
  split; [simpl; congruence|]. split; [|split].
  - intros k' cl' Hk'. simpl in Hk'.
    destruct (decide (k = k')) as [<-|Hne].
    + rewrite lookup_insert_eq in Hk'. inversion Hk'; subst cl'. simpl.
      rewrite Hc in Hcl. by apply (Hclumps k cl).
    + rewrite lookup_insert_ne in Hk' by done. rewrite Hc in Hk'. by apply Hclumps.
  - intros name i Hi. rewrite Hcount. simpl in Hi. rewrite Hf in Hi. by eapply Hframes.
  - intros name i Hi. rewrite Hcount. simpl in Hi. rewrite Hb in Hi. by eapply Hbones.
Qed.

Lemma enter_clump_single_clump (k : Z) (self : exporter) :
  single_clump_ok k self ->
  single_clump_ok k (enter_clump self k) /\ current_clump (enter_clump self k) = Some k.
Proof.
  intros (Hq & Hclumps & Hframes & Hbones). split; [|done].
  unfold enter_clump. destruct (clumps self !! k) as [cl|] eqn:Hk.
  - split; [done|]. split; [done|].
    unfold frame_count in *. simpl. by rewrite Hk in *.
  - assert (Hcount : frame_count self k = 0%nat) by (unfold frame_count; by rewrite Hk).
    split; [done|]. split; [|split].
    + intros k' cl' Hk'. simpl in Hk'.
      destruct (decide (k = k')) as [<-|Hne].
      * rewrite lookup_insert_eq in Hk'. inversion Hk'; subst cl'.
        split; [done|]. intros i f Hi. done.
      * rewrite lookup_insert_ne in Hk' by done. by apply Hclumps.
    + intros name i Hi. simpl in Hi. apply Hframes in Hi. lia.
    + intros name i Hi. simpl in Hi. apply Hbones in Hi. lia.
Qed.

Lemma export_object_single_clump (fps : Z) (k : Z) (obj : bpy.Object)
    (self self' : exporter) :
  bpy.clump obj = k ->
  single_clump_ok k self ->
  export_object fps self obj = Ok self' ->
  single_clump_ok k self'.
Proof.
  intros <- Hok Hrun. unfold export_object in Hrun.
  apply enter_clump_single_clump in Hok.
  repeat case_decide.
  - by apply (populate_atomic_single_clump _ _ _ _ _ Hok Hrun).
  - inv_bind Hrun. destruct a as [frame self3]. inversion Hrun; subst.
    by apply (create_frame_appended_single_clump _ _ _ _ _ _ Hok Ha).
  - by apply (export_armature_single_clump _ _ _ _ Hok Hrun).
  - inversion Hrun; subst. by destruct Hok.
Qed.

Lemma initial_single_clump (k : Z) : single_clump_ok k initial.
Proof. repeat split; intros; simpl in *; by rewrite lookup_empty in *. Qed.

(** A pass whose objects all carry the same clump index, started with the
    registries and the clump map as one clump's build left them, ends with
    every parent index pointing backwards. *)
Lemma single_clump_parents_backward (fps : Z) (k : Z) (objects : list bpy.Object)
    (self self' : exporter) :
  single_clump_ok k self ->
  Forall (fun obj => bpy.clump obj = k) objects ->
  export_objects fps self objects = Ok self' ->
  forall (k' : Z) (cl : dff.Clump),
    clumps self' !! k' = Some cl -> parents_backward (dff.frame_list cl).
Proof.
  intros Hok Hall Hrun.
  assert (Hend : single_clump_ok k self').
  { unfold export_objects in Hrun.
    assert (Hnew : single_clump_ok k (new_dff self)) by exact Hok.
    destruct objects as [|obj objects]; [by inversion Hrun; subst|].
    inv_bind Hrun. inversion Hrun; subst self'.
    apply (for_each_invariant (single_clump_ok k) (export_object fps) (obj :: objects))
      with (s' := a) in Hnew; [exact Hnew | | exact Ha].
    intros s x s' Hs Hx Hstep.
    apply (export_object_single_clump fps k x s s'); [|done|done].
    rewrite Forall_forall in Hall. by apply Hall, list_elem_of_In. }
  intros k' cl Hcl. destruct Hend as (_ & Hclumps & _). by apply (Hclumps k' cl).
Qed.

(** ** C7: the duration of a UV animation *)

Lemma pymax_cases (a b : Q) : pymax a b = a \/ pymax a b = b.
Proof. unfold pymax. destruct (a ?= b)%Q; auto. Qed.

Lemma pymax_le_l (a b : Q) : (a <= pymax a b)%Q.
Proof.
  unfold pymax. destruct (a ?= b)%Q eqn:Hc; try apply Qle_refl.
  apply Qlt_le_weak. by apply Qlt_alt.
Qed.

Lemma pymax_le_r (a b : Q) : (b <= pymax a b)%Q.
Proof.
  unfold pymax. destruct (a ?= b)%Q eqn:Hc.
  - apply Qeq_alt in Hc. rewrite Hc. apply Qle_refl.
  - apply Qle_refl.
  - apply Qlt_le_weak. by apply Qgt_alt.
Qed.

Lemma running_max_le_start (times : list Q) (start : Q) :
  (start <= running_max times start)%Q.
Proof.
  revert start. induction times as [|t times IH]; intros start; simpl.
  - apply Qle_refl.
  - eapply Qle_trans; [apply (pymax_le_r t start)|]. apply IH.
Qed.

Lemma running_max_upper (times : list Q) (start : Q) :
  Forall (fun t => (t <= running_max times start)%Q) times.
Proof.
  revert start. induction times as [|t times IH]; intros start; simpl; constructor.
  - eapply Qle_trans; [apply (pymax_le_l t start)|]. apply running_max_le_start.
  - apply IH.
Qed.

Lemma running_max_In (times : list Q) (start : Q) :
  running_max times start = start \/ In (running_max times start) times.
Proof.
  revert start. induction times as [|t times IH]; intros start; simpl; [by left|].
  destruct (IH (pymax t start)) as [Heq|Hin]; [|by right; right].
  rewrite Heq. destruct (pymax_cases t start) as [-> | ->]; [right; by left | by left].
Qed.

Lemma running_max_app (xs ys : list Q) (start : Q) :
  running_max (xs ++ ys) start = running_max ys (running_max xs start).
Proof. unfold running_max. apply fold_left_app. Qed.

(** One key frame: the duration takes the time just written into account,
    and no frame of the track is later than the duration. *)
Lemma keyframe_step_duration (fps : Z) (off ai : nat) (anim anim' : dff.UVAnim)
    (i : nat) (co : Q * Q) :
  keyframe_step fps off ai anim (i, co) = Ok anim' ->
  dff.duration anim' = pymax (fst co / inject_Z fps)%Q (dff.duration anim) /\
  (Forall (fun f => (dff.time f <= dff.duration anim)%Q) (dff.frames anim) ->
   Forall (fun f => (dff.time f <= dff.duration anim')%Q) (dff.frames anim')).
Proof.
  destruct co as [co0 co1]. unfold keyframe_step. intros Hrun.
  set (frames0 := if decide (length (dff.frames anim) <= i)%nat
                  then dff.frames anim ++ _ else dff.frames anim) in Hrun.
  inv_bind Hrun. rename a into _frame. inv_bind Hrun. rename a into uv.
  inv_bind Hrun. rename a into t.
  case_decide as Hfps; [discriminate|]. inversion Ha1; subst t; clear Ha1.
  inversion Hrun; subst anim'; clear Hrun. simpl. split; [done|].
  intros Hall. apply index_Ok in Ha.
  assert (Hlt : (i < length frames0)%nat) by (by eapply lookup_lt_Some).
  apply Forall_lookup. intros j f Hj.
  destruct (decide (i = j)) as [<-|Hne].
  - rewrite list_lookup_insert_eq in Hj by done. inversion Hj; subst f. simpl.
    apply pymax_le_l.
  - rewrite list_lookup_insert_ne in Hj by done.
    assert (Hold : dff.frames anim !! j = Some f).
    { subst frames0. case_decide as Hlen; [|done].
      rewrite length_app in Hlt. simpl in Hlt.
      apply lookup_app_Some in Hj as [Hj|[Hge Hj]]; [done|].
      apply list_lookup_singleton_Some in Hj as [Hj _]. lia. }
    eapply Qle_trans; [|apply pymax_le_r].
    by apply (proj1 (Forall_lookup _ _) Hall j f).
Qed.

Lemma keyframes_duration (fps : Z) (off ai k : nat) (kps : list (Q * Q))
    (anim anim' : dff.UVAnim) :
  for_each (keyframe_step fps off ai) (enumerate_from k kps) anim = Ok anim' ->
  dff.duration anim' =
    running_max (map (fun kp => (fst kp / inject_Z fps)%Q) kps) (dff.duration anim) /\
  (Forall (fun f => (dff.time f <= dff.duration anim)%Q) (dff.frames anim) ->
   Forall (fun f => (dff.time f <= dff.duration anim')%Q) (dff.frames anim')).
Proof.
  revert k anim. induction kps as [|kp kps IH]; intros k anim Hrun; simpl in Hrun.
  - by inversion Hrun; subst.
  - inv_bind Hrun.
    destruct (keyframe_step_duration _ _ _ _ _ _ _ Ha) as [Hd Hf].
    destruct (IH _ _ Hrun) as [Hd' Hf'].
    split; [simpl; by rewrite Hd', Hd | auto].
Qed.

Lemma curve_step_duration (fps : Z) (curve : bpy.FCurve) (anim anim' : dff.UVAnim) :
  curve_step fps anim curve = Ok anim' ->
  dff.duration anim' = running_max (curve_times fps curve) (dff.duration anim) /\
  (Forall (fun f => (dff.time f <= dff.duration anim)%Q) (dff.frames anim) ->
   Forall (fun f => (dff.time f <= dff.duration anim')%Q) (dff.frames anim')).
Proof.
  unfold curve_step, curve_times. case_decide; [by intros [= <-]|].
  destruct (uv_offset !! bpy.data_path curve) as [off|]; [|by intros [= <-]].
  apply keyframes_duration.
Qed.

Lemma curves_duration (fps : Z) (fcurves : list bpy.FCurve) (anim anim' : dff.UVAnim) :
  for_each (curve_step fps) fcurves anim = Ok anim' ->
  dff.duration anim' = running_max (visited_times fps fcurves) (dff.duration anim) /\
  (Forall (fun f => (dff.time f <= dff.duration anim)%Q) (dff.frames anim) ->
   Forall (fun f => (dff.time f <= dff.duration anim')%Q) (dff.frames anim')).
Proof.
  revert anim. induction fcurves as [|c cs IH]; intros anim Hrun; simpl in Hrun.
  - by inversion Hrun; subst.
  - inv_bind Hrun.
    destruct (curve_step_duration _ _ _ _ Ha) as [Hd Hf].
    destruct (IH _ Hrun) as [Hd' Hf'].
    split; [|auto]. unfold visited_times. simpl.
    rewrite running_max_app. fold (visited_times fps cs). by rewrite Hd', Hd.
Qed.

(** C7, as the code has it: the duration of a produced track is the
    running maximum, started at 0, of the times written while the key
    frames of the accepted curves are visited (frame number divided by the
    frame rate).  It is the largest of 0 and those times, and no frame
    left in the track is later; a time that a later curve overwrote still
    counts. *)
Theorem uv_animation_duration (fps : Z) (material : bpy.Material) (anim : dff.UVAnim) :
  get_uv_animation fps material = Ok (Some anim) ->
  exists fcurves,
    bpy.anim_data material = Some (Some fcurves) /\
    dff.duration anim = running_max (visited_times fps fcurves) 0%Q /\
    is_maximum (0%Q :: visited_times fps fcurves) (dff.duration anim) /\
    Forall (fun f => (dff.time f <= dff.duration anim)%Q) (dff.frames anim).
Proof.
  unfold get_uv_animation. intros Hrun.
  destruct (bpy.export_animation material); simpl in Hrun; [|discriminate].
  destruct (bpy.principled material); [|discriminate].
  destruct (bpy.has_mapping_node material); [|discriminate].
  destruct (bpy.anim_data material) as [[fcurves|]|]; try discriminate.
  inv_bind Hrun. inversion Hrun; subst a; clear Hrun.
  destruct (curves_duration _ _ _ _ Ha) as [Hd Hf]. simpl in Hd, Hf.
  exists fcurves. split; [done|]. split; [done|]. split; [|by apply Hf].
  rewrite Hd. split.
  - destruct (running_max_In (visited_times fps fcurves) 0%Q) as [-> | Hin];
      [by left | by right].
  - constructor; [apply running_max_le_start | apply running_max_upper].
Qed.

Lemma uv_animation_duration_witness :
  exists fcurves,
    bpy.anim_data two_curve_material = Some (Some fcurves) /\
    running_max (visited_times 24 fcurves) 0%Q = (48 # 24)%Q.
Proof.
  destruct (uv_animation_duration 24 two_curve_material
              {| dff.duration := 48 # 24; dff.anim_name := "scroll";
                 dff.frames :=
                   [ {| dff.time := 0 # 24; dff.uv := [0; 1; 0; 0; 0; 0]%Q;
                        dff.prev := -1 |};
                     {| dff.time := 24 # 24; dff.uv := [0; 2; 0; 0; 1; 0]%Q;
                        dff.prev := 0 |} ] |} eq_refl)
    as (fcurves & Hdata & Hd & _).
  exists fcurves. split; [exact Hdata|]. symmetry. exact Hd.
Defined.

(** C7 as stated fails.  With the offset keyed at frames 0 and 48 and the
    scale keyed at frames 0 and 24, at 24 frames per second, the second
    curve overwrites the time of frame 1: the track keeps the times 0 and 1
    and the duration 2.  With the offset keyed at frames -48 and -24 only,
    the track has the times -2 and -1 and the duration 0 it started
    with. *)
Lemma overwritten_time_still_counts :
  (exists anim,
     get_uv_animation 24 two_curve_material = Ok (Some anim) /\
     map dff.time (dff.frames anim) = [0 # 24; 24 # 24]%Q /\
     dff.duration anim = (48 # 24)%Q /\
     Forall (fun t => (t < dff.duration anim)%Q) (map dff.time (dff.frames anim)) /\
     ~ is_maximum (map dff.time (dff.frames anim)) (dff.duration anim)) /\
  (exists anim,
     get_uv_animation 24 negative_keys_material = Ok (Some anim) /\
     map dff.time (dff.frames anim) = [-48 # 24; -24 # 24]%Q /\
     dff.duration anim = 0%Q /\
     Forall (fun t => (t < dff.duration anim)%Q) (map dff.time (dff.frames anim)) /\
     ~ is_maximum (map dff.time (dff.frames anim)) (dff.duration anim)).
Proof.
  split.
  - eexists. split; [reflexivity|]. simpl.
    split; [reflexivity|]. split; [reflexivity|]. split.
    + repeat constructor.
    + intros [Hin _]. simpl in Hin. destruct Hin as [H|[H|[]]]; discriminate H.
  - eexists. split; [reflexivity|]. simpl.
    split; [reflexivity|]. split; [reflexivity|]. split.
    + repeat constructor.
    + intros [Hin _]. simpl in Hin. destruct Hin as [H|[H|[]]]; discriminate H.
Qed.

(** ** C4: the bounding sphere *)

Lemma sqrt3_above_1732 : (1732 / 1000 < sqrt 3)%R.
Proof.
  rewrite <- (sqrt_square (1732 / 1000)) by lra.
  apply sqrt_lt_1; lra.
Qed.

Lemma max3_is_max (d : Vector) :
  let '(x, y, z) := d in
  (x <= max3 d)%Q /\ (y <= max3 d)%Q /\ (z <= max3 d)%Q /\
  (max3 d = x \/ max3 d = y \/ max3 d = z).
Proof.
  destruct d as [[x y] z]. unfold max3. split; [|split; [|split]].
  - eapply Qle_trans; [apply (pymax_le_l x y) | apply pymax_le_l].
  - eapply Qle_trans; [apply (pymax_le_r x y) | apply pymax_le_l].
  - apply pymax_le_r.
  - destruct (pymax_cases (pymax x y) z) as [-> | ->]; [|auto].
    destruct (pymax_cases x y) as [-> | ->]; auto.
Qed.

(** The world matrix acts on a 3-vector as an affine map, so it leaves the
    average of eight points where the average of their images is. *)
Lemma center_is_average_of_transformed (m : Matrix4) (corners : list Vector) :
  length corners = 8%nat ->
  Vector_eq (multiply_matrix m (vec_scale 0.125 (fold_left vec_add corners vec_zero)))
         (average_of_transformed m corners).
Proof.
  intros Hlen.
  destruct corners as [|c1 [|c2 [|c3 [|c4 [|c5 [|c6 [|c7 [|c8 [|c9 rest]]]]]]]]];
    try discriminate Hlen.
  destruct m as [[[[[[a b] c] d] [[[e f] g] h]] [[[i j] k] l]] r4].
  destruct c1 as [[x1 y1] z1], c2 as [[x2 y2] z2], c3 as [[x3 y3] z3],
           c4 as [[x4 y4] z4], c5 as [[x5 y5] z5], c6 as [[x6 y6] z6],
           c7 as [[x7 y7] z7], c8 as [[x8 y8] z8].
  unfold average_of_transformed. simpl. repeat split; ring.
Qed.

Lemma radius_below_sqrt3 (m : Q) :
  (0 < m)%Q -> (Q2R (1.732 * m / 2) < sqrt 3 * Q2R m / 2)%R.
Proof.
  intros Hm. apply Qlt_Rlt in Hm. rewrite RMicromega.Q2R_0 in Hm.
  unfold Qdiv. rewrite Q2R_mult, Q2R_mult, Q2R_inv by discriminate.
  replace (Q2R 1.732) with (1732 / 1000)%R by (unfold Q2R; simpl; lra).
  replace (Q2R 2) with 2%R by (unfold Q2R; simpl; lra).
  pose proof sqrt3_above_1732 as Hs.
  apply Rmult_lt_compat_r with (r := (Q2R m / 2)%R) in Hs; [lra | lra].
Qed.

(** C4, as the code has it: the geometry that [populate_atomic] appends
    has a bounding sphere whose centre is the world matrix applied to one
    eighth of the sum of the bounding-box corners, which for a box of
    eight corners is the average of the transformed corners, and whose
    radius is 1.732 times the largest of the three dimensions, divided by
    2.  The constant is the decimal 1.732, not the square root of 3: for a
    positive largest dimension the radius is strictly below the square
    root of 3 times that dimension over 2. *)
Theorem bounding_sphere_formula (fps : Z) (self self' : exporter) (obj : bpy.Object) :
  populate_atomic fps self obj = Ok self' ->
  exists (k : Z) (cl : dff.Clump) (geometry : dff.Geometry),
    current_clump self' = Some k /\
    clumps self' !! k = Some cl /\
    last (dff.geometry_list cl) = Some geometry /\
    dff.bounding_sphere geometry =
      Some {| dff.center :=
                multiply_matrix (bpy.matrix_world obj)
                  (vec_scale 0.125 (fold_left vec_add (bpy.bound_box obj) vec_zero));
              dff.radius := (1.732 * max3 (bpy.dimensions obj) / 2)%Q |} /\
    (length (bpy.bound_box obj) = 8%nat ->
     Vector_eq (multiply_matrix (bpy.matrix_world obj)
               (vec_scale 0.125 (fold_left vec_add (bpy.bound_box obj) vec_zero)))
            (average_of_transformed (bpy.matrix_world obj) (bpy.bound_box obj))) /\
    (let '(x, y, z) := bpy.dimensions obj in
     let m := max3 (bpy.dimensions obj) in
     (x <= m)%Q /\ (y <= m)%Q /\ (z <= m)%Q /\ (m = x \/ m = y \/ m = z)) /\
    ((0 < max3 (bpy.dimensions obj))%Q ->
     (Q2R (1.732 * max3 (bpy.dimensions obj) / 2) <
      sqrt 3 * Q2R (max3 (bpy.dimensions obj)) / 2)%R).
Proof.
  intros Hrun.
  destruct (populate_atomic_Ok _ _ _ _ Hrun)
    as (g & frame & self1 & ms & self2 & k & cl & _ & _ & _ & Hk & Hcl
        & g' & atomic & -> & _ & _ & _ & _ & Hsphere).
  eexists k, _, g'. split; [done|]. split; [simpl; apply lookup_insert_eq|].
  split; [simpl; apply last_snoc|]. split; [exact Hsphere|].
  split; [apply center_is_average_of_transformed|].
  split; [apply max3_is_max | apply radius_below_sqrt3].
Qed.

Lemma bounding_sphere_formula_witness :
  exists (self' : exporter) (geometry : dff.Geometry),
    populate_atomic 24 (enter_clump initial 0) quad_object = Ok self' /\
    dff.bounding_sphere geometry =
      Some {| dff.center := (6.000000000, 1.000000000, 0.000000000)%Q;
              dff.radius := (3464 # 2000)%Q |}.
Proof.
  destruct (populate_atomic 24 (enter_clump initial 0) quad_object) as [self'|e] eqn:Hrun;
    [|vm_compute in Hrun; discriminate Hrun].
  destruct (bounding_sphere_formula 24 (enter_clump initial 0) self' quad_object Hrun)
    as (k & cl & geometry & _ & _ & _ & Hsphere & _).
  exists self', geometry. split; [reflexivity|]. exact Hsphere.
Defined.

(** C4 as stated fails: for dimensions (2, 2, 0) the radius is 1.732,
    which is not the square root of 3. *)
Lemma radius_is_not_sqrt3 :
  sphere_radius quad_object = (3464 # 2000)%Q /\
  max3 (bpy.dimensions quad_object) = 2%Q /\
  Q2R (sphere_radius quad_object) <>
    (sqrt 3 * Q2R (max3 (bpy.dimensions quad_object)) / 2)%R.
Proof.
  split; [reflexivity|]. split; [reflexivity|].
  pose proof (radius_below_sqrt3 (max3 (bpy.dimensions quad_object)) eq_refl) as Hlt.
  unfold sphere_radius. lra.
Qed.

(** ** C3 and C9: the deduplication of corners *)

Lemma float_eq_refl (a : Q) : float_eq a a = true.
Proof. unfold float_eq. by rewrite xorb_nilpotent, Z.sub_diag. Qed.

Lemma Vector_host_eq_refl (a : Vector) : Vector_host_eq a a = true.
Proof. destruct a as [[x y] z]. simpl. by rewrite !float_eq_refl. Qed.

Lemma uvs_host_eq_refl (l : list bpy.UV) : uvs_host_eq l l = true.
Proof.
  induction l as [|uv l IH]; [done|]. simpl. unfold UV_host_eq.
  by rewrite !float_eq_refl, IH.
Qed.

(** Entry by entry, two lists that compare equal have the same length
    and entries that compare equal. *)
Lemma uvs_host_eq_lookup (l1 l2 : list bpy.UV) (j : nat) (a : bpy.UV) :
  uvs_host_eq l1 l2 = true -> l1 !! j = Some a ->
  exists b, l2 !! j = Some b /\ UV_host_eq a b = true.
Proof.
  revert l2 j. induction l1 as [|x l1 IH]; intros [|y l2] j Heq Hj; try done.
  simpl in Heq. apply andb_true_iff in Heq as [Hxy Heq].
  destruct j as [|j]; simpl in Hj.
  - inversion Hj; subst. by exists y.
  - by apply (IH l2 j).
Qed.

Lemma uvs_host_eq_length (l1 l2 : list bpy.UV) :
  uvs_host_eq l1 l2 = true -> length l1 = length l2.
Proof.
  revert l2. induction l1 as [|x l1 IH]; intros [|y l2] Heq; try done.
  simpl in Heq. apply andb_true_iff in Heq as [_ Heq]. simpl. f_equal. by apply IH.
Qed.

Lemma same_corner_refl (v : vert) : same_corner v v = true.
Proof.
  unfold same_corner. rewrite Vector_host_eq_refl, uvs_host_eq_refl.
  by rewrite bool_decide_eq_true_2.
Qed.

(** The test reads the index, the normal and the UVs of a corner and
    nothing else. *)
Lemma same_corner_ext (v w1 w2 : vert) :
  corner_key w1 = corner_key w2 -> same_corner v w1 = same_corner v w2.
Proof. unfold corner_key, same_corner. by intros [= -> -> ->]. Qed.

Lemma same_corner_key (v w : vert) :
  corner_key v = corner_key w -> same_corner v w = true.
Proof. intros Hk. rewrite <- (same_corner_ext v v w Hk). apply same_corner_refl. Qed.

Lemma same_corner_parts (s v : vert) :
  same_corner s v = true <->
  idx s = idx v /\ Vector_host_eq (normal s) (normal v) = true /\
  uvs_host_eq (uvs s) (uvs v) = true.
Proof.
  unfold same_corner. rewrite !andb_true_iff, bool_decide_eq_true. tauto.
Qed.

(** The inner loop drops from [rest] the corners that the test takes for
    [v] and maps the [tmp_idx] of each to that of [v]. *)
Lemma cleanup_inner_kept (v : vert) (rest : list vert) (m : gmap nat nat) :
  (cleanup_inner v rest m).1 = filter (fun w => same_corner v w = false) rest.
Proof.
  revert m. induction rest as [|w rest IH]; intros m; simpl; [done|].
  destruct (same_corner v w) eqn:Hs.
  - rewrite filter_cons_False by (by rewrite Hs). apply IH.
  - rewrite filter_cons_True by done.
    specialize (IH m). destruct (cleanup_inner v rest m) as [kept m']. simpl in *.
    by rewrite IH.
Qed.

Lemma cleanup_inner_removed (v : vert) (rest : list vert) (m : gmap nat nat) (t : nat) :
  (cleanup_inner v rest m).2 !! t =
    if bool_decide (Exists (fun w => same_corner v w = true /\ tmp_idx w = t) rest)
    then Some (tmp_idx v) else m !! t.
Proof.
  revert m. induction rest as [|w rest IH]; intros m.
  - case_bool_decide as Hex; [by apply Exists_nil in Hex | done].
  - cbn [cleanup_inner]. destruct (same_corner v w) eqn:Hs.
    + rewrite IH.
      case_bool_decide as Hex; case_bool_decide as Hex'; try done.
      * exfalso. apply Hex'. by apply Exists_cons_tl.
      * apply Exists_cons in Hex' as [[_ Hw]|Hex']; [|done].
        by rewrite Hw, lookup_insert_eq.
      * rewrite lookup_insert_ne; [done|]. intros Hw. apply Hex'.
        by apply Exists_cons_hd.
    + specialize (IH m). destruct (cleanup_inner v rest m) as [kept m']. simpl in *.
      rewrite IH.
      case_bool_decide as Hex; case_bool_decide as Hex'; try done.
      * exfalso. apply Hex'. by apply Exists_cons_tl.
      * apply Exists_cons in Hex' as [[Hw _]|Hex']; [congruence|done].
Qed.

Lemma cleanup_inner_length (v : vert) (rest : list vert) (m : gmap nat nat) :
  (length (cleanup_inner v rest m).1 <= length rest)%nat.
Proof. rewrite cleanup_inner_kept. apply length_filter. Qed.

Lemma cleanup_outer_nil (fuel : nat) (m : gmap nat nat) :
  cleanup_outer fuel [] m = ([], m).
Proof. by destruct fuel. Qed.

(** The outer loop needs no more rounds than the list is long: any two
    supplies of at least that many rounds give the same result. *)
Lemma cleanup_outer_fuel (fuel fuel' : nat) (verts : list vert) (m : gmap nat nat) :
  (length verts <= fuel)%nat -> (length verts <= fuel')%nat ->
  cleanup_outer fuel verts m = cleanup_outer fuel' verts m.
Proof.
  revert fuel' verts m. induction fuel as [|fuel IH]; intros fuel' verts m Hlen Hlen'.
  - destruct verts; [by rewrite !cleanup_outer_nil | simpl in Hlen; lia].
  - destruct verts as [|v rest]; [by rewrite !cleanup_outer_nil|].
    destruct fuel' as [|fuel']; [simpl in Hlen'; lia|]. simpl.
    pose proof (cleanup_inner_length v rest m) as Hin.
    destruct (cleanup_inner v rest m) as [rest' m1]. simpl in Hin, Hlen, Hlen'.
    by rewrite (IH fuel' rest' m1) by lia.
Qed.

(** What survives is a sublist of the input in which no corner is taken
    for a later one. *)
Lemma cleanup_outer_sublist (fuel : nat) (verts : list vert) (m : gmap nat nat) :
  (cleanup_outer fuel verts m).1 `sublist_of` verts.
Proof.
  revert verts m. induction fuel as [|fuel IH]; intros verts m; [done|].
  destruct verts as [|v rest]; [done|]. simpl.
  pose proof (cleanup_inner_kept v rest m) as Hkept.
  destruct (cleanup_inner v rest m) as [rest' m1]. simpl in Hkept.
  specialize (IH rest' m1). destruct (cleanup_outer fuel rest' m1) as [kept m2].
  simpl in *. apply sublist_skip. etrans; [exact IH|].
  rewrite Hkept. apply sublist_filter.
Qed.

Lemma cleanup_outer_distinct (fuel : nat) (verts : list vert) (m : gmap nat nat) :
  (length verts <= fuel)%nat ->
  distinct_corners (cleanup_outer fuel verts m).1.
Proof.
  revert verts m. induction fuel as [|fuel IH]; intros verts m Hlen.
  - destruct verts; [done | simpl in Hlen; lia].
  - destruct verts as [|v rest]; [done|]. simpl.
    pose proof (cleanup_inner_kept v rest m) as Hkept.
    pose proof (cleanup_inner_length v rest m) as Hin.
    destruct (cleanup_inner v rest m) as [rest' m1]. simpl in Hkept, Hin, Hlen.
    pose proof (cleanup_outer_sublist fuel rest' m1) as Hsub.
    specialize (IH rest' m1). destruct (cleanup_outer fuel rest' m1) as [kept m2].
    simpl in *. split; [|apply IH; lia].
    apply Forall_forall. intros w Hw.
    assert (Hw' : w ∈ rest') by (by eapply elem_of_sublist).
    rewrite Hkept in Hw'. by apply list_elem_of_filter in Hw' as [Hne _].
Qed.

(** On a list in which no corner is taken for a later one the loops
    change nothing: no corner is dropped and nothing is recorded. *)
Lemma cleanup_inner_fresh (v : vert) (rest : list vert) (m : gmap nat nat) :
  Forall (fun w => same_corner v w = false) rest -> cleanup_inner v rest m = (rest, m).
Proof.
  revert m. induction rest as [|w rest IH]; intros m Hfresh; simpl; [done|].
  inversion Hfresh as [|? ? Hne Hrest]; subst. rewrite Hne. by rewrite IH.
Qed.

Lemma cleanup_outer_distinct_id (fuel : nat) (verts : list vert) (m : gmap nat nat) :
  distinct_corners verts -> cleanup_outer fuel verts m = (verts, m).
Proof.
  revert verts m. induction fuel as [|fuel IH]; intros verts m Hnd; [done|].
  destruct verts as [|v rest]; [done|]. simpl. destruct Hnd as [Hfresh Hnd].
  rewrite (cleanup_inner_fresh v rest m Hfresh). by rewrite (IH rest m Hnd).
Qed.

Lemma NoDup_fmap_eq {A B : Type} (f : A -> B) (l : list A) (x y : A) :
  NoDup (f <$> l) -> x ∈ l -> y ∈ l -> f x = f y -> x = y.
Proof.
  intros Hnd Hx Hy Hf.
  apply list_elem_of_lookup in Hx as [i Hi]. apply list_elem_of_lookup in Hy as [j Hj].
  assert (Hij : i = j).
  { apply (NoDup_lookup (f <$> l) i j (f x) Hnd).
    - by rewrite list_lookup_fmap, Hi.
    - by rewrite list_lookup_fmap, Hj, Hf. }
  subst j. congruence.
Qed.

Lemma corners_numbered_NoDup (vertices_list : list vert) :
  corners_numbered vertices_list -> NoDup (tmp_idx <$> vertices_list).
Proof.
  intros Hnum. apply NoDup_alt. intros i j t Hi Hj.
  rewrite list_lookup_fmap in Hi, Hj.
  destruct (vertices_list !! i) as [vi|] eqn:Hvi; [|done].
  destruct (vertices_list !! j) as [vj|] eqn:Hvj; [|done].
  simpl in Hi, Hj. apply Hnum in Hvi, Hvj. congruence.
Qed.

(** A sublist keeps the order of the list. *)
Lemma sublist_order {A : Type} (l1 l2 : list A) (i j : nat) (x y : A) :
  l1 `sublist_of` l2 -> (i < j)%nat ->
  l1 !! i = Some x -> l1 !! j = Some y ->
  exists a b, (a < b)%nat /\ l2 !! a = Some x /\ l2 !! b = Some y.
Proof.
  intros Hsub. revert i j. induction Hsub as [|z l1 l2 Hsub IH|z l1 l2 Hsub IH];
    intros i j Hij Hi Hj.
  - done.
  - destruct j as [|j]; [lia|]. simpl in Hj. destruct i as [|i]; simpl in Hi.
    + inversion Hi; subst z.
      assert (Hy : y ∈ l2).
      { eapply elem_of_sublist; [|exact Hsub]. by eapply list_elem_of_lookup_2. }
      apply list_elem_of_lookup_1 in Hy as [b Hb].
      exists 0%nat, (S b). split; [lia|done].
    + destruct (IH i j ltac:(lia) Hi Hj) as (a & b & Hab & Ha & Hb).
      exists (S a), (S b). split; [lia|done].
  - destruct (IH i j Hij Hi Hj) as (a & b & Hab & Ha & Hb).
    exists (S a), (S b). split; [lia|done].
Qed.

(** In a list in which no corner is taken for a later one, the test fails
    on every pair taken in the order of the list. *)
Lemma distinct_corners_lookup (l : list vert) (a b : nat) (x y : vert) :
  distinct_corners l -> l !! a = Some x -> l !! b = Some y ->
  (a < b)%nat -> same_corner x y = false.
Proof.
  revert a b. induction l as [|z l IH]; intros a b Hd Ha Hb Hab; [done|].
  destruct Hd as [Hz Hd]. destruct b as [|b]; [lia|]. simpl in Hb.
  destruct a as [|a]; simpl in Ha.
  - inversion Ha; subst z. rewrite Forall_forall in Hz. apply Hz.
    by eapply list_elem_of_lookup_2.
  - apply (IH a b); [done|done|done|lia].
Qed.

(** After the loops every corner of the input has a survivor: the first
    of the survivors that the test takes for it, which is the corner
    itself or a corner before it; [removed_verts] leads from a dropped
    corner to that survivor. *)
Lemma cleanup_outer_resolve (fuel : nat) (verts : list vert) (m : gmap nat nat) :
  (length verts <= fuel)%nat ->
  NoDup (tmp_idx <$> verts) ->
  (forall w, w ∈ verts ->
     exists i s,
       (cleanup_outer fuel verts m).1 !! i = Some s /\
       same_corner s w = true /\
       (forall j s', (j < i)%nat -> (cleanup_outer fuel verts m).1 !! j = Some s' ->
                     same_corner s' w = false) /\
       (exists a b, (a <= b)%nat /\ verts !! a = Some s /\ verts !! b = Some w) /\
       ((cleanup_outer fuel verts m).2 !! tmp_idx w = Some (tmp_idx s) \/
        (s = w /\ (cleanup_outer fuel verts m).2 !! tmp_idx w = m !! tmp_idx w))) /\
  (forall t, t ∉ tmp_idx <$> verts -> (cleanup_outer fuel verts m).2 !! t = m !! t).
Proof.
  revert verts m. induction fuel as [|fuel IH]; intros verts m Hlen Hnd.
  { destruct verts; [|simpl in Hlen; lia]. split; [intros w Hw; inversion Hw | done]. }
  destruct verts as [|v rest]; [split; [intros w Hw; inversion Hw | done]|].
  simpl.
  pose proof (cleanup_inner_kept v rest m) as Hkept.
  pose proof (cleanup_inner_length v rest m) as Hin.
  pose proof (cleanup_inner_removed v rest m) as Hrem.
  destruct (cleanup_inner v rest m) as [rest' m1]. simpl in Hkept, Hin, Hrem, Hlen.
  rewrite fmap_cons in Hnd. apply NoDup_cons in Hnd as [Hv Hnd].
  assert (Hsub : rest' `sublist_of` rest) by (rewrite Hkept; apply sublist_filter).
  assert (Hnd' : NoDup (tmp_idx <$> rest')).
  { eapply sublist_NoDup; [exact Hnd|]. by apply fmap_sublist. }
  destruct (IH rest' m1 ltac:(lia) Hnd') as [IH1 IH2].
  destruct (cleanup_outer fuel rest' m1) as [kept m2]. simpl in IH1, IH2 |- *.
  assert (Hold : forall t, (forall w0, w0 ∈ rest -> same_corner v w0 = true ->
                                       tmp_idx w0 <> t) -> m1 !! t = m !! t).
  { intros t Ht. rewrite Hrem. case_bool_decide as Hex; [|done].
    apply Exists_exists in Hex as (w0 & Hw0 & Hk0 & Ht0). by destruct (Ht w0). }
  assert (Hout : forall t, t ∉ tmp_idx <$> rest' -> m2 !! t = m1 !! t) by exact IH2.
  assert (Hnotin : forall w0, w0 ∈ rest -> w0 ∉ rest' -> tmp_idx w0 ∉ tmp_idx <$> rest').
  { intros w0 Hw0 Hw0' Hmem. apply list_elem_of_fmap in Hmem as (w1 & Ht1 & Hw1).
    assert (w1 ∈ rest) by (by eapply elem_of_sublist).
    assert (w0 = w1) by (by eapply (NoDup_fmap_eq tmp_idx rest)). by subst. }
  split.
  - intros w Hw. apply elem_of_cons in Hw as [->|Hw].
    + exists 0%nat, v. split; [done|]. split; [apply same_corner_refl|].
      split; [intros j s' Hj; lia|].
      split; [by exists 0%nat, 0%nat|]. right. split; [done|].
      rewrite Hout.
      * apply Hold. intros w0 Hw0 _ Ht0. apply Hv.
        apply list_elem_of_fmap. by exists w0.
      * intros Hmem. apply Hv. apply list_elem_of_fmap in Hmem as (w1 & Ht1 & Hw1).
        apply list_elem_of_fmap. exists w1. split; [done|]. by eapply elem_of_sublist.
    + destruct (same_corner v w) eqn:Hk.
      * exists 0%nat, v. split; [done|]. split; [done|].
        split; [intros j s' Hj; lia|].
        split.
        { apply list_elem_of_lookup_1 in Hw as [b Hb].
          exists 0%nat, (S b). split; [lia|done]. }
        left.
        rewrite Hout.
        -- rewrite Hrem. rewrite bool_decide_eq_true_2; [done|].
           apply Exists_exists. by exists w.
        -- apply Hnotin; [done|]. rewrite Hkept. intros Hf.
           apply list_elem_of_filter in Hf as [Hne _]. congruence.
      * assert (Hw' : w ∈ rest').
        { rewrite Hkept. by apply list_elem_of_filter. }
        destruct (IH1 w Hw') as (i & s & Hi & Hks & Hfirst & Hord & Hcase).
        exists (S i), s. split; [done|]. split; [done|]. split.
        { intros j s' Hj Hs'. destruct j as [|j]; simpl in Hs'.
          - by inversion Hs'; subst s'.
          - apply (Hfirst j s'); [lia|done]. }
        split.
        { destruct Hord as (a & b & Hab & Ha & Hb).
          destruct (decide (a = b)) as [->|Hne].
          - rewrite Ha in Hb. inversion Hb; subst s.
            apply list_elem_of_lookup_1 in Hw as [b0 Hb0].
            exists (S b0), (S b0). split; [lia|done].
          - destruct (sublist_order rest' rest a b s w Hsub ltac:(lia) Ha Hb)
              as (a0 & b0 & Hab0 & Ha0 & Hb0).
            exists (S a0), (S b0). split; [lia|done]. }
        destruct Hcase as [Hc|[-> Hc]]; [by left|]. right. split; [done|].
        rewrite Hc. apply Hold. intros w0 Hw0 Hk0 Ht0.
        assert (w0 = w) by (by eapply (NoDup_fmap_eq tmp_idx rest)). subst.
        congruence.
  - intros t Ht. apply not_elem_of_cons in Ht as [Htv Ht].
    rewrite Hout.
    + apply Hold. intros w0 Hw0 _ Ht0. apply Ht. apply list_elem_of_fmap. by exists w0.
    + intros Hmem. apply Ht. apply list_elem_of_fmap in Hmem as (w1 & Ht1 & Hw1).
      apply list_elem_of_fmap. exists w1. split; [done|]. by eapply elem_of_sublist.
Qed.

(** Looking a survivor up by its [tmp_idx] finds its position. *)
Lemma find_survivor (verts : list vert) (s : vert) :
  NoDup (tmp_idx <$> verts) -> s ∈ verts ->
  exists i, find_vert_idx_by_tmp_idx verts (Some (tmp_idx s)) = Some i /\
            verts !! i = Some s.
Proof.
  intros Hnd Hs. unfold find_vert_idx_by_tmp_idx.
  destruct (list_find_elem_of (fun v => tmp_idx v = tmp_idx s) verts s Hs eq_refl)
    as [[i x] Hfind].
  rewrite Hfind. exists i. split; [done|].
  apply list_find_Some in Hfind as (Hi & Hx & _).
  assert (x = s); [|by subst].
  eapply (NoDup_fmap_eq tmp_idx verts); [done| |done|done].
  by eapply list_elem_of_lookup_2.
Qed.

Lemma find_absent (verts : list vert) (t : nat) :
  t ∉ tmp_idx <$> verts -> find_vert_idx_by_tmp_idx verts (Some t) = None.
Proof.
  intros Ht. unfold find_vert_idx_by_tmp_idx.
  destruct (list_find (fun v => tmp_idx v = t) verts) as [[i x]|] eqn:Hfind; [|done].
  apply list_find_Some in Hfind as (Hi & Hx & _). exfalso. apply Ht.
  apply list_elem_of_fmap. exists x. split; [done|]. by eapply list_elem_of_lookup_2.
Qed.

Lemma corner_key_eq (v w : vert) :
  corner_key v = corner_key w <->
  idx v = idx w /\ normal v = normal w /\ uvs v = uvs w.
Proof.
  unfold corner_key. split; [intros [= -> -> ->]; done | intros (-> & -> & ->); done].
Qed.

(** Every corner of a numbered list resolves, through [removed_verts], to
    the position of the first survivor that the test takes for it, the
    corner itself or one before it. *)
Lemma corner_resolves (vertices_list : list vert) (p : nat) (vp : vert) :
  corners_numbered vertices_list ->
  vertices_list !! p = Some vp ->
  exists i s,
    remap_vert_idx (cleanup_outer (length vertices_list) vertices_list ∅).1
                   (cleanup_outer (length vertices_list) vertices_list ∅).2 (Some p) =
      Some i /\
    (cleanup_outer (length vertices_list) vertices_list ∅).1 !! i = Some s /\
    s ∈ vertices_list /\
    same_corner s vp = true /\
    (forall j s', (j < i)%nat ->
       (cleanup_outer (length vertices_list) vertices_list ∅).1 !! j = Some s' ->
       same_corner s' vp = false) /\
    (tmp_idx s <= p)%nat.
Proof.
  intros Hnum Hp.
  pose proof (corners_numbered_NoDup _ Hnum) as Hnd.
  destruct (cleanup_outer_resolve (length vertices_list) vertices_list ∅ (le_n _) Hnd)
    as [Hres _].
  pose proof (cleanup_outer_sublist (length vertices_list) vertices_list ∅) as Hsub.
  destruct (Hres vp ltac:(by eapply list_elem_of_lookup_2))
    as (i0 & s & Hi0 & Hk & Hfirst & Hord & Hcase).
  rewrite (Hnum p vp Hp) in Hcase.
  assert (Hle : (tmp_idx s <= p)%nat).
  { destruct Hord as (a & b & Hab & Ha & Hb).
    rewrite (Hnum a s Ha). rewrite <- (Hnum p vp Hp), (Hnum b vp Hb). done. }
  assert (Hs : s ∈ (cleanup_outer (length vertices_list) vertices_list ∅).1)
    by (by eapply list_elem_of_lookup_2).
  assert (Hnd' : NoDup (tmp_idx <$>
                          (cleanup_outer (length vertices_list) vertices_list ∅).1)).
  { eapply sublist_NoDup; [exact Hnd|]. by apply fmap_sublist. }
  destruct (find_survivor _ s Hnd' Hs) as (i & Hfind & Hi).
  assert (i = i0) as ->.
  { apply (NoDup_lookup _ i i0 (tmp_idx s) Hnd'); by rewrite list_lookup_fmap, ?Hi, ?Hi0. }
  exists i0, s.
  split; [|split; [done|split; [by eapply elem_of_sublist|by repeat split]]].
  unfold remap_vert_idx. destruct Hcase as [-> | [-> Hnone]]; [done|].
  rewrite Hnone, lookup_empty. by rewrite <- (Hnum p vp Hp).
Qed.

Lemma entry_out_of_range (vertices_list : list vert) (p : nat) :
  corners_numbered vertices_list ->
  (length vertices_list <= p)%nat ->
  remap_vert_idx (cleanup_outer (length vertices_list) vertices_list ∅).1
                 (cleanup_outer (length vertices_list) vertices_list ∅).2 (Some p) = None.
Proof.
  intros Hnum Hlen.
  pose proof (corners_numbered_NoDup _ Hnum) as Hnd.
  assert (Hp : p ∉ tmp_idx <$> vertices_list).
  { intros Hmem. apply list_elem_of_fmap in Hmem as (w & Hw & Hmem).
    apply list_elem_of_lookup in Hmem as [i Hi].
    pose proof (lookup_lt_Some _ _ _ Hi). apply Hnum in Hi. lia. }
  destruct (cleanup_outer_resolve (length vertices_list) vertices_list ∅ (le_n _) Hnd)
    as [_ Hout].
  unfold remap_vert_idx. rewrite (Hout p Hp), lookup_empty.
  apply find_absent. intros Hmem. apply Hp.
  eapply elem_of_sublist; [exact Hmem|].
  apply fmap_sublist, cleanup_outer_sublist.
Qed.

(** C3: on the corners collected from a mesh, numbered by [tmp_idx], the
    stored vertices are corners of the input, in their order, of which
    none compares equal to a later one: a corner is stored exactly when no
    stored corner before it compares equal to it, by the test of the loop
    (same source index, normal and UVs equal under the host's [==]).
    Every corner is assigned the first stored vertex that compares equal
    to it, a vertex with its source index whose normal and UVs the host's
    [==] takes for its own.  Two corners with the same index, normal and
    UVs get the same slot; two corners with the same slot have the same
    index and both compare equal to the vertex stored there; a corner
    that is stored has its own slot.  Every face entry that names a corner
    is replaced by the slot of that corner. *)
Theorem corners_merge_into_first_match (vertices_list : list vert)
    (faces_list : list face) :
  corners_numbered vertices_list ->
  let stored := (cleanup_duplicate_verts vertices_list faces_list).1 in
  stored `sublist_of` vertices_list /\
  distinct_corners stored /\
  (forall (p : nat) (vp : vert),
     vertices_list !! p = Some vp ->
     vp ∈ stored <->
     forall s', s' ∈ stored -> (tmp_idx s' < p)%nat -> same_corner s' vp = false) /\
  exists slot : nat -> nat,
    (forall (p : nat) (vp : vert),
       vertices_list !! p = Some vp ->
       exists s,
         stored !! slot p = Some s /\
         idx s = idx vp /\
         Vector_host_eq (normal s) (normal vp) = true /\
         uvs_host_eq (uvs s) (uvs vp) = true /\
         forall j s', (j < slot p)%nat -> stored !! j = Some s' ->
                      same_corner s' vp = false) /\
    (forall (p q : nat) (vp vq : vert),
       vertices_list !! p = Some vp ->
       vertices_list !! q = Some vq ->
       idx vp = idx vq /\ normal vp = normal vq /\ uvs vp = uvs vq ->
       slot p = slot q) /\
    (forall (p q : nat) (vp vq : vert),
       vertices_list !! p = Some vp ->
       vertices_list !! q = Some vq ->
       slot p = slot q ->
       idx vp = idx vq /\
       exists s, stored !! slot p = Some s /\
                 same_corner s vp = true /\ same_corner s vq = true) /\
    (forall (p i : nat) (vp : vert),
       vertices_list !! p = Some vp -> stored !! i = Some vp -> slot p = i) /\
    (cleanup_duplicate_verts vertices_list faces_list).2 =
      map (slot_face (length vertices_list) slot) faces_list.
Proof.
  intros Hnum.
  pose proof (corner_resolves vertices_list) as Hres.
  pose proof (entry_out_of_range vertices_list) as Hout.
  pose proof (cleanup_outer_distinct (length vertices_list) vertices_list ∅ (le_n _))
    as Hdistinct.
  pose proof (cleanup_outer_sublist (length vertices_list) vertices_list ∅) as Hsub.
  unfold cleanup_duplicate_verts.
  destruct (cleanup_outer (length vertices_list) vertices_list ∅) as [verts' removed].
  cbn [fst snd] in Hres, Hout, Hdistinct, Hsub |- *.
  split; [done|]. split; [done|].
  assert (Hfirst : forall (w : vert) (i j : nat) (s t : vert),
             verts' !! i = Some s -> same_corner s w = true ->
             (forall j0 s', (j0 < i)%nat -> verts' !! j0 = Some s' ->
                            same_corner s' w = false) ->
             verts' !! j = Some t -> same_corner t w = true ->
             (forall j0 s', (j0 < j)%nat -> verts' !! j0 = Some s' ->
                            same_corner s' w = false) ->
             i = j).
  { intros w i j s t Hi Hs Hbefore Hj Ht Hbefore'.
    destruct (Nat.lt_trichotomy i j) as [Hlt|[Heq|Hgt]]; [|done|].
    - rewrite (Hbefore' i s Hlt Hi) in Hs. discriminate.
    - rewrite (Hbefore j t Hgt Hj) in Ht. discriminate. }
  assert (Hearlier : forall (i j : nat) (s t : vert),
             verts' !! i = Some s -> verts' !! j = Some t ->
             (tmp_idx s < tmp_idx t)%nat -> (i < j)%nat).
  { intros i j s t Hi Hj Hst.
    destruct (Nat.lt_trichotomy i j) as [Hlt|[Heq|Hgt]]; [done| |].
    - subst j. rewrite Hi in Hj. inversion Hj; subst t. lia.
    - destruct (sublist_order verts' vertices_list j i t s Hsub Hgt Hj Hi)
        as (a & b & Hab & Ha & Hb).
      rewrite (Hnum a t Ha), (Hnum b s Hb) in Hst. lia. }
  split.
  { intros p vp Hp. split.
    - intros Hin s' Hs' Hlt.
      apply list_elem_of_lookup_1 in Hin as [i Hi].
      apply list_elem_of_lookup_1 in Hs' as [j Hj].
      apply (distinct_corners_lookup verts' j i s' vp Hdistinct Hj Hi).
      apply (Hearlier j i s' vp Hj Hi). by rewrite (Hnum p vp Hp).
    - intros Hnone.
      destruct (Hres p vp Hnum Hp) as (i & s & _ & Hs & Hin & Hk & _ & Hle).
      destruct (decide (tmp_idx s = p)) as [Heq|Hne].
      + apply list_elem_of_lookup_1 in Hin as [q Hq].
        rewrite (Hnum q s Hq) in Heq. subst q. rewrite Hp in Hq.
        inversion Hq; subst s. by eapply list_elem_of_lookup_2.
      + rewrite (Hnone s) in Hk; [discriminate| |lia].
        by eapply list_elem_of_lookup_2. }
  exists (fun p => default 0%nat (remap_vert_idx verts' removed (Some p))).
  split; [|split; [|split; [|split]]].
  - intros p vp Hp.
    destruct (Hres p vp Hnum Hp) as (i & s & Hi & Hs & Hin & Hk & Hb & _).
    exists s. rewrite Hi. simpl. split; [done|].
    apply same_corner_parts in Hk as (Hidx & Hn & Hu). by repeat split.
  - intros p q vp vq Hp Hq Hkey. apply corner_key_eq in Hkey.
    destruct (Hres p vp Hnum Hp) as (i & s & Hi & Hs & _ & Hk & Hb & _).
    destruct (Hres q vq Hnum Hq) as (j & t & Hj & Ht & _ & Hk' & Hb' & _).
    rewrite Hi, Hj. simpl.
    apply (Hfirst vp i j s t Hs Hk Hb Ht).
    + by rewrite (same_corner_ext t vp vq Hkey).
    + intros j0 s' Hj0 Hs'. rewrite (same_corner_ext s' vp vq Hkey). by eapply Hb'.
  - intros p q vp vq Hp Hq Hslot.
    destruct (Hres p vp Hnum Hp) as (i & s & Hi & Hs & _ & Hk & _).
    destruct (Hres q vq Hnum Hq) as (j & t & Hj & Ht & _ & Hk' & _).
    rewrite Hi, Hj in Hslot. simpl in Hslot. subst j. rewrite Hs in Ht.
    inversion Ht; subst t. rewrite Hi. simpl. split.
    + apply same_corner_parts in Hk as (Hidx & _).
      apply same_corner_parts in Hk' as (Hidx' & _). congruence.
    + by exists s.
  - intros p i vp Hp Hstored.
    destruct (Hres p vp Hnum Hp) as (i0 & s & Hi & Hs & _ & Hk & Hb & _).
    rewrite Hi. simpl.
    apply (Hfirst vp i0 i s vp Hs Hk Hb Hstored (same_corner_refl vp)).
    intros j0 s' Hj0 Hs'.
    by apply (distinct_corners_lookup verts' j0 i s' vp).
  - apply map_ext. intros f. unfold remap_face, slot_face. f_equal.
    apply map_ext. intros [p|]; [|done]. unfold slot_entry.
    case_decide as Hlt.
    + destruct (lookup_lt_is_Some_2 vertices_list p Hlt) as [vp Hp].
      destruct (Hres p vp Hnum Hp) as (i & s & Hi & _). by rewrite Hi.
    + apply (Hout p Hnum). lia.
Qed.

Lemma corners_merge_into_first_match_witness :
  corners_numbered quad_corners /\
  length (cleanup_duplicate_verts quad_corners quad_faces).1 = 4%nat /\
  distinct_corners (cleanup_duplicate_verts quad_corners quad_faces).1 /\
  exists slot : nat -> nat,
    slot 3%nat = slot 0%nat /\ slot 4%nat = slot 2%nat /\
    (cleanup_duplicate_verts quad_corners quad_faces).2 =
      map (slot_face (length quad_corners) slot) quad_faces.
Proof.
  assert (Hnum : corners_numbered quad_corners).
  { intros i v Hi. do 6 (destruct i as [|i]; [by inversion Hi|]). inversion Hi. }
  split; [exact Hnum|]. split; [by vm_compute|].
  destruct (corners_merge_into_first_match quad_corners quad_faces Hnum)
    as (_ & Hdistinct & _ & slot & _ & Hsame & _ & _ & Hfaces).
  split; [exact Hdistinct|]. exists slot.
  split; [by apply (Hsame 3%nat 0%nat _ _ eq_refl eq_refl)|].
  split; [by apply (Hsame 4%nat 2%nat _ _ eq_refl eq_refl)|exact Hfaces].
Defined.

(** C3 as stated fails in its "only if": the two corners of
    [near_corners] agree on index and normal and have UVs one float step
    apart, which the host's [==] takes for equal; the second is dropped
    and every face entry that named it names the first. *)
Lemma corners_one_step_apart_are_merged :
  exists v0 v1,
    near_corners = [v0; v1] /\
    idx v0 = idx v1 /\ normal v0 = normal v1 /\ uvs v0 <> uvs v1 /\
    (cleanup_duplicate_verts near_corners near_faces).1 = [v0] /\
    map verts (cleanup_duplicate_verts near_corners near_faces).2 =
      [[Some 0; Some 0; Some 0]]%nat.
Proof.
  eexists _, _. split; [reflexivity|]. split; [reflexivity|]. split; [reflexivity|].
  split; [discriminate|]. split; vm_compute; reflexivity.
Qed.

(** ** C9: running the deduplication twice *)

Lemma find_numbered (verts : list vert) (e : option nat) (i : nat) :
  corners_numbered verts ->
  find_vert_idx_by_tmp_idx verts e = Some i ->
  find_vert_idx_by_tmp_idx verts (Some i) = Some i.
Proof.
  intros Hnum Hfind. unfold find_vert_idx_by_tmp_idx in *.
  destruct e as [k|]; [|done].
  destruct (list_find (fun v => tmp_idx v = k) verts) as [[i0 x]|] eqn:Hk; [|done].
  simpl in Hfind. inversion Hfind; subst i0.
  apply list_find_Some in Hk as (Hi & _ & _).
  destruct (list_find (fun v => tmp_idx v = i) verts) as [[j y]|] eqn:Hj.
  - apply list_find_Some in Hj as (Hj & Hy & _). simpl.
    apply Hnum in Hj. congruence.
  - apply list_find_None in Hj. rewrite Forall_lookup in Hj.
    destruct (Hj i x Hi). by apply Hnum.
Qed.

Lemma remap_vert_idx_found (verts : list vert) (m : gmap nat nat) (e : option nat) :
  exists e', remap_vert_idx verts m e = find_vert_idx_by_tmp_idx verts e'.
Proof.
  unfold remap_vert_idx. destruct e as [k|]; [|by exists None].
  destruct (m !! k) as [kept|]; eauto.
Qed.

(** C9, as the code has it: a second run drops no vertex, so the vertex
    list is unchanged.  The faces are resolved again against the
    [tmp_idx] of the survivors, which still number the corners of the
    first input; they are unchanged when every survivor carries its own
    position as [tmp_idx]. *)
Theorem second_cleanup_keeps_vertices (vertices_list : list vert) (faces_list : list face) :
  let first := cleanup_duplicate_verts vertices_list faces_list in
  let second := cleanup_duplicate_verts first.1 first.2 in
  second.1 = first.1 /\
  (corners_numbered first.1 -> second.2 = first.2).
Proof.
  simpl. unfold cleanup_duplicate_verts at 2. unfold cleanup_duplicate_verts at 3.
  pose proof (cleanup_outer_distinct (length vertices_list) vertices_list ∅ (le_n _))
    as Hkeys.
  unfold cleanup_duplicate_verts.
  destruct (cleanup_outer (length vertices_list) vertices_list ∅) as [verts' removed].
  simpl in Hkeys |- *.
  rewrite (cleanup_outer_distinct_id (length verts') verts' ∅ Hkeys). simpl.
  split; [done|]. intros Hnum.
  rewrite map_map. apply map_ext. intros f. unfold remap_face. simpl. f_equal.
  rewrite map_map. apply map_ext. intros e.
  destruct (remap_vert_idx_found verts' removed e) as [e' He']. rewrite He'.
  destruct (find_vert_idx_by_tmp_idx verts' e') as [i|] eqn:Hfind; [|done].
  unfold remap_vert_idx. rewrite lookup_empty. by eapply find_numbered.
Qed.

Lemma second_cleanup_keeps_vertices_witness :
  corners_numbered (cleanup_duplicate_verts (take 4 quad_corners) (take 1 quad_faces)).1 /\
  (cleanup_duplicate_verts
     (cleanup_duplicate_verts (take 4 quad_corners) (take 1 quad_faces)).1
     (cleanup_duplicate_verts (take 4 quad_corners) (take 1 quad_faces)).2).2 =
  (cleanup_duplicate_verts (take 4 quad_corners) (take 1 quad_faces)).2.
Proof.
  assert (Hnum : corners_numbered
                   (cleanup_duplicate_verts (take 4 quad_corners) (take 1 quad_faces)).1).
  { intros i v Hi. do 3 (destruct i as [|i]; [by inversion Hi|]). inversion Hi. }
  split; [exact Hnum|].
  apply (second_cleanup_keeps_vertices (take 4 quad_corners) (take 1 quad_faces)).
  exact Hnum.
Defined.

(** C9 as stated fails: after the first run on the quad the survivors
    carry the [tmp_idx] 0, 1, 2 and 5 and the second face is (0, 2, 3); the
    second run looks for a vertex with [tmp_idx] 3, finds none, and the
    face becomes (0, 2, None). *)
Lemma second_cleanup_changes_faces :
  let first := cleanup_duplicate_verts quad_corners quad_faces in
  let second := cleanup_duplicate_verts first.1 first.2 in
  map verts first.2 = [[Some 0; Some 1; Some 2]; [Some 0; Some 2; Some 3]]%nat /\
  map verts second.2 = [[Some 0; Some 1; Some 2]; [Some 0; Some 2; None]]%nat /\
  second.2 <> first.2.
Proof.
  vm_compute. split; [reflexivity|]. split; [reflexivity|]. discriminate.
Qed.

(** ** C6: the skin binding *)

Lemma skin_bone_steps (vertex_groups : list string) (ibs : list (nat * bpy.Bone))
    (acc acc' : dff.SkinPLG * gmap nat nat) :
  for_each (skin_bone_step vertex_groups) ibs acc = Ok acc' ->
  dff.num_bones acc'.1 = dff.num_bones acc.1 /\
  dff.vertex_bone_indices acc'.1 = dff.vertex_bone_indices acc.1 /\
  dff.vertex_bone_weights acc'.1 = dff.vertex_bone_weights acc.1 /\
  length (dff.bone_matrices acc'.1) =
    (length (dff.bone_matrices acc.1) + length ibs)%nat.
Proof.
  revert acc. induction ibs as [|[i bone] ibs IH]; intros acc Hrun; simpl in Hrun.
  - inversion Hrun; subst. simpl. repeat split; lia.
  - inv_bind Hrun. destruct (IH _ Hrun) as (Hn & Hi & Hw & Hlen).
    destruct acc as [skin bg]. unfold skin_bone_step in Ha.
    destruct (bpy.matrix_local_inverted bone) as [inv|]; [|discriminate].
    assert (Hskin : dff.num_bones a.1 = dff.num_bones skin /\
                    dff.vertex_bone_indices a.1 = dff.vertex_bone_indices skin /\
                    dff.vertex_bone_weights a.1 = dff.vertex_bone_weights skin /\
                    length (dff.bone_matrices a.1) = S (length (dff.bone_matrices skin))).
    { destruct (vertex_group_index vertex_groups (bpy.name (bpy.bone_node bone)));
        inversion Ha; subst a; simpl; rewrite length_app; simpl;
        repeat split; lia. }
    destruct Hskin as (Hn' & Hi' & Hw' & Hlen'). simpl.
    rewrite Hn, Hi, Hw, Hlen, Hn', Hi', Hw', Hlen'. repeat split; lia.
Qed.

(** The skin object handed to the vertex loop: one matrix per bone of the
    armature and no vertex rows yet. *)
Lemma get_skin_plg_shape (obj : bpy.Object) (bones : list bpy.Bone)
    (skin_plg : option dff.SkinPLG) (bone_groups : gmap nat nat) :
  find_armature (bpy.modifiers obj) = Some bones ->
  get_skin_plg_and_bone_groups obj = Ok (skin_plg, bone_groups) ->
  exists skin,
    skin_plg = Some skin /\
    dff.num_bones skin = length bones /\
    length (dff.bone_matrices skin) = length bones /\
    dff.vertex_bone_indices skin = [] /\
    dff.vertex_bone_weights skin = [].
Proof.
  intros Harm Hrun. unfold get_skin_plg_and_bone_groups in Hrun. rewrite Harm in Hrun.
  inv_bind Hrun. destruct a as [skin' bg]. inversion Hrun; subst; clear Hrun.
  apply skin_bone_steps in Ha as (Hn & Hi & Hw & Hlen). simpl in *.
  exists skin'. unfold enumerate in Hlen. rewrite enumerate_from_length in Hlen.
  by repeat split.
Qed.

Lemma collect_bones_ok (bone_groups : gmap nat nat)
    (groups : list bpy.VertexGroupElement) (infl : list (nat * Q)) :
  influences_ok infl -> influences_ok (collect_bones bone_groups groups infl).
Proof.
  revert infl. induction groups as [|g groups IH]; intros infl Hok; simpl; [done|].
  case_decide as Hfull; [done|].
  destruct (bone_groups !! bpy.group g) as [bone_index|]; [|by apply IH].
  destruct (Qpositive (bpy.weight g)) eqn:Hpos; [|by apply IH].
  apply IH. destruct Hok as [Hlen Hall]. split.
  - rewrite length_app. simpl. lia.
  - apply Forall_app. split; [done|]. constructor; [|constructor]. simpl.
    unfold Qpositive in Hpos. apply Qlt_alt.
    by destruct (0 ?= bpy.weight g)%Q.
Qed.

Lemma corner_step_ok (mesh : bpy.Mesh) (bone_groups : gmap nat nat)
    (vertices_list vertices_list' : list vert) (loop_index : nat) :
  Forall (fun v => influences_ok (bones v)) vertices_list ->
  corner_step mesh bone_groups vertices_list loop_index = Ok vertices_list' ->
  Forall (fun v => influences_ok (bones v)) vertices_list'.
Proof.
  intros Hall Hrun. unfold corner_step in Hrun. do 4 inv_bind Hrun.
  inversion Hrun; subst. apply Forall_app. split; [done|].
  constructor; [|constructor]. simpl. apply collect_bones_ok.
  split; [simpl; lia | constructor].
Qed.

Lemma polygons_ok (mesh : bpy.Mesh) (bone_groups : gmap nat nat)
    (ips : list (nat * bpy.MeshPolygon)) (acc acc' : list vert * list face) :
  Forall (fun v => influences_ok (bones v)) acc.1 ->
  for_each (polygon_step mesh bone_groups) ips acc = Ok acc' ->
  Forall (fun v => influences_ok (bones v)) acc'.1.
Proof.
  intros Hall Hrun.
  apply (for_each_invariant
           (fun a : list vert * list face =>
              Forall (fun v => influences_ok (bones v)) a.1)
           (polygon_step mesh bone_groups) ips) with (s := acc); [|done|done].
  intros [vl fl] [i polygon] [vl' fl'] Hs _ Hstep. simpl in *.
  inv_bind Hstep. inversion Hstep; subst.
  apply (for_each_invariant (Forall (fun v => influences_ok (bones v)))
           (corner_step mesh bone_groups) (bpy.loop_indices polygon))
    with (s := vl); [|done|done].
  intros s x s' Hs' _ Hc. by eapply corner_step_ok.
Qed.

(** The rows written for a vertex with at most four influences. *)
Lemma bone_rows (infl : list (nat * Q)) :
  (length infl <= 4)%nat ->
  for_each bone_row_step (enumerate infl) (replicate 4 0%nat, replicate 4 0%Q) =
    Ok (padded_indices infl, padded_weights infl).
Proof.
  intros Hlen.
  destruct infl as [|[i1 w1] [|[i2 w2] [|[i3 w3] [|[i4 w4] [|[i5 w5] rest]]]]];
    try reflexivity.
  simpl in Hlen. lia.
Qed.

Lemma padded_length (infl : list (nat * Q)) :
  (length infl <= 4)%nat ->
  length (padded_indices infl) = 4%nat /\ length (padded_weights infl) = 4%nat.
Proof.
  intros Hlen. unfold padded_indices, padded_weights.
  rewrite !length_app, !length_map, !length_replicate. lia.
Qed.

Lemma vertex_step_skin (p n : bool) (max_uv n_bones n_matrices : nat)
    (st st' : vertices_state) (v : vert) :
  influences_ok (bones v) ->
  skin_rows_ok n_bones n_matrices st ->
  vertex_step p n max_uv st v = Ok st' ->
  skin_rows_ok n_bones n_matrices st'.
Proof.
  intros [Hlen Hpos] (skin & Hskin & Hn & Hm & Hrows & Hpad) Hrun.
  unfold vertex_step in Hrun. do 2 inv_bind Hrun. rewrite Hskin in Hrun.
  inv_bind Hrun. inv_bind Ha1. inversion Ha1; subst a1; clear Ha1.
  unfold skin_add_vertex in Ha2. rewrite (bone_rows _ Hlen) in Ha2. simpl in Ha2.
  inversion Ha2; subst a2; clear Ha2. inversion Hrun; subst st'; clear Hrun.
  eexists. split; [reflexivity|]. simpl. split; [done|]. split; [done|].
  split; [rewrite !length_app; simpl; lia|].
  apply Forall2_app; [done|]. constructor; [|constructor].
  exists (bones v). by repeat split.
Qed.

Lemma from_vertices_skin (vertices_list : list vert) (skin0 : dff.SkinPLG)
    (obj : bpy.Object) (geometry geometry' : dff.Geometry) :
  Forall (fun v => influences_ok (bones v)) vertices_list ->
  dff.vertex_bone_indices skin0 = [] ->
  dff.vertex_bone_weights skin0 = [] ->
  dff.vertices geometry = [] ->
  populate_geometry_from_vertices_data vertices_list (Some skin0) obj geometry =
    Ok geometry' ->
  exists skin,
    dff.ext_skin geometry' = Some skin /\
    dff.num_bones skin = dff.num_bones skin0 /\
    length (dff.bone_matrices skin) = length (dff.bone_matrices skin0) /\
    length (dff.vertex_bone_indices skin) = length (dff.vertices geometry') /\
    Forall2 padded_rows (dff.vertex_bone_indices skin) (dff.vertex_bone_weights skin).
Proof.
  intros Hall Hi Hw Hv Hrun. unfold populate_geometry_from_vertices_data in Hrun.
  inv_bind Hrun. inversion Hrun; subst geometry'; clear Hrun. simpl.
  apply (for_each_invariant
           (skin_rows_ok (dff.num_bones skin0) (length (dff.bone_matrices skin0)))
           _ vertices_list) with (s' := a) in Ha.
  - destruct Ha as (skin & Hskin & Hrest). rewrite Hskin. by exists skin.
  - intros s x s' Hs Hx Hstep. eapply vertex_step_skin; [|exact Hs|exact Hstep].
    rewrite Forall_forall in Hall. by apply Hall, list_elem_of_In.
  - exists skin0. simpl. rewrite Hi, Hw, Hv. by repeat split.
Qed.

(** C6: a geometry built from a mesh whose object has an armature
    modifier carries a skin with one bone matrix per bone of the armature
    and, for every stored vertex, a row of bone indices and a row of bone
    weights of four entries each: the influences of the vertex, at most
    four and of positive weight, followed by zeros. *)
Theorem skin_binding_shape (obj : bpy.Object) (armature_bones : list bpy.Bone)
    (geometry : dff.Geometry) :
  find_armature (bpy.modifiers obj) = Some armature_bones ->
  populate_geometry_with_mesh_data obj dff.new_Geometry = Ok geometry ->
  exists skin,
    dff.ext_skin geometry = Some skin /\
    dff.num_bones skin = length armature_bones /\
    length (dff.bone_matrices skin) = length armature_bones /\
    length (dff.vertex_bone_indices skin) = length (dff.vertices geometry) /\
    length (dff.vertex_bone_weights skin) = length (dff.vertices geometry) /\
    forall (j : nat) (indices : list nat) (weights : list Q),
      dff.vertex_bone_indices skin !! j = Some indices ->
      dff.vertex_bone_weights skin !! j = Some weights ->
      length indices = 4%nat /\ length weights = 4%nat /\
      exists infl : list (nat * Q),
        (length infl <= 4)%nat /\
        Forall (fun iw => (0 < snd iw)%Q) infl /\
        indices = map fst infl ++ replicate (4 - length infl) 0%nat /\
        weights = map snd infl ++ replicate (4 - length infl) 0%Q.
Proof.
  intros Harm Hrun.
  destruct (with_mesh_data_stages _ _ _ Hrun)
    as (skin_plg & bone_groups & vl & fl & g1 & Hskin & Hpoly & Hverts & Hfaces).
  destruct (get_skin_plg_shape _ _ _ _ Harm Hskin)
    as (skin0 & -> & Hn0 & Hm0 & Hi0 & Hw0).
  apply from_faces_keeps in Hfaces as (Hvs & _ & Hext).
  assert (Hall : Forall (fun v => influences_ok (bones v))
                   (cleanup_duplicate_verts vl fl).1).
  { apply (polygons_ok _ _ _ ([], []) (vl, fl)) in Hpoly; [|constructor].
    simpl in Hpoly. rewrite Forall_forall in Hpoly |- *. intros v Hv.
    apply Hpoly. eapply elem_of_sublist; [exact Hv|].
    unfold cleanup_duplicate_verts.
    pose proof (cleanup_outer_sublist (length vl) vl ∅) as Hsub.
    by destruct (cleanup_outer (length vl) vl ∅). }
  destruct (from_vertices_skin _ skin0 obj dff.new_Geometry g1 Hall Hi0 Hw0
              (eq_refl : dff.vertices dff.new_Geometry = []) Hverts)
    as (skin & Hs & Hn & Hm & Hrows & Hpad).
  exists skin. rewrite Hext, Hvs.
  split; [done|]. split; [congruence|]. split; [congruence|]. split; [done|].
  split; [by rewrite <- (Forall2_length _ _ _ Hpad)|].
  intros j indices weights Hi Hw.
  destruct (Forall2_lookup_lr _ _ _ _ _ _ Hpad Hi Hw) as (infl & [Hlen Hpos] & -> & ->).
  destruct (padded_length infl Hlen) as [Hl1 Hl2].
  split; [done|]. split; [done|]. by exists infl.
Qed.

Lemma skin_binding_shape_witness :
  exists geometry skin,
    populate_geometry_with_mesh_data quad_object dff.new_Geometry = Ok geometry /\
    dff.ext_skin geometry = Some skin /\
    length (dff.bone_matrices skin) = 3%nat /\
    dff.vertex_bone_indices skin = [[0; 2; 0; 0]; [2; 0; 0; 0]; [2; 0; 0; 0]; [0; 0; 0; 0]]%nat.
Proof.
  destruct (populate_geometry_with_mesh_data quad_object dff.new_Geometry)
    as [geometry|e] eqn:Hrun; [|vm_compute in Hrun; discriminate Hrun].
  destruct (skin_binding_shape quad_object sample_bones geometry eq_refl Hrun)
    as (skin & Hskin & _ & Hmatrices & _).
  exists geometry, skin. split; [reflexivity|]. split; [exact Hskin|].
  split; [exact Hmatrices|].
  vm_compute in Hrun. inversion Hrun; subst geometry. simpl in Hskin.
  by inversion Hskin.
Defined.

(** ** The hypotheses of C3 and C5 at the call site *)

Lemma corner_step_numbered (mesh : bpy.Mesh) (bone_groups : gmap nat nat)
    (vertices_list vertices_list' : list vert) (loop_index : nat) :
  corners_numbered vertices_list ->
  corner_step mesh bone_groups vertices_list loop_index = Ok vertices_list' ->
  corners_numbered vertices_list'.
Proof.
  intros Hnum Hrun. unfold corner_step in Hrun. do 4 inv_bind Hrun.
  inversion Hrun; subst. intros i v Hi.
  apply lookup_app_Some in Hi as [Hi|[Hge Hi]]; [by apply Hnum|].
  apply list_lookup_singleton_Some in Hi as [Hi <-]. simpl. lia.
Qed.

(** The corners collected from a mesh are numbered by their position, and
    every collected face has three entries; the deduplication keeps the
    number of entries of a face. *)
Lemma collected_corners_numbered (mesh : bpy.Mesh) (bone_groups : gmap nat nat)
    (vertices_list : list vert) (faces_list : list face) :
  for_each (polygon_step mesh bone_groups) (enumerate (bpy.polygons mesh)) ([], []) =
    Ok (vertices_list, faces_list) ->
  corners_numbered vertices_list /\
  Forall (fun f => length (verts f) = 3%nat) faces_list /\
  Forall (fun f => length (verts f) = 3%nat)
         (cleanup_duplicate_verts vertices_list faces_list).2.
Proof.
  intros Hrun.
  assert (Hinv : corners_numbered vertices_list /\
                 Forall (fun f => length (verts f) = 3%nat) faces_list).
  { apply (for_each_invariant
             (fun a : list vert * list face =>
                corners_numbered a.1 /\ Forall (fun f => length (verts f) = 3%nat) a.2)
             (polygon_step mesh bone_groups) (enumerate (bpy.polygons mesh)))
      with (s := ([], [])) (s' := (vertices_list, faces_list)); [| |done].
    - intros [vl fl] [i polygon] [vl' fl'] [Hnum Hfaces] _ Hstep. simpl in *.
      inv_bind Hstep. inversion Hstep; subst. split.
      + apply (for_each_invariant corners_numbered (corner_step mesh bone_groups)
                 (bpy.loop_indices polygon)) with (s := vl); [|done|done].
        intros s x s' Hs _ Hc. by eapply corner_step_numbered.
      + apply Forall_app. split; [done|]. by repeat constructor.
    - split; [intros i v Hi; inversion Hi | constructor]. }
  destruct Hinv as [Hnum Hfaces]. split; [done|]. split; [done|].
  unfold cleanup_duplicate_verts.
  destruct (cleanup_outer (length vertices_list) vertices_list ∅) as [verts' removed].
  simpl. apply Forall_fmap. eapply Forall_impl; [exact Hfaces|].
  intros f Hf. simpl. by rewrite length_map.
Qed.

(** * Further properties *)

(** ** [clear_extension] *)

Lemma rfind_dot_dotless (s : string) : rfind_dot s = None <-> dotless s = true.
Proof.
  induction s as [|c s IH]; simpl; [done|].
  destruct (rfind_dot s) as [k|].
  - split; [done|]. intros H. apply andb_true_iff in H as [_ H].
    apply IH in H. discriminate.
  - destruct (Ascii.eqb c "."%char); simpl; [done|]. split; [intros _|done].
    by apply IH.
Qed.

Lemma rfind_dot_splits (s : string) (k : nat) :
  rfind_dot s = Some k ->
  exists ext, dotless ext = true /\ s = substring 0 k s +:+ "." +:+ ext.
Proof.
  revert k. induction s as [|c s IH]; intros k Hk; simpl in Hk; [done|].
  destruct (rfind_dot s) as [k'|] eqn:Hs.
  - inversion Hk; subst k. destruct (IH k' eq_refl) as (ext & Hext & Heq).
    exists ext. split; [done|].
    change (String c s = String c (substring 0 k' s +:+ "." +:+ ext)).
    f_equal. exact Heq.
  - destruct (Ascii.eqb c "."%char) eqn:Hc; [|done]. inversion Hk; subst k.
    apply Ascii.eqb_eq in Hc. subst c.
    exists s. split; [by apply rfind_dot_dotless|done].
Qed.

(** X1: [clear_extension] returns a string without a period as it is, and
    otherwise cuts at the last period: the string is the result, a
    period, and a rest without a period. *)
Theorem clear_extension_cuts_last_period (s : string) :
  (dotless s = true /\ clear_extension s = s) \/
  (exists ext, dotless ext = true /\ s = clear_extension s +:+ "." +:+ ext).
Proof.
  unfold clear_extension. destruct (rfind_dot s) as [k|] eqn:Hk.
  - right. by apply rfind_dot_splits.
  - left. split; [by apply rfind_dot_dotless | done].
Qed.

(** ** Colour bytes *)

Lemma pyint_scaled_byte (x : Q) : unit_channel x -> is_byte (pyint (x * 255)).
Proof.
  destruct x as [n d]. unfold unit_channel, is_byte, pyint, Qle. simpl.
  intros [H0 H1]. rewrite Pos.mul_1_r.
  rewrite Z.quot_div_nonneg by lia. split.
  - apply Z.div_pos; lia.
  - apply Z.div_le_upper_bound; lia.
Qed.

(** X2: a vertex colour whose four channels lie between 0 and 1 is
    stored as four values between 0 and 255. *)
Theorem vertex_colour_fits_bytes (r g b a : Q) :
  unit_channel r -> unit_channel g -> unit_channel b -> unit_channel a ->
  let '(r', g', b', a') := to_RGBA (r, g, b, a) in
  is_byte r' /\ is_byte g' /\ is_byte b' /\ is_byte a'.
Proof.
  intros Hr Hg Hb Ha. simpl. repeat split; by apply pyint_scaled_byte.
Qed.

Lemma vertex_colour_fits_bytes_witness :
  to_RGBA (1, 1 # 2, 0, 1)%Q = (255, 127, 0, 255) /\
  let '(r', g', b', a') := to_RGBA (1, 1 # 2, 0, 1)%Q in
  is_byte r' /\ is_byte g' /\ is_byte b' /\ is_byte a'.
Proof.
  split; [reflexivity|].
  apply (vertex_colour_fits_bytes 1 (1 # 2) 0 1); split; discriminate.
Defined.

(** ** The influences of a corner *)

Lemma collect_bones_take (bone_groups : gmap nat nat)
    (groups : list bpy.VertexGroupElement) (acc : list (nat * Q)) :
  (length acc <= 4)%nat ->
  collect_bones bone_groups groups acc =
    take 4 (acc ++ omap (bone_influence bone_groups) groups).
Proof.
  revert acc. induction groups as [|g groups IH]; intros acc Hlen; simpl.
  - rewrite app_nil_r. by rewrite take_ge.
  - case_decide as Hfull.
    + by rewrite take_app_le, take_ge by lia.
    + unfold bone_influence at 1.
      destruct (bone_groups !! bpy.group g) as [bone_index|]; [|by apply IH].
      destruct (Qpositive (bpy.weight g)); [|by apply IH].
      rewrite IH by (rewrite length_app; simpl; lia).
      by rewrite <- app_assoc.
Qed.

(** X3: the influences collected for a corner are the first four of the
    vertex's groups that are mapped to a bone and have a positive weight,
    in the order of the groups, each as the bone index with the weight. *)
Theorem influences_are_first_four (bone_groups : gmap nat nat)
    (groups : list bpy.VertexGroupElement) :
  collect_bones bone_groups groups [] =
    take 4 (omap (bone_influence bone_groups) groups).
Proof. apply (collect_bones_take bone_groups groups []). simpl. lia. Qed.

(** ** The deduplication on any list of corners *)

Lemma cleanup_outer_covers (fuel : nat) (verts : list vert) (m : gmap nat nat) :
  (length verts <= fuel)%nat ->
  forall v, v ∈ verts ->
    exists s, s ∈ (cleanup_outer fuel verts m).1 /\ same_corner s v = true.
Proof.
  revert verts m. induction fuel as [|fuel IH]; intros verts m Hlen v Hv.
  { destruct verts; [inversion Hv | simpl in Hlen; lia]. }
  destruct verts as [|v0 rest]; [inversion Hv|]. simpl.
  pose proof (cleanup_inner_kept v0 rest m) as Hkept.
  pose proof (cleanup_inner_length v0 rest m) as Hin.
  destruct (cleanup_inner v0 rest m) as [rest' m1]. simpl in Hkept, Hin, Hlen.
  specialize (IH rest' m1 ltac:(lia)).
  destruct (cleanup_outer fuel rest' m1) as [kept m2]. simpl in IH |- *.
  apply elem_of_cons in Hv as [->|Hv];
    [exists v0; split; [by left|apply same_corner_refl]|].
  destruct (same_corner v0 v) eqn:Hk.
  - exists v0. split; [by left|done].
  - destruct (IH v) as (s & Hs & Hks).
    + rewrite Hkept. by apply list_elem_of_filter.
    + exists s. split; [by right|done].
Qed.

Lemma cleanup_outer_head (fuel : nat) (verts : list vert) (m : gmap nat nat) :
  (length verts <= fuel)%nat ->
  head (cleanup_outer fuel verts m).1 = head verts.
Proof.
  intros Hlen. destruct fuel as [|fuel]; [done|].
  destruct verts as [|v rest]; [done|]. simpl.
  destruct (cleanup_inner v rest m) as [rest' m1].
  by destruct (cleanup_outer fuel rest' m1).
Qed.

(** X4: for any list of corners, the stored vertices are a sublist of the
    corners, in their order and starting with the first corner; none of
    them compares equal, by the test of the loop, to a later one; and
    every corner has a stored vertex with its source index whose normal
    and UVs the host's [==] takes for the corner's. *)
Theorem stored_vertices_are_distinct_corners (vertices_list : list vert)
    (faces_list : list face) :
  let stored := (cleanup_duplicate_verts vertices_list faces_list).1 in
  stored `sublist_of` vertices_list /\
  (length stored <= length vertices_list)%nat /\
  head stored = head vertices_list /\
  distinct_corners stored /\
  forall v, v ∈ vertices_list ->
    exists s, s ∈ stored /\
              idx s = idx v /\
              Vector_host_eq (normal s) (normal v) = true /\
              uvs_host_eq (uvs s) (uvs v) = true.
Proof.
  unfold cleanup_duplicate_verts.
  pose proof (cleanup_outer_sublist (length vertices_list) vertices_list ∅) as Hsub.
  pose proof (cleanup_outer_distinct (length vertices_list) vertices_list ∅ (le_n _))
    as Hnd.
  pose proof (cleanup_outer_covers (length vertices_list) vertices_list ∅ (le_n _)) as Hcov.
  pose proof (cleanup_outer_head (length vertices_list) vertices_list ∅ (le_n _)) as Hhd.
  destruct (cleanup_outer (length vertices_list) vertices_list ∅) as [verts' removed].
  cbn [fst snd] in *. split; [done|]. split; [by apply sublist_length|].
  split; [done|]. split; [done|].
  intros v Hv. destruct (Hcov v Hv) as (s & Hs & Hk).
  exists s. split; [done|]. by apply same_corner_parts.
Qed.

Lemma find_own_position (verts : list vert) (p : nat) :
  corners_numbered verts -> (p < length verts)%nat ->
  find_vert_idx_by_tmp_idx verts (Some p) = Some p.
Proof.
  intros Hnum Hp. destruct (lookup_lt_is_Some_2 verts p Hp) as [v Hv].
  destruct (find_survivor verts v (corners_numbered_NoDup _ Hnum)
              ltac:(by eapply list_elem_of_lookup_2)) as (i & Hfind & Hi).
  rewrite (Hnum p v Hv) in Hfind. rewrite Hfind. f_equal.
  apply Hnum in Hi. apply Hnum in Hv. congruence.
Qed.

Lemma find_past_end (verts : list vert) (p : nat) :
  corners_numbered verts -> (length verts <= p)%nat ->
  find_vert_idx_by_tmp_idx verts (Some p) = None.
Proof.
  intros Hnum Hp. apply find_absent. intros Hmem.
  apply list_elem_of_fmap in Hmem as (w & Hw & Hmem).
  apply list_elem_of_lookup in Hmem as [i Hi].
  pose proof (lookup_lt_Some _ _ _ Hi). apply Hnum in Hi. lia.
Qed.

(** X5: on numbered corners of which none compares equal, by the test of
    the loop (same source index, normal and UVs equal under the host's
    [==]), to a later one, the deduplication keeps the vertex list as it
    is; a face entry that names a corner stays, and one that names none
    becomes [None]. *)
Theorem cleanup_without_duplicates (vertices_list : list vert) (faces_list : list face) :
  corners_numbered vertices_list ->
  distinct_corners vertices_list ->
  cleanup_duplicate_verts vertices_list faces_list =
    (vertices_list, map (slot_face (length vertices_list) (fun p => p)) faces_list).
Proof.
  intros Hnum Hnd. unfold cleanup_duplicate_verts.
  rewrite (cleanup_outer_distinct_id _ _ ∅ Hnd). f_equal.
  apply map_ext. intros f. unfold remap_face, slot_face. f_equal.
  apply map_ext. intros [p|]; [|done]. unfold remap_vert_idx, slot_entry.
  rewrite lookup_empty. case_decide as Hp.
  - by apply find_own_position.
  - apply find_past_end; [done|lia].
Qed.

Lemma cleanup_without_duplicates_witness :
  cleanup_duplicate_verts (take 3 quad_corners) quad_faces =
    (take 3 quad_corners,
     [ {| verts := [Some 0; Some 1; Some 2]%nat; mat_idx := 0 |};
       {| verts := [None; None; None]; mat_idx := 1 |} ]).
Proof.
  rewrite (cleanup_without_duplicates (take 3 quad_corners) quad_faces).
  - reflexivity.
  - intros i v Hi. do 3 (destruct i as [|i]; [by inversion Hi|]). inversion Hi.
  - unfold quad_corners. cbn [take distinct_corners].
    repeat split; repeat (constructor; [by vm_compute|]); constructor.
Defined.

(** ** Bounds in the two buffer fillers *)

Lemma for_each_raises {A S : Type} (body : S -> A -> result S) (xs : list A)
    (s : S) (e0 e : exn) :
  (forall s x e, body s x = Raise e -> e = e0) ->
  for_each body xs s = Raise e -> e = e0.
Proof.
  intros Hbody. revert s. induction xs as [|x xs IH]; intros s Hrun; simpl in Hrun.
  - discriminate.
  - destruct (body s x) as [s'|e'] eqn:Hstep; simpl in Hrun.
    + by apply (IH s').
    + inversion Hrun; subst. by apply (Hbody s x).
Qed.

Lemma for_each_stuck {A S : Type} (body : S -> A -> result S) (xs : list A) (s s' : S) :
  Exists (fun x => forall s0 s1, body s0 x <> Ok s1) xs ->
  for_each body xs s <> Ok s'.
Proof.
  intros Hex. revert s. induction Hex as [x xs Hx|x xs Hex IH]; intros s Hrun;
    simpl in Hrun; inv_bind Hrun.
  - by apply (Hx s a).
  - by apply (IH a).
Qed.

Lemma index_raises {A : Type} (l : list A) (i : nat) (e : exn) :
  index l i = Raise e -> e = IndexError /\ (length l <= i)%nat.
Proof.
  unfold index. destruct (l !! i) eqn:Hi; [done|]. intros [= <-].
  split; [done|]. by apply lookup_ge_None.
Qed.

Lemma face_step_raises (g : dff.Geometry) (f : face) (e : exn) :
  face_step g f = Raise e -> e = IndexError.
Proof.
  unfold face_step. intros Hrun.
  destruct (index (verts f) 1) eqn:H1; simpl in Hrun;
    [|inversion Hrun; subst; by apply index_raises in H1 as [-> _]].
  destruct (index (verts f) 0) eqn:H0; simpl in Hrun;
    [|inversion Hrun; subst; by apply index_raises in H0 as [-> _]].
  destruct (index (verts f) 2) eqn:H2; simpl in Hrun;
    [discriminate|inversion Hrun; subst; by apply index_raises in H2 as [-> _]].
Qed.

(** X6: a face with fewer than three vertex entries makes
    [populate_geometry_from_faces_data] raise [IndexError]; no geometry
    is returned, whatever the other faces are. *)
Theorem short_face_raises_IndexError (faces_list : list face) (geometry : dff.Geometry) :
  Exists (fun f => (length (verts f) < 3)%nat) faces_list ->
  populate_geometry_from_faces_data faces_list geometry = Raise IndexError.
Proof.
  intros Hex. unfold populate_geometry_from_faces_data.
  destruct (for_each face_step faces_list geometry) as [g'|e] eqn:Hrun.
  - exfalso. revert Hrun. apply for_each_stuck.
    eapply Exists_impl; [exact Hex|]. intros f Hf s0 s1 Hstep.
    unfold face_step in Hstep. do 3 inv_bind Hstep.
    apply index_Ok, lookup_lt_Some in Ha1. simpl in Hf. lia.
  - f_equal. eapply for_each_raises; [|exact Hrun]. apply face_step_raises.
Qed.

Lemma short_face_raises_IndexError_witness :
  populate_geometry_from_faces_data
    (quad_faces ++ [ {| verts := [Some 0; Some 1]%nat; mat_idx := 0 |} ])
    dff.new_Geometry = Raise IndexError.
Proof.
  apply short_face_raises_IndexError.
  apply Exists_app. right. constructor. simpl. lia.
Defined.

Lemma setitem_raises {A : Type} (l : list A) (i : nat) (x : A) (e : exn) :
  setitem l i x = Raise e -> e = IndexError.
Proof. unfold setitem. case_decide; [done|]. by intros [= <-]. Qed.

Lemma bone_row_step_raises (rows : list nat * list Q) (ib : nat * (nat * Q)) (e : exn) :
  bone_row_step rows ib = Raise e -> e = IndexError.
Proof.
  destruct rows as [indices weights], ib as [i [bone w]]. unfold bone_row_step.
  intros Hrun.
  destruct (setitem indices i bone) eqn:H1; simpl in Hrun;
    [|inversion Hrun; subst; by apply setitem_raises in H1].
  destruct (setitem weights i w) eqn:H2; simpl in Hrun;
    [discriminate|inversion Hrun; subst; by apply setitem_raises in H2].
Qed.

Lemma bone_row_step_lengths (rows rows' : list nat * list Q) (ib : nat * (nat * Q)) :
  bone_row_step rows ib = Ok rows' ->
  (ib.1 < length rows.1)%nat /\ length rows'.1 = length rows.1 /\
  length rows'.2 = length rows.2.
Proof.
  destruct rows as [indices weights], ib as [i [bone w]]. unfold bone_row_step.
  intros Hrun. do 2 inv_bind Hrun. inversion Hrun; subst; simpl.
  apply setitem_Ok in Ha as [Hi ->]. apply setitem_Ok in Ha0 as [_ ->].
  by rewrite !length_insert.
Qed.

Lemma bone_rows_overflow (infl : list (nat * Q)) (k : nat) (rows rows' : list nat * list Q) :
  (k <= length rows.1)%nat ->
  (length rows.1 < k + length infl)%nat ->
  for_each bone_row_step (enumerate_from k infl) rows <> Ok rows'.
Proof.
  revert k rows. induction infl as [|ib infl IH]; intros k rows Hk Hlen Hrun;
    simpl in Hlen, Hrun; [lia|].
  inv_bind Hrun. apply bone_row_step_lengths in Ha as (Hi & Hl & _). simpl in Hi.
  apply (IH (S k) a); [lia|lia|done].
Qed.

Lemma skin_add_vertex_overflow (skin : dff.SkinPLG) (v : vert) :
  (4 < length (bones v))%nat -> skin_add_vertex skin v = Raise IndexError.
Proof.
  intros Hlen. unfold skin_add_vertex.
  destruct (for_each bone_row_step (enumerate (bones v))
              (replicate 4 0%nat, replicate 4 0%Q)) as [rows|e] eqn:Hrun.
  - exfalso. revert Hrun. apply bone_rows_overflow; simpl; lia.
  - simpl. f_equal. eapply for_each_raises; [|exact Hrun].
    apply bone_row_step_raises.
Qed.

Lemma vertex_step_raises (p n : bool) (max_uv : nat) (st : vertices_state) (v : vert)
    (e : exn) :
  vertex_step p n max_uv st v = Raise e -> e = IndexError.
Proof.
  unfold vertex_step. intros Hrun.
  match type of Hrun with (?m ≫= _) = _ => destruct m as [prelit|e1] eqn:H1 end;
    simpl in Hrun.
  2:{ inversion Hrun; subst e1. destruct p; [|discriminate].
      destruct (index (vert_cols v) 0) eqn:Hi; [discriminate|].
      simpl in H1. inversion H1; subst. by apply index_raises in Hi as [-> _]. }
  match type of Hrun with (?m ≫= _) = _ => destruct m as [extra|e2] eqn:H2 end;
    simpl in Hrun.
  2:{ inversion Hrun; subst e2. destruct n; [|discriminate].
      destruct (index (vert_cols v) 1) eqn:Hi; [discriminate|].
      simpl in H2. inversion H2; subst. by apply index_raises in Hi as [-> _]. }
  match type of Hrun with (?m ≫= _) = _ => destruct m as [skin|e3] eqn:H3 end;
    simpl in Hrun; [discriminate|].
  inversion Hrun; subst e3. destruct (vs_skin st) as [skin|]; [|discriminate].
  destruct (skin_add_vertex skin v) as [skin'|e4] eqn:H4; [discriminate|].
  simpl in H3. inversion H3; subst e4.
  unfold skin_add_vertex in H4.
  destruct (for_each bone_row_step (enumerate (bones v))
              (replicate 4 0%nat, replicate 4 0%Q)) as [[ri rw]|e5] eqn:H5;
    [discriminate|].
  simpl in H4. inversion H4; subst e5.
  eapply for_each_raises; [|exact H5]. apply bone_row_step_raises.
Qed.

(** With a skin, a vertex that carries more than four influences makes
    [populate_geometry_from_vertices_data] raise [IndexError]: the rows of
    a vertex have four places and the fifth write is out of range; a
    colour that is missing before that raises [IndexError] as well. *)
Lemma overflow_raises (vertices_list : list vert)
    (skin : dff.SkinPLG) (obj : bpy.Object) (geometry : dff.Geometry) :
  Exists (fun v => (4 < length (bones v))%nat) vertices_list ->
  populate_geometry_from_vertices_data vertices_list (Some skin) obj geometry =
    Raise IndexError.
Proof.
  intros Hex. unfold populate_geometry_from_vertices_data.
  match goal with |- (?m ≫= _) = _ => destruct m as [st|e] eqn:Hrun end; simpl.
  - exfalso.
    assert (Hgen : forall vs s0,
              is_Some (vs_skin s0) ->
              Exists (fun v => (4 < length (bones v))%nat) vs ->
              forall s1, for_each (vertex_step
                (bool_decide (0 < length (bpy.vertex_colors (bpy.mesh obj)))%nat
                 && bpy.day_cols obj)
                (bool_decide (1 < length (bpy.vertex_colors (bpy.mesh obj)))%nat
                 && bpy.night_cols obj)
                (max_uv_layers obj)) vs s0 <> Ok s1).
    { clear. intros vs s0 Hs0 Hex. revert s0 Hs0.
      induction Hex as [v vs Hv|v vs Hex IH]; intros s0 [sk Hs0] s1 Hrun;
        simpl in Hrun; inv_bind Hrun.
      - unfold vertex_step in Ha. do 3 inv_bind Ha. rewrite Hs0 in Ha2.
        rewrite (skin_add_vertex_overflow sk v Hv) in Ha2. discriminate.
      - assert (Hsome : is_Some (vs_skin a)).
        { unfold vertex_step in Ha. do 3 inv_bind Ha.
          inversion Ha; subst; simpl. rewrite Hs0 in Ha2. inv_bind Ha2.
          inversion Ha2. by eexists. }
        exact (IH a Hsome s1 Hrun). }
    eapply Hgen; [|exact Hex|exact Hrun]. by eexists.
  - f_equal. eapply for_each_raises; [|exact Hrun].
    intros s x e0. apply vertex_step_raises.
Qed.

(** ** The bounding sphere under scaling and translation *)

Lemma pymax_scale (k a b : Q) :
  (0 <= k)%Q -> (pymax (k * a) (k * b) == k * pymax a b)%Q.
Proof.
  intros Hk. unfold pymax.
  destruct (Qeq_dec k 0) as [Hz|Hnz].
  { destruct (k * a ?= k * b)%Q, (a ?= b)%Q; rewrite Hz; ring. }
  assert (Hpos : (0 < k)%Q).
  { apply Qle_lteq in Hk as [Hk|Hk]; [done|]. exfalso. apply Hnz. by symmetry. }
  destruct (k * a ?= k * b)%Q eqn:Hc; destruct (a ?= b)%Q eqn:Hab;
    try reflexivity; exfalso.
  - apply Qeq_alt, Qmult_inj_l in Hc; [|done]. apply Qlt_alt in Hab.
    rewrite Hc in Hab. by apply Qlt_irrefl in Hab.
  - apply Qlt_alt, Qmult_lt_l in Hc; [|done]. apply Qeq_alt in Hab.
    rewrite Hab in Hc. by apply Qlt_irrefl in Hc.
  - apply Qlt_alt, Qmult_lt_l in Hc; [|done]. apply Qgt_alt in Hab.
    apply (Qlt_irrefl a). by apply Qlt_trans with b.
  - apply Qgt_alt, Qmult_lt_l in Hc; [|done]. apply Qlt_alt in Hab.
    apply (Qlt_irrefl a). by apply Qlt_trans with b.
Qed.

Lemma pymax_proper (a a' b b' : Q) :
  (a == a')%Q -> (b == b')%Q -> (pymax a b == pymax a' b')%Q.
Proof.
  intros Ha Hb. unfold pymax. rewrite Ha, Hb.
  by destruct (a' ?= b')%Q.
Qed.

(** X8: the radius of the bounding sphere depends on the dimensions of
    the object only and grows in proportion with them: dimensions
    multiplied by a factor [k >= 0] give [k] times the radius.  The centre
    follows a translation of the world matrix. *)
Theorem bounding_sphere_scales_and_moves (obj obj' : bpy.Object) (k : Q) (t : Vector) :
  (0 <= k)%Q ->
  bpy.dimensions obj' = vec_scale k (bpy.dimensions obj) ->
  bpy.bound_box obj' = bpy.bound_box obj ->
  bpy.matrix_world obj' = translated t (bpy.matrix_world obj) ->
  (sphere_radius obj' == k * sphere_radius obj)%Q /\
  Vector_eq (sphere_center obj') (vec_add (sphere_center obj) t).
Proof.
  intros Hk Hd Hb Hm. split.
  - unfold sphere_radius. rewrite Hd.
    destruct (bpy.dimensions obj) as [[x y] z]. simpl.
    assert (Hmax : (pymax (pymax (k * x) (k * y)) (k * z) == k * pymax (pymax x y) z)%Q).
    { rewrite <- (pymax_scale k (pymax x y) z Hk).
      apply pymax_proper; [by apply pymax_scale | reflexivity]. }
    rewrite Hmax. field.
  - unfold sphere_center. rewrite Hm, Hb.
    destruct (vec_scale 0.125 (fold_left vec_add (bpy.bound_box obj) vec_zero))
      as [[x y] z].
    destruct (bpy.matrix_world obj) as [[[[[[a b] c] d] [[[e f] g] h]] [[[i j] l] m]] r4].
    destruct t as [[tx ty] tz]. simpl. repeat split; ring.
Qed.

Lemma bounding_sphere_scales_and_moves_witness :
  (sphere_radius quad_object_moved == 2 * sphere_radius quad_object)%Q /\
  Vector_eq (sphere_center quad_object_moved)
            (vec_add (sphere_center quad_object) (1, 0, 0)%Q).
Proof.
  apply (bounding_sphere_scales_and_moves quad_object quad_object_moved 2 (1, 0, 0)%Q).
  - discriminate.
  - reflexivity.
  - reflexivity.
  - reflexivity.
Defined.


(** ** Vertex groups and bones *)

Lemma vertex_group_index_Some (vertex_groups : list string) (name : string) (g : nat) :
  vertex_group_index vertex_groups name = Some g -> vertex_groups !! g = Some name.
Proof.
  unfold vertex_group_index. intros Hfind.
  destruct (list_find (fun g0 => g0 = name) vertex_groups) as [[i x]|] eqn:Hf; [|done].
  simpl in Hfind. inversion Hfind; subst i.
  apply list_find_Some in Hf as (Hi & -> & _). done.
Qed.

(** The groups recorded after the bones [prefix] have been visited name
    bones of [prefix], and none of their names that is a group is left
    out. *)
Lemma skin_bone_steps_groups (vertex_groups : list string)
    (prefix suffix : list bpy.Bone) (acc acc' : dff.SkinPLG * gmap nat nat) :
  for_each (skin_bone_step vertex_groups) (enumerate_from (length prefix) suffix) acc =
    Ok acc' ->
  ((forall g i, acc.2 !! g = Some i ->
      exists bone, prefix !! i = Some bone /\
                   vertex_groups !! g = Some (bpy.name (bpy.bone_node bone))) /\
   (forall i bone g, prefix !! i = Some bone ->
      vertex_group_index vertex_groups (bpy.name (bpy.bone_node bone)) = Some g ->
      is_Some (acc.2 !! g))) ->
  (forall g i, acc'.2 !! g = Some i ->
      exists bone, (prefix ++ suffix) !! i = Some bone /\
                   vertex_groups !! g = Some (bpy.name (bpy.bone_node bone))) /\
  (forall i bone g, (prefix ++ suffix) !! i = Some bone ->
      vertex_group_index vertex_groups (bpy.name (bpy.bone_node bone)) = Some g ->
      is_Some (acc'.2 !! g)).
Proof.
  revert prefix acc. induction suffix as [|b suffix IH]; intros prefix acc Hrun Hinv;
    simpl in Hrun.
  - inversion Hrun; subst acc'. by rewrite app_nil_r.
  - inv_bind Hrun.
    replace (S (length prefix)) with (length (prefix ++ [b])) in Hrun
      by (rewrite length_app; simpl; lia).
    replace (prefix ++ b :: suffix) with ((prefix ++ [b]) ++ suffix)
      by (by rewrite <- app_assoc).
    apply (IH (prefix ++ [b]) a Hrun). clear IH Hrun.
    destruct acc as [skin bg], Hinv as [Hsound Hcomplete]. simpl in *.
    unfold skin_bone_step in Ha.
    destruct (bpy.matrix_local_inverted b) as [inv|]; [|discriminate].
    destruct (vertex_group_index vertex_groups (bpy.name (bpy.bone_node b)))
      as [gb|] eqn:Hgb; inversion Ha; subst a; clear Ha; simpl; split.
    + intros g i Hg. destruct (decide (gb = g)) as [->|Hne].
      * rewrite lookup_insert_eq in Hg. inversion Hg; subst i.
        exists b. split; [by rewrite lookup_app_r, Nat.sub_diag by lia|].
        by apply vertex_group_index_Some.
      * rewrite lookup_insert_ne in Hg by done.
        destruct (Hsound g i Hg) as (bone & Hb & Hn).
        exists bone. split; [by apply lookup_app_l_Some|done].
    + intros i bone g Hi Hg. destruct (decide (gb = g)) as [->|Hne].
      * rewrite lookup_insert_eq. by eexists.
      * rewrite lookup_insert_ne by done.
        apply lookup_app_Some in Hi as [Hi|[Hge Hi]]; [by eapply Hcomplete|].
        apply list_lookup_singleton_Some in Hi as [_ <-]. congruence.
    + intros g i Hg. destruct (Hsound g i Hg) as (bone & Hb & Hn).
      exists bone. split; [by apply lookup_app_l_Some|done].
    + intros i bone g Hi Hg.
      apply lookup_app_Some in Hi as [Hi|[Hge Hi]]; [by eapply Hcomplete|].
      apply list_lookup_singleton_Some in Hi as [_ <-]. congruence.
Qed.

(** X9: without an armature modifier there is no skin and no bone group.
    With one, every entry of the bone groups leads from the index of a
    vertex group to the index of a bone of the armature that has the name
    of that group, and a bone whose name is the name of a vertex group has
    that group among the entries. *)
Theorem bone_groups_pair_groups_with_bones (obj : bpy.Object)
    (skin_plg : option dff.SkinPLG) (bone_groups : gmap nat nat) :
  get_skin_plg_and_bone_groups obj = Ok (skin_plg, bone_groups) ->
  match find_armature (bpy.modifiers obj) with
  | None => skin_plg = None /\ bone_groups = ∅
  | Some armature_bones =>
      (forall g i, bone_groups !! g = Some i ->
         exists bone,
           armature_bones !! i = Some bone /\
           bpy.vertex_groups obj !! g = Some (bpy.name (bpy.bone_node bone))) /\
      (forall i bone g,
         armature_bones !! i = Some bone ->
         vertex_group_index (bpy.vertex_groups obj) (bpy.name (bpy.bone_node bone)) =
           Some g ->
         is_Some (bone_groups !! g))
  end.
Proof.
  unfold get_skin_plg_and_bone_groups. intros Hrun.
  destruct (find_armature (bpy.modifiers obj)) as [armature_bones|];
    [|by inversion Hrun].
  inv_bind Hrun. destruct a as [skin' bg]. inversion Hrun; subst; clear Hrun.
  apply (skin_bone_steps_groups (bpy.vertex_groups obj) [] armature_bones) in Ha.
  - exact Ha.
  - simpl. split; [intros g i Hg; by rewrite lookup_empty in Hg|].
    intros i bone g Hi. by rewrite lookup_nil in Hi.
Qed.

Lemma bone_groups_pair_groups_with_bones_witness :
  exists skin bone_groups,
    get_skin_plg_and_bone_groups quad_object = Ok (Some skin, bone_groups) /\
    bone_groups !! 1%nat = Some 2%nat /\
    forall g i, bone_groups !! g = Some i ->
      exists bone,
        sample_bones !! i = Some bone /\
        bpy.vertex_groups quad_object !! g = Some (bpy.name (bpy.bone_node bone)).
Proof.
  destruct (get_skin_plg_and_bone_groups quad_object) as [[[skin|] bg]|e] eqn:Hrun;
    try (vm_compute in Hrun; discriminate Hrun).
  pose proof (bone_groups_pair_groups_with_bones quad_object (Some skin) bg Hrun)
    as [Hsound _].
  exists skin, bg. split; [reflexivity|]. split; [|exact Hsound].
  vm_compute in Hrun. inversion Hrun; subst bg. reflexivity.
Defined.

(** ** Bone indices in the skin rows *)

Lemma collect_bones_mapped (bone_groups : gmap nat nat)
    (groups : list bpy.VertexGroupElement) :
  Forall (fun iw => (exists g, bone_groups !! g = Some iw.1) /\ (0 < iw.2)%Q)
         (collect_bones bone_groups groups []).
Proof.
  rewrite (collect_bones_take bone_groups groups []) by (simpl; lia). simpl. apply Forall_take.
  apply Forall_forall. intros iw Hiw.
  apply list_elem_of_omap in Hiw as (g & _ & Hg). unfold bone_influence in Hg.
  destruct (bone_groups !! bpy.group g) as [bi|] eqn:Hbi; [|done].
  destruct (Qpositive (bpy.weight g)) eqn:Hpos; [|done]. inversion Hg; subst iw. simpl.
  split; [by eexists|]. unfold Qpositive in Hpos. apply Qlt_alt.
  by destruct (0 ?= bpy.weight g)%Q.
Qed.

Lemma polygons_bones_mapped (mesh : bpy.Mesh) (bone_groups : gmap nat nat)
    (ips : list (nat * bpy.MeshPolygon)) (acc acc' : list vert * list face) :
  Forall (fun v => Forall (fun iw => (exists g, bone_groups !! g = Some iw.1) /\
                                     (0 < iw.2)%Q) (bones v)) acc.1 ->
  for_each (polygon_step mesh bone_groups) ips acc = Ok acc' ->
  Forall (fun v => Forall (fun iw => (exists g, bone_groups !! g = Some iw.1) /\
                                     (0 < iw.2)%Q) (bones v)) acc'.1.
Proof.
  intros Hall Hrun.
  apply (for_each_invariant
           (fun a : list vert * list face =>
              Forall (fun v => Forall (fun iw => (exists g, bone_groups !! g = Some iw.1) /\
                                                 (0 < iw.2)%Q) (bones v)) a.1)
           (polygon_step mesh bone_groups) ips) with (s := acc); [|done|done].
  intros [vl fl] [i polygon] [vl' fl'] Hs _ Hstep. simpl in *.
  inv_bind Hstep. inversion Hstep; subst.
  apply (for_each_invariant
           (Forall (fun v => Forall (fun iw => (exists g, bone_groups !! g = Some iw.1) /\
                                               (0 < iw.2)%Q) (bones v)))
           (corner_step mesh bone_groups) (bpy.loop_indices polygon))
    with (s := vl); [|done|done].
  intros s x s' Hs' _ Hc. unfold corner_step in Hc. do 4 inv_bind Hc.
  inversion Hc; subst. apply Forall_app. split; [done|].
  constructor; [|constructor]. simpl. apply collect_bones_mapped.
Qed.

(** The rows that the vertex loop appends to the skin are, vertex by
    vertex, the padded influences of the vertex. *)
Lemma vertex_steps_rows (p n : bool) (max_uv : nat) (vertices_list : list vert)
    (st st' : vertices_state) (skin : dff.SkinPLG) :
  Forall (fun v => (length (bones v) <= 4)%nat) vertices_list ->
  vs_skin st = Some skin ->
  for_each (vertex_step p n max_uv) vertices_list st = Ok st' ->
  exists skin',
    vs_skin st' = Some skin' /\
    dff.bone_matrices skin' = dff.bone_matrices skin /\
    dff.vertex_bone_indices skin' =
      dff.vertex_bone_indices skin ++ map (fun v => padded_indices (bones v)) vertices_list /\
    dff.vertex_bone_weights skin' =
      dff.vertex_bone_weights skin ++ map (fun v => padded_weights (bones v)) vertices_list.
Proof.
  revert st skin. induction vertices_list as [|v vs IH]; intros st skin Hall Hskin Hrun;
    simpl in Hrun.
  - inversion Hrun; subst st'. exists skin. by rewrite !app_nil_r.
  - inversion Hall as [|? ? Hv Hvs]; subst. inv_bind Hrun.
    unfold vertex_step in Ha. do 2 inv_bind Ha. rewrite Hskin in Ha.
    inv_bind Ha. inv_bind Ha2. inversion Ha2; subst a2; clear Ha2.
    unfold skin_add_vertex in Ha3. rewrite (bone_rows _ Hv) in Ha3. simpl in Ha3.
    inversion Ha3; subst a3; clear Ha3. inversion Ha; subst a; clear Ha.
    eapply IH in Hrun; [|exact Hvs|reflexivity].
    destruct Hrun as (skin' & Hs' & Hm & Hi & Hw). simpl in Hm, Hi, Hw.
    exists skin'. split; [done|]. split; [done|]. simpl.
    by rewrite Hi, Hw, <- !app_assoc.
Qed.

Lemma padded_position (infl : list (nat * Q)) (p i : nat) (w : Q) :
  padded_indices infl !! p = Some i ->
  padded_weights infl !! p = Some w ->
  infl !! p = Some (i, w) \/ (length infl <= p)%nat /\ i = 0%nat /\ w = 0%Q.
Proof.
  unfold padded_indices, padded_weights. intros Hi Hw.
  destruct (decide (p < length infl)%nat) as [Hlt|Hge].
  - left. rewrite lookup_app_l in Hi by (by rewrite length_map).
    rewrite lookup_app_l in Hw by (by rewrite length_map).
    rewrite list_lookup_fmap in Hi. rewrite list_lookup_fmap in Hw.
    destruct (infl !! p) as [[i0 w0]|]; [|done]. simpl in Hi, Hw. congruence.
  - right. rewrite lookup_app_r in Hi by (rewrite length_map; lia).
    rewrite lookup_app_r in Hw by (rewrite length_map; lia).
    apply lookup_replicate in Hi as [-> _]. apply lookup_replicate in Hw as [-> _].
    split; [lia|done].
Qed.

(** X10: in the skin of a geometry built for an object with an armature
    modifier, every place of every row either holds an influence, a
    positive weight with the index of a bone of the armature (the index of
    one of its matrices), or is padding, index 0 with weight 0. *)
Theorem skin_rows_name_bones (obj : bpy.Object) (armature_bones : list bpy.Bone)
    (geometry : dff.Geometry) :
  find_armature (bpy.modifiers obj) = Some armature_bones ->
  populate_geometry_with_mesh_data obj dff.new_Geometry = Ok geometry ->
  exists skin,
    dff.ext_skin geometry = Some skin /\
    forall (j p i : nat) (w : Q) (indices : list nat) (weights : list Q),
      dff.vertex_bone_indices skin !! j = Some indices ->
      dff.vertex_bone_weights skin !! j = Some weights ->
      indices !! p = Some i ->
      weights !! p = Some w ->
      ((0 < w)%Q /\ (i < length armature_bones)%nat /\
       (i < length (dff.bone_matrices skin))%nat) \/
      (i = 0%nat /\ w = 0%Q).
Proof.
  intros Harm Hrun.
  destruct (with_mesh_data_stages _ _ _ Hrun)
    as (skin_plg & bone_groups & vl & fl & g1 & Hskin & Hpoly & Hverts & Hfaces).
  assert (Hsound : forall g i, bone_groups !! g = Some i ->
            exists bone, armature_bones !! i = Some bone /\
              bpy.vertex_groups obj !! g = Some (bpy.name (bpy.bone_node bone))).
  { pose proof Hskin as Hgroups. unfold get_skin_plg_and_bone_groups in Hgroups.
    rewrite Harm in Hgroups. inv_bind Hgroups. destruct a as [skin' bg].
    inversion Hgroups; subst; clear Hgroups.
    apply (skin_bone_steps_groups (bpy.vertex_groups obj) [] armature_bones) in Ha.
    - exact (proj1 Ha).
    - simpl. split; [intros g i Hg; by rewrite lookup_empty in Hg|].
      intros i bone g Hi. by rewrite lookup_nil in Hi. }
  destruct (get_skin_plg_shape _ _ _ _ Harm Hskin)
    as (skin0 & -> & Hn0 & Hm0 & Hi0 & Hw0).
  apply from_faces_keeps in Hfaces as (_ & _ & Hext).
  pose proof (polygons_bones_mapped _ _ _ ([], []) (vl, fl) ltac:(constructor) Hpoly)
    as Hmapped.
  pose proof (polygons_ok _ _ _ ([], []) (vl, fl) ltac:(constructor) Hpoly) as Hok.
  simpl in Hmapped, Hok.
  assert (Hsub : (cleanup_duplicate_verts vl fl).1 `sublist_of` vl).
  { unfold cleanup_duplicate_verts.
    pose proof (cleanup_outer_sublist (length vl) vl ∅) as Hsub.
    by destruct (cleanup_outer (length vl) vl ∅). }
  unfold populate_geometry_from_vertices_data in Hverts. inv_bind Hverts.
  assert (Hfour : Forall (fun v => (length (bones v) <= 4)%nat)
                         (cleanup_duplicate_verts vl fl).1).
  { apply Forall_forall. intros v Hv.
    assert (Hv' : v ∈ vl) by (by eapply elem_of_sublist).
    rewrite Forall_forall in Hok. by destruct (Hok v Hv'). }
  pose proof Ha as Hrows.
  eapply vertex_steps_rows in Hrows; [|exact Hfour|reflexivity].
  destruct Hrows as (skin & Hs & Hm & Hi & Hw).
  inversion Hverts; subst g1; clear Hverts. simpl in Hext. rewrite Hs in Hext.
  exists skin. split; [done|].
  assert (Hmat : length (dff.bone_matrices skin) = length armature_bones)
    by (by rewrite Hm).
  intros j p i w indices weights Hji Hjw Hpi Hpw.
  rewrite Hi, Hi0 in Hji. rewrite Hw, Hw0 in Hjw. simpl in Hji, Hjw.
  rewrite list_lookup_fmap in Hji. rewrite list_lookup_fmap in Hjw.
  destruct ((cleanup_duplicate_verts vl fl).1 !! j) as [v|] eqn:Hv; [|done].
  simpl in Hji, Hjw. inversion Hji; subst indices. inversion Hjw; subst weights.
  destruct (padded_position _ _ _ _ Hpi Hpw) as [Hinfl|(_ & -> & ->)]; [|by right].
  left.
  assert (Hv' : v ∈ vl).
  { eapply elem_of_sublist; [|exact Hsub]. by eapply list_elem_of_lookup_2. }
  rewrite Forall_forall in Hmapped. specialize (Hmapped v Hv').
  rewrite Forall_forall in Hmapped.
  destruct (Hmapped (i, w) ltac:(by eapply list_elem_of_lookup_2)) as [[g Hg] Hpos].
  simpl in Hg, Hpos. destruct (Hsound g i Hg) as (bone & Hbone & _).
  apply lookup_lt_Some in Hbone. split; [done|]. split; [done|lia].
Qed.

Lemma skin_rows_name_bones_witness :
  exists geometry skin,
    populate_geometry_with_mesh_data quad_object dff.new_Geometry = Ok geometry /\
    dff.ext_skin geometry = Some skin /\
    forall (j p i : nat) (w : Q) (indices : list nat) (weights : list Q),
      dff.vertex_bone_indices skin !! j = Some indices ->
      dff.vertex_bone_weights skin !! j = Some weights ->
      indices !! p = Some i ->
      weights !! p = Some w ->
      ((0 < w)%Q /\ (i < length sample_bones)%nat /\
       (i < length (dff.bone_matrices skin))%nat) \/
      (i = 0%nat /\ w = 0%Q).
Proof.
  destruct (populate_geometry_with_mesh_data quad_object dff.new_Geometry)
    as [geometry|e] eqn:Hrun; [|vm_compute in Hrun; discriminate Hrun].
  destruct (skin_rows_name_bones quad_object sample_bones geometry eq_refl Hrun)
    as (skin & Hskin & Hrows).
  exists geometry, skin. split; [reflexivity|]. split; [exact Hskin|exact Hrows].
Defined.

(** ** From the polygons of the mesh to the triangles of the geometry *)

Lemma collect_Forall2 {A B : Type} (f : A -> result B) (xs : list A) (ys : list B) :
  collect f xs = Ok ys -> Forall2 (fun x y => f x = Ok y) xs ys.
Proof.
  revert ys. induction xs as [|x xs IH]; intros ys Hrun; simpl in Hrun.
  - inversion Hrun. constructor.
  - do 2 inv_bind Hrun. inversion Hrun; subst ys. constructor; [done|by apply IH].
Qed.

Lemma corner_step_from (mesh : bpy.Mesh) (bone_groups : gmap nat nat)
    (vertices_list vertices_list' : list vert) (loop_index : nat) :
  corner_step mesh bone_groups vertices_list loop_index = Ok vertices_list' ->
  exists v, vertices_list' = vertices_list ++ [v] /\ corner_from mesh loop_index v.
Proof.
  intros Hrun. unfold corner_step in Hrun. do 4 inv_bind Hrun.
  inversion Hrun; subst vertices_list'; clear Hrun.
  eexists. split; [reflexivity|].
  apply index_Ok in Ha, Ha0. exists a, a0. simpl.
  repeat split; try done.
  apply collect_Forall2 in Ha1.
  eapply Forall2_impl; [exact Ha1|]. intros layer uv Hi. by apply index_Ok in Hi.
Qed.

Lemma corner_steps_from (mesh : bpy.Mesh) (bone_groups : gmap nat nat)
    (loop_indices : list nat) (vertices_list vertices_list' : list vert) :
  for_each (corner_step mesh bone_groups) loop_indices vertices_list = Ok vertices_list' ->
  exists new,
    vertices_list' = vertices_list ++ new /\ Forall2 (corner_from mesh) loop_indices new.
Proof.
  revert vertices_list. induction loop_indices as [|l ls IH]; intros vl Hrun;
    simpl in Hrun.
  - inversion Hrun; subst. exists []. split; [by rewrite app_nil_r|constructor].
  - inv_bind Hrun. apply corner_step_from in Ha as (v & -> & Hv).
    apply IH in Hrun as (new & -> & Hnew).
    exists (v :: new). split; [by rewrite <- app_assoc|by constructor].
Qed.

(** The corners collected from a run of polygons are those of their
    loops, in order, and the face of the polygon at position [k] names the
    positions [3k], [3k+1] and [3k+2]. *)
Lemma polygon_steps_from (mesh : bpy.Mesh) (bone_groups : gmap nat nat)
    (polygons : list bpy.MeshPolygon) (k : nat) (acc acc' : list vert * list face) :
  for_each (polygon_step mesh bone_groups) (enumerate_from k polygons) acc = Ok acc' ->
  (exists new,
     acc'.1 = acc.1 ++ new /\
     Forall2 (corner_from mesh) (concat (map bpy.loop_indices polygons)) new) /\
  acc'.2 =
    acc.2 ++
    imap (fun i polygon =>
            {| verts := [Some ((k + i) * 3); Some ((k + i) * 3 + 1);
                         Some ((k + i) * 3 + 2)]%nat;
               mat_idx := bpy.material_index polygon |}) polygons.
Proof.
  revert k acc. induction polygons as [|p ps IH]; intros k [vl fl] Hrun; simpl in Hrun.
  - inversion Hrun; subst. simpl. rewrite app_nil_r.
    split; [|done]. exists []. rewrite app_nil_r. split; [done|constructor].
  - inv_bind Hrun. simpl in Ha. inv_bind Ha. inversion Ha; subst a; clear Ha.
    apply corner_steps_from in Ha0 as (new1 & -> & Hnew1).
    apply IH in Hrun as ((new2 & Hv & Hnew2) & Hfaces). cbn [fst snd] in *.
    split.
    + exists (new1 ++ new2). split; [by rewrite Hv, <- app_assoc|].
      by apply Forall2_app.
    + rewrite Hfaces, <- app_assoc. f_equal. rewrite imap_cons, Nat.add_0_r.
      cbn [app]. f_equal.
      apply imap_ext. intros i polygon _. unfold compose.
      replace (S k + i)%nat with (k + S i)%nat by lia. done.
Qed.

Lemma concat_triples {A : Type} (ls : list (list A)) (k c : nat) (l : list A) (x : A) :
  Forall (fun l0 => length l0 = 3%nat) ls ->
  ls !! k = Some l -> l !! c = Some x ->
  concat ls !! (k * 3 + c)%nat = Some x.
Proof.
  revert k. induction ls as [|l0 ls IH]; intros k Hall Hk Hc; [done|].
  inversion Hall as [|? ? Hl0 Hls]; subst. destruct k as [|k]; simpl in Hk.
  - inversion Hk; subst l0. simpl. by apply lookup_app_l_Some.
  - cbn [concat]. rewrite lookup_app_r by lia. rewrite Hl0.
    replace (S k * 3 + c - 3)%nat with (k * 3 + c)%nat by lia. by apply IH.
Qed.

(** The vertex loop appends, per vertex, its position and its normal. *)
Lemma vertex_steps_buffers (p n : bool) (max_uv : nat) (vertices_list : list vert)
    (st st' : vertices_state) :
  for_each (vertex_step p n max_uv) vertices_list st = Ok st' ->
  dff.vertices (vs_geometry st') = dff.vertices (vs_geometry st) ++ map co vertices_list /\
  dff.normals (vs_geometry st') =
    dff.normals (vs_geometry st) ++ map normal vertices_list /\
  dff.triangles (vs_geometry st') = dff.triangles (vs_geometry st).
Proof.
  revert st. induction vertices_list as [|v vs IH]; intros st Hrun; simpl in Hrun.
  - inversion Hrun; subst. by rewrite !app_nil_r.
  - inv_bind Hrun. apply IH in Hrun as (Hv & Hn & Ht).
    unfold vertex_step in Ha. do 3 inv_bind Ha. inversion Ha; subst a; clear Ha.
    simpl in *. rewrite Hv, Hn, Ht, <- !app_assoc. done.
Qed.

(** The face loop appends one triangle per face: its entries are the
    entries of the face and its material is the face's. *)
Lemma face_steps_triangles (faces_list : list face) (g g' : dff.Geometry) :
  for_each face_step faces_list g = Ok g' ->
  exists new,
    dff.triangles g' = dff.triangles g ++ new /\
    dff.vertices g' = dff.vertices g /\
    dff.normals g' = dff.normals g /\
    Forall2 (fun f t => verts f !! 0%nat = Some (dff.a t) /\
                        verts f !! 1%nat = Some (dff.b t) /\
                        verts f !! 2%nat = Some (dff.c t) /\
                        dff.material t = mat_idx f) faces_list new.
Proof.
  revert g. induction faces_list as [|f fs IH]; intros g Hrun; simpl in Hrun.
  - inversion Hrun; subst. exists []. rewrite app_nil_r. repeat split. constructor.
  - inv_bind Hrun. apply IH in Hrun as (new & Ht & Hv & Hn & Hall).
    unfold face_step in Ha. do 3 inv_bind Ha. inversion Ha; subst a; clear Ha.
    apply index_Ok in Ha0, Ha1, Ha2. simpl in *.
    eexists (_ :: new). split; [by rewrite Ht, <- app_assoc|].
    split; [done|]. split; [done|]. constructor; [|done]. by simpl.
Qed.

(** ** The UV layers of the geometry *)

Lemma grow_uv_layers_lookup (index j : nat) (uv_layers : list (list dff.TexCoords)) :
  default [] (grow_uv_layers index uv_layers !! j) = default [] (uv_layers !! j).
Proof.
  unfold grow_uv_layers. destruct (decide (j < length uv_layers)%nat) as [Hlt|Hge].
  - by rewrite lookup_app_l.
  - rewrite lookup_app_r by lia. rewrite (lookup_ge_None_2 uv_layers j) by lia.
    destruct (replicate _ _ !! _) as [layer|] eqn:Hl; [|done].
    by apply lookup_replicate in Hl as [-> _].
Qed.

Lemma grow_uv_layers_length (index : nat) (uv_layers : list (list dff.TexCoords)) :
  length (grow_uv_layers index uv_layers) = Nat.max (length uv_layers) (S index).
Proof.
  unfold grow_uv_layers. rewrite length_app, length_replicate. lia.
Qed.

(** What the loop over the UVs of one vertex adds to the layer [j]. *)
Lemma uv_loop_lookup (max_uv k : nat) (us : list bpy.UV)
    (uv_layers : list (list dff.TexCoords)) (j : nat) :
  default [] (uv_loop max_uv (enumerate_from k us) uv_layers !! j) =
  default [] (uv_layers !! j) ++
  (if decide (k <= j < max_uv)%nat then option_list (flip_v <$> us !! (j - k)%nat) else []).
Proof.
  revert k uv_layers. induction us as [|[x y] us IH]; intros k uv_layers; simpl.
  - destruct (decide _); by rewrite app_nil_r.
  - destruct (decide (max_uv <= k)%nat) as [Hstop|Hgo].
    + rewrite decide_False by lia. by rewrite app_nil_r.
    + rewrite IH. destruct (decide (j = k)) as [->|Hne].
      * rewrite list_lookup_alter.
        assert (Hsome : is_Some (grow_uv_layers k uv_layers !! k)).
        { apply lookup_lt_is_Some. rewrite grow_uv_layers_length. lia. }
        destruct Hsome as [layer Hlayer].
        pose proof (grow_uv_layers_lookup k k uv_layers) as Hgrow.
        rewrite Hlayer in *. simpl in Hgrow. simpl. rewrite Hgrow.
        rewrite (decide_False (P := (S k <= k < max_uv)%nat)) by lia.
        rewrite (decide_True (P := (k <= k < max_uv)%nat)) by lia.
        rewrite Nat.sub_diag. simpl. rewrite decide_True by done. simpl.
        by rewrite app_nil_r.
      * rewrite list_lookup_alter_ne by done. rewrite grow_uv_layers_lookup.
        destruct (decide (k <= j < max_uv)%nat) as [Hin|Hout].
        -- rewrite (decide_True (P := (S k <= j < max_uv)%nat)) by lia.
           replace (j - k)%nat with (S (j - S k)) by lia. done.
        -- by rewrite (decide_False (P := (S k <= j < max_uv)%nat)) by lia.
Qed.

Lemma uv_loop_length_exact (max_uv k : nat) (us : list bpy.UV)
    (uv_layers : list (list dff.TexCoords)) :
  (Nat.min max_uv k <= length uv_layers)%nat ->
  length (uv_loop max_uv (enumerate_from k us) uv_layers) =
    Nat.max (length uv_layers) (Nat.min max_uv (k + length us)).
Proof.
  revert k uv_layers. induction us as [|[x y] us IH]; intros k uv_layers Hk; simpl.
  - lia.
  - destruct (decide (max_uv <= k)%nat) as [Hstop|Hgo]; [lia|].
    rewrite IH; rewrite length_alter, grow_uv_layers_length; lia.
Qed.

(** What the vertex loop makes of the UV layers: layer [j] is extended by
    the [j]-th UVs of the vertices, and the layers that exist afterwards are
    those that existed before and those below the limit for which some
    vertex has a UV. *)
Lemma vertex_steps_uv_layers (p n : bool) (max_uv : nat) (vertices_list : list vert)
    (st st' : vertices_state) :
  for_each (vertex_step p n max_uv) vertices_list st = Ok st' ->
  (forall j,
     default [] (dff.uv_layers (vs_geometry st') !! j) =
     default [] (dff.uv_layers (vs_geometry st) !! j) ++
     (if decide (j < max_uv)%nat then uv_column vertices_list j else [])) /\
  (forall j,
     (j < length (dff.uv_layers (vs_geometry st')))%nat <->
     (j < length (dff.uv_layers (vs_geometry st)))%nat \/
     ((j < max_uv)%nat /\
      Exists (fun v => (j < length (uvs v))%nat) vertices_list)).
Proof.
  revert st. induction vertices_list as [|v vs IH]; intros st Hrun; simpl in Hrun.
  - inversion Hrun; subst. split.
    + intros j. unfold uv_column. simpl. destruct (decide _); by rewrite app_nil_r.
    + intros j. rewrite Exists_nil. tauto.
  - inv_bind Hrun. apply IH in Hrun as [Hcol Hlen].
    unfold vertex_step in Ha. do 3 inv_bind Ha. inversion Ha; subst a; clear Ha.
    simpl in Hcol, Hlen. unfold enumerate in Hcol, Hlen. split.
    + intros j. rewrite Hcol, uv_loop_lookup, <- app_assoc. f_equal.
      rewrite Nat.sub_0_r. unfold uv_column. simpl.
      destruct (decide (j < max_uv)%nat) as [Hlt|Hge].
      * rewrite (decide_True (P := (0 <= j < max_uv)%nat)) by lia.
        by destruct (uvs v !! j).
      * by rewrite (decide_False (P := (0 <= j < max_uv)%nat)) by lia.
    + intros j. rewrite Hlen, uv_loop_length_exact by lia. rewrite Exists_cons.
      rewrite Nat.add_0_l.
      generalize (Exists (fun v0 : vert => (j < length (uvs v0))%nat) vs).
      intros E. split; intros H; intuition lia.
Qed.

Lemma omap_lookup_total {A B : Type} (f : A -> option B) (l : list A) (i : nat) :
  Forall (fun x => is_Some (f x)) l -> omap f l !! i = l !! i ≫= f.
Proof.
  revert i. induction l as [|x l IH]; intros i Hall; [done|].
  inversion Hall as [|? ? [y Hy] Hl]; subst. simpl. rewrite Hy.
  destruct i as [|i]; simpl; [done|]. by apply IH.
Qed.

Lemma uv_columns (vertices_list : list vert)
    (skin_plg : option dff.SkinPLG) (obj : bpy.Object) (geometry geometry' : dff.Geometry) :
  dff.uv_layers geometry = [] ->
  populate_geometry_from_vertices_data vertices_list skin_plg obj geometry =
    Ok geometry' ->
  (forall j,
     is_Some (dff.uv_layers geometry' !! j) <->
     (j < max_uv_layers obj)%nat /\
     Exists (fun v => (j < length (uvs v))%nat) vertices_list) /\
  (forall j layer,
     dff.uv_layers geometry' !! j = Some layer -> layer = uv_column vertices_list j).
Proof.
  intros Hempty Hrun. unfold populate_geometry_from_vertices_data in Hrun.
  inv_bind Hrun. inversion Hrun; subst geometry'; clear Hrun. simpl.
  apply vertex_steps_uv_layers in Ha as [Hcol Hlen]. simpl in Hcol, Hlen.
  rewrite Hempty in Hcol, Hlen. simpl in Hlen. split.
  - intros j. rewrite lookup_lt_is_Some, Hlen. intuition lia.
  - intros j layer Hj. specialize (Hcol j). rewrite Hj, lookup_nil in Hcol.
    simpl in Hcol. rewrite Hcol. rewrite decide_True; [done|].
    apply lookup_lt_Some in Hj. apply Hlen in Hj. intuition lia.
Qed.

Lemma omap_length_total {A B : Type} (f : A -> option B) (l : list A) :
  Forall (fun x => is_Some (f x)) l -> length (omap f l) = length l.
Proof.
  induction l as [|x l IH]; intros Hall; [done|].
  inversion Hall as [|? ? [y Hy] Hl]; subst. simpl. rewrite Hy. simpl.
  f_equal. by apply IH.
Qed.

(** X11: the UV layers of a geometry filled from a list of vertices: layer
    [j] exists exactly if [j] is below the limit of the object and some
    vertex has a [j]-th UV, and it holds the [j]-th UVs of the vertices in
    order, each with its second coordinate flipped. *)
Theorem uv_layers_are_columns (vertices_list : list vert)
    (skin_plg : option dff.SkinPLG) (obj : bpy.Object) (geometry geometry' : dff.Geometry) :
  dff.uv_layers geometry = [] ->
  populate_geometry_from_vertices_data vertices_list skin_plg obj geometry =
    Ok geometry' ->
  (forall j,
     is_Some (dff.uv_layers geometry' !! j) <->
     (j < max_uv_layers obj)%nat /\
     Exists (fun v => (j < length (uvs v))%nat) vertices_list) /\
  (forall j layer,
     dff.uv_layers geometry' !! j = Some layer -> layer = uv_column vertices_list j).
Proof.
  apply uv_columns.
Qed.

Lemma uv_layers_are_columns_witness :
  exists geometry',
    populate_geometry_from_vertices_data quad_corners None
      (sample_object "MESH" "quad" None 0) dff.new_Geometry = Ok geometry' /\
    (forall j,
       is_Some (dff.uv_layers geometry' !! j) <->
       (j < 2)%nat /\ Exists (fun v => (j < length (uvs v))%nat) quad_corners) /\
    (forall j layer,
       dff.uv_layers geometry' !! j = Some layer -> layer = uv_column quad_corners j).
Proof.
  destruct (populate_geometry_from_vertices_data quad_corners None
              (sample_object "MESH" "quad" None 0) dff.new_Geometry)
    as [geometry'|e] eqn:Hrun; [|vm_compute in Hrun; discriminate Hrun].
  exists geometry'. split; [reflexivity|].
  exact (uv_layers_are_columns quad_corners None (sample_object "MESH" "quad" None 0)
           dff.new_Geometry geometry' eq_refl Hrun).
Defined.

(** A face entry that names a collected corner comes out as the position
    of a stored vertex with the position that the mesh has at the loop of
    that corner, and with a normal and UVs that the host's [==] takes for
    the ones of that loop. *)
Lemma resolved_corner (mesh : bpy.Mesh) (loop_indices : list nat)
    (vertices_list : list vert) (p l : nat) :
  corners_numbered vertices_list ->
  Forall2 (corner_from mesh) loop_indices vertices_list ->
  loop_indices !! p = Some l ->
  exists i s loop mv,
    remap_vert_idx (cleanup_outer (length vertices_list) vertices_list ∅).1
                   (cleanup_outer (length vertices_list) vertices_list ∅).2 (Some p) =
      Some i /\
    (cleanup_outer (length vertices_list) vertices_list ∅).1 !! i = Some s /\
    bpy.loops mesh !! l = Some loop /\
    bpy.vertices mesh !! bpy.vertex_index loop = Some mv /\
    co s = bpy.co mv /\
    Vector_host_eq (normal s) (bpy.normal loop) = true /\
    exists loop_uvs,
      Forall2 (fun layer uv => layer !! l = Some uv) (bpy.uv_layers mesh) loop_uvs /\
      uvs_host_eq (uvs s) loop_uvs = true.
Proof.
  intros Hnum Hall Hp.
  destruct (Forall2_lookup_l _ _ _ _ _ Hall Hp) as (vp & Hvp & Hfrom).
  destruct (corner_resolves _ _ _ Hnum Hvp) as (i & s & Hremap & Hi & Hs & Hkey & _ & _).
  apply same_corner_parts in Hkey as (Hidx & Hnormal & Huvs).
  apply list_elem_of_lookup_1 in Hs as [q Hq].
  destruct (Forall2_lookup_r _ _ _ _ _ Hall Hq) as (l' & _ & Hfrom').
  destruct Hfrom as (loop & mv & Hloop & Hmv & Hi1 & Hco & Hn & Hu).
  destruct Hfrom' as (loop' & mv' & Hloop' & Hmv' & Hi1' & Hco' & Hn' & Hu').
  exists i, s, loop, mv.
  split; [done|]. split; [done|]. split; [done|]. split; [done|].
  split; [|split].
  - rewrite Hco'. f_equal. rewrite <- Hi1', Hidx, Hi1 in Hmv'. congruence.
  - by rewrite <- Hn.
  - by exists (uvs vp).
Qed.

(** X12: for a triangulated mesh the geometry has one triangle per
    polygon, in polygon order and with the material index of the polygon,
    and the three entries of the triangle name stored vertices that have
    the positions of the vertices of the three loops of the polygon, and
    normals and (flipped) UVs that the host's [==] takes for the normals
    and the UVs of those loops: a corner that was merged into an earlier
    one is drawn with the normal and the UVs of that one. *)
Theorem triangles_reproduce_polygons (obj : bpy.Object) (geometry : dff.Geometry) :
  triangulated (bpy.mesh obj) ->
  populate_geometry_with_mesh_data obj dff.new_Geometry = Ok geometry ->
  length (dff.triangles geometry) = length (bpy.polygons (bpy.mesh obj)) /\
  forall (k : nat) (polygon : bpy.MeshPolygon) (l0 l1 l2 : nat),
    bpy.polygons (bpy.mesh obj) !! k = Some polygon ->
    bpy.loop_indices polygon = [l0; l1; l2] ->
    exists triangle,
      dff.triangles geometry !! k = Some triangle /\
      dff.material triangle = bpy.material_index polygon /\
      corner_stored (bpy.mesh obj) geometry l0 (dff.a triangle) /\
      corner_stored (bpy.mesh obj) geometry l1 (dff.b triangle) /\
      corner_stored (bpy.mesh obj) geometry l2 (dff.c triangle).
Proof.
  intros Htri Hrun.
  destruct (with_mesh_data_stages _ _ _ Hrun)
    as (skin_plg & bone_groups & vl & fl & g1 & Hskin & Hpoly & Hverts & Hfaces).
  destruct (collected_corners_numbered _ _ _ _ Hpoly) as (Hnum & _ & _).
  unfold enumerate in Hpoly.
  apply polygon_steps_from in Hpoly as ((new & Hvl & Hcorners) & Hfl).
  simpl in Hvl, Hfl. subst new.
  unfold cleanup_duplicate_verts in Hverts, Hfaces.
  destruct (cleanup_outer (length vl) vl ∅) as [stored removed] eqn:Hclean.
  simpl in Hverts, Hfaces.
  assert (Hwidth : Forall (fun v => length (uvs v) =
                                   length (bpy.uv_layers (bpy.mesh obj))) stored).
  { apply Forall_forall. intros v Hv.
    assert (Hv' : v ∈ vl).
    { eapply elem_of_sublist; [exact Hv|].
      pose proof (cleanup_outer_sublist (length vl) vl ∅) as Hsub.
      by rewrite Hclean in Hsub. }
    apply list_elem_of_lookup_1 in Hv' as [q Hq].
    destruct (Forall2_lookup_r _ _ _ _ _ Hcorners Hq)
      as (l & _ & loop & mv & _ & _ & _ & _ & _ & Hu).
    by rewrite (Forall2_length _ _ _ Hu). }
  pose proof (uv_columns stored skin_plg obj dff.new_Geometry g1 eq_refl Hverts) as Hcols.
  pose proof (from_faces_keeps _ _ _ Hfaces) as (_ & Huvs & _).
  unfold populate_geometry_from_vertices_data in Hverts. inv_bind Hverts.
  apply vertex_steps_buffers in Ha as (Hv & Hn & Ht). simpl in Hv, Hn, Ht.
  inversion Hverts; subst g1; clear Hverts.
  apply face_steps_triangles in Hfaces as (ts & Hts & Hvs & Hns & Hall).
  simpl in Hts, Hvs, Hns. rewrite Ht in Hts. simpl in Hts.
  rewrite Hv in Hvs. rewrite Hn in Hns.
  split.
  { rewrite Hts, <- (Forall2_length _ _ _ Hall), length_map, Hfl, length_imap. done. }
  intros k polygon l0 l1 l2 Hk Hloops.
  assert (Hface : map (remap_face stored removed) fl !! k =
                  Some (remap_face stored removed
                          {| verts := [Some (k * 3); Some (k * 3 + 1);
                                       Some (k * 3 + 2)]%nat;
                             mat_idx := bpy.material_index polygon |})).
  { rewrite list_lookup_fmap, Hfl, list_lookup_imap, Hk. done. }
  destruct (Forall2_lookup_l _ _ _ _ _ Hall Hface) as (t & Hkt & Ha0 & Hb0 & Hc0 & Hm).
  simpl in Ha0, Hb0, Hc0, Hm.
  exists t. rewrite Hts. split; [done|]. split; [done|].
  assert (Hstored : forall (c l : nat),
             bpy.loop_indices polygon !! c = Some l ->
             corner_stored (bpy.mesh obj) geometry l
               (remap_vert_idx stored removed (Some (k * 3 + c)%nat))).
  { intros c l Hc.
    assert (Hp : all_loop_indices (bpy.mesh obj) !! (k * 3 + c)%nat = Some l).
    { unfold all_loop_indices.
      apply concat_triples with (l := bpy.loop_indices polygon); [| |done].
      - apply Forall_fmap. exact Htri.
      - by rewrite list_lookup_fmap, Hk. }
    destruct (resolved_corner _ _ _ _ _ Hnum Hcorners Hp)
      as (i & s & loop & mv & Hremap & Hi & Hloop & Hmv & Hco & Hnormal &
          loop_uvs & Huv & Hsame).
    rewrite Hclean in Hremap, Hi. simpl in Hremap, Hi.
    exists i, loop, mv, (normal s).
    split; [done|]. split; [done|]. split; [done|].
    split; [by rewrite Hvs, list_lookup_fmap, Hi, <- Hco|].
    split; [by rewrite Hns, list_lookup_fmap, Hi|].
    split; [done|].
    intros j layer Hj. rewrite Huvs in Hj.
    pose proof (proj2 Hcols j layer Hj) as Hlayer.
    assert (Hjs : (j < length (uvs s))%nat).
    { destruct (proj1 (proj1 Hcols j) (mk_is_Some _ _ Hj)) as [_ Hex].
      apply Exists_exists in Hex as (v & Hv' & Hlt).
      rewrite Forall_forall in Hwidth.
      rewrite (Hwidth s) by (by eapply list_elem_of_lookup_2).
      rewrite <- (Hwidth v Hv'). done. }
    destruct (lookup_lt_is_Some_2 _ _ Hjs) as [stored_uv Hsu].
    destruct (uvs_host_eq_lookup _ _ _ _ Hsame Hsu) as (uv & Huvj & Heq).
    destruct (Forall2_lookup_r _ _ _ _ _ Huv Huvj) as (mesh_layer & Hml & Hmuv).
    exists mesh_layer, uv, stored_uv. split; [done|]. split; [done|]. split; [|done].
    rewrite Hlayer. unfold uv_column. rewrite omap_lookup_total.
    + rewrite Hi. simpl. by rewrite Hsu.
    + apply Forall_forall. intros v Hv'. rewrite Forall_forall in Hwidth.
      apply fmap_is_Some, lookup_lt_is_Some. rewrite (Hwidth v Hv').
      by rewrite <- (Hwidth s) by (by eapply list_elem_of_lookup_2). }
  rewrite Hloops in Hstored.
  inversion Ha0 as [Ea]. inversion Hb0 as [Eb]. inversion Hc0 as [Ec].
  split; [|split].
  - rewrite <- (Nat.add_0_r (k * 3)). by apply Hstored.
  - by apply Hstored.
  - by apply Hstored.
Qed.

Lemma triangles_reproduce_polygons_witness :
  exists geometry,
    populate_geometry_with_mesh_data quad_object dff.new_Geometry = Ok geometry /\
    length (dff.triangles geometry) = 2%nat /\
    exists triangle,
      dff.triangles geometry !! 1%nat = Some triangle /\
      dff.material triangle = 1%nat /\
      corner_stored quad_mesh geometry 3 (dff.a triangle) /\
      corner_stored quad_mesh geometry 4 (dff.b triangle) /\
      corner_stored quad_mesh geometry 5 (dff.c triangle).
Proof.
  destruct (populate_geometry_with_mesh_data quad_object dff.new_Geometry)
    as [geometry|e] eqn:Hrun; [|vm_compute in Hrun; discriminate Hrun].
  assert (Htri : triangulated (bpy.mesh quad_object)).
  { repeat constructor. }
  destruct (triangles_reproduce_polygons quad_object geometry Htri Hrun)
    as (Hlen & Heach).
  exists geometry. split; [reflexivity|]. split; [exact Hlen|].
  exact (Heach 1%nat _ 3%nat 4%nat 5%nat eq_refl eq_refl).
Defined.

(** ** The per-vertex arrays of the geometry *)

Lemma vertex_steps_colours (p n : bool) (max_uv : nat) (vertices_list : list vert)
    (st st' : vertices_state) :
  for_each (vertex_step p n max_uv) vertices_list st = Ok st' ->
  length (dff.prelit_colors (vs_geometry st')) =
    (length (dff.prelit_colors (vs_geometry st)) +
     (if p then length vertices_list else 0))%nat /\
  length <$> vs_extra_vert st' =
    (fun k => (k + (if n then length vertices_list else 0))%nat) <$>
      (length <$> vs_extra_vert st) /\
  dff.ext_extra_vert_color (vs_geometry st') = dff.ext_extra_vert_color (vs_geometry st).
Proof.
  revert st. induction vertices_list as [|v vs IH]; intros st Hrun; simpl in Hrun.
  - inversion Hrun; subst. split; [destruct p; simpl; lia|]. split; [|done].
    destruct (vs_extra_vert st'); simpl; [|done]. f_equal. destruct n; lia.
  - inv_bind Hrun. apply IH in Hrun as (Hp & Hn & He).
    unfold vertex_step in Ha. do 3 inv_bind Ha. inversion Ha; subst a; clear Ha.
    simpl in Hp, Hn, He. rewrite Hp, Hn, He. clear Hp Hn He. split; [|split; [|done]].
    + destruct p.
      * inv_bind Ha0. inversion Ha0; subst a0. rewrite length_app. simpl. lia.
      * inversion Ha0; subst a0. lia.
    + destruct n.
      * inv_bind Ha1. inversion Ha1; subst a1.
        destruct (vs_extra_vert st); simpl; [|done]. f_equal.
        rewrite length_app. simpl. lia.
      * inversion Ha1; subst a1. destruct (vs_extra_vert st); simpl; [|done].
        f_equal; lia.
Qed.

(** X13: the arrays of a geometry built from a mesh are aligned: there
    are as many normals as vertices, the day colours are as many as the
    vertices if the mesh has a colour layer and the object exports day
    colours and none otherwise, the night colours, if present, are as many
    as the vertices, every UV layer has one entry per vertex, and if there
    is a vertex the number of UV layers is the smaller of the limit of the
    object and the number of UV layers of the mesh. *)
Theorem vertex_arrays_are_aligned (obj : bpy.Object) (geometry : dff.Geometry) :
  populate_geometry_with_mesh_data obj dff.new_Geometry = Ok geometry ->
  length (dff.normals geometry) = length (dff.vertices geometry) /\
  length (dff.prelit_colors geometry) =
    (if bool_decide (0 < length (bpy.vertex_colors (bpy.mesh obj)))%nat &&
        bpy.day_cols obj
     then length (dff.vertices geometry) else 0%nat) /\
  (forall colors,
     dff.ext_extra_vert_color geometry = Some colors ->
     length colors = length (dff.vertices geometry)) /\
  Forall (fun layer => length layer = length (dff.vertices geometry))
         (dff.uv_layers geometry) /\
  ((0 < length (dff.vertices geometry))%nat ->
   length (dff.uv_layers geometry) =
     Nat.min (max_uv_layers obj) (length (bpy.uv_layers (bpy.mesh obj)))).
Proof.
  intros Hrun.
  destruct (with_mesh_data_stages _ _ _ Hrun)
    as (skin_plg & bone_groups & vl & fl & g1 & Hskin & Hpoly & Hverts & Hfaces).
  unfold enumerate in Hpoly.
  apply polygon_steps_from in Hpoly as ((new & Hvl & Hcorners) & _).
  simpl in Hvl. subst new.
  unfold cleanup_duplicate_verts in Hverts, Hfaces.
  destruct (cleanup_outer (length vl) vl ∅) as [stored removed] eqn:Hclean.
  simpl in Hverts, Hfaces.
  assert (Hwidth : Forall (fun v => length (uvs v) =
                                   length (bpy.uv_layers (bpy.mesh obj))) stored).
  { apply Forall_forall. intros v Hv.
    assert (Hv' : v ∈ vl).
    { eapply elem_of_sublist; [exact Hv|].
      pose proof (cleanup_outer_sublist (length vl) vl ∅) as Hsub.
      by rewrite Hclean in Hsub. }
    apply list_elem_of_lookup_1 in Hv' as [q Hq].
    destruct (Forall2_lookup_r _ _ _ _ _ Hcorners Hq)
      as (l & _ & loop & mv & _ & _ & _ & _ & _ & Hu).
    by rewrite (Forall2_length _ _ _ Hu). }
  pose proof (uv_columns stored skin_plg obj dff.new_Geometry g1 eq_refl Hverts)
    as [Hexists Hcols].
  unfold populate_geometry_from_vertices_data in Hverts. inv_bind Hverts.
  pose proof (vertex_steps_buffers _ _ _ _ _ _ Ha) as (Hv & Hn & _).
  pose proof (vertex_steps_colours _ _ _ _ _ _ Ha) as (Hp & Hx & He).
  simpl in Hv, Hn, Hp, Hx, He. clear Ha.
  assert (Hg1 : dff.vertices g1 = map co stored /\
                dff.normals g1 = map normal stored /\
                dff.prelit_colors g1 = dff.prelit_colors (vs_geometry a) /\
                dff.ext_extra_vert_color g1 =
                  match vs_extra_vert a with
                  | Some colors => Some colors
                  | None => None
                  end).
  { inversion Hverts; subst g1; simpl. by rewrite Hv, Hn, He. }
  clear Hverts. destruct Hg1 as (Hv1 & Hn1 & Hp1 & Hx1).
  assert (Hkeep : dff.vertices geometry = dff.vertices g1 /\
                  dff.normals geometry = dff.normals g1 /\
                  dff.prelit_colors geometry = dff.prelit_colors g1 /\
                  dff.uv_layers geometry = dff.uv_layers g1 /\
                  dff.ext_extra_vert_color geometry = dff.ext_extra_vert_color g1).
  { apply (for_each_related
             (fun g g' : dff.Geometry =>
                dff.vertices g' = dff.vertices g /\
                dff.normals g' = dff.normals g /\
                dff.prelit_colors g' = dff.prelit_colors g /\
                dff.uv_layers g' = dff.uv_layers g /\
                dff.ext_extra_vert_color g' = dff.ext_extra_vert_color g)
             face_step (map (remap_face stored removed) fl)); [done| | |exact Hfaces].
    - intros s1 s2 s3 (? & ? & ? & ? & ?) (? & ? & ? & ? & ?).
      repeat split; congruence.
    - intros s x s' _ Hstep. unfold face_step in Hstep. do 3 inv_bind Hstep.
      by inversion Hstep; subst. }
  destruct Hkeep as (-> & -> & -> & -> & ->).
  rewrite Hv1, Hn1, Hp1, Hx1, !length_map, Hp. simpl.
  split; [done|]. split; [done|]. split; [|split].
  - intros colors Hc. destruct (vs_extra_vert a) as [colors'|]; [|done].
    inversion Hc; subst colors'. simpl in Hx.
    destruct (bool_decide (1 < length (bpy.vertex_colors (bpy.mesh obj)))%nat &&
              bpy.night_cols obj); simpl in Hx; [|done].
    by inversion Hx.
  - apply Forall_forall. intros layer Hlayer.
    apply list_elem_of_lookup_1 in Hlayer as [j Hj].
    pose proof (proj1 (Hexists j) (mk_is_Some _ _ Hj)) as [_ Hex].
    rewrite (Hcols j layer Hj). unfold uv_column.
    apply Exists_exists in Hex as (v & Hv' & Hlt).
    rewrite Forall_forall in Hwidth. rewrite (Hwidth v Hv') in Hlt.
    apply omap_length_total, Forall_forall. intros v0 Hv0.
    apply fmap_is_Some, lookup_lt_is_Some. by rewrite (Hwidth v0 Hv0).
  - intros Hpos. destruct stored as [|s stored]; [simpl in Hpos; lia|].
    rewrite Forall_forall in Hwidth.
    pose proof (Hwidth s ltac:(left)) as Hs.
    apply Nat.le_antisymm.
    + destruct (decide (length (dff.uv_layers g1) <=
                        Nat.min (max_uv_layers obj)
                                (length (bpy.uv_layers (bpy.mesh obj))))%nat)
        as [Hle|Hgt]; [done|].
      assert (Hj : is_Some (dff.uv_layers g1 !!
                              Nat.min (max_uv_layers obj)
                                      (length (bpy.uv_layers (bpy.mesh obj))))).
      { apply lookup_lt_is_Some. lia. }
      apply Hexists in Hj as [Hlt Hex].
      apply Exists_exists in Hex as (v & Hv' & Hlt'). rewrite (Hwidth v Hv') in Hlt'.
      lia.
    + destruct (decide (Nat.min (max_uv_layers obj)
                                (length (bpy.uv_layers (bpy.mesh obj))) <=
                        length (dff.uv_layers g1))%nat) as [Hle|Hgt]; [done|].
      assert (Hj : is_Some (dff.uv_layers g1 !! length (dff.uv_layers g1))).
      { apply Hexists. split; [lia|]. apply Exists_cons. left. lia. }
      apply lookup_lt_is_Some in Hj. lia.
Qed.

Lemma vertex_arrays_are_aligned_witness :
  exists geometry,
    populate_geometry_with_mesh_data quad_object dff.new_Geometry = Ok geometry /\
    length (dff.vertices geometry) = 4%nat /\
    length (dff.normals geometry) = 4%nat /\
    length (dff.prelit_colors geometry) = 4%nat /\
    length (dff.uv_layers geometry) = 1%nat.
Proof.
  destruct (populate_geometry_with_mesh_data quad_object dff.new_Geometry)
    as [geometry|e] eqn:Hrun; [|vm_compute in Hrun; discriminate Hrun].
  destruct (vertex_arrays_are_aligned quad_object geometry Hrun)
    as (Hn & Hp & _ & _ & Hu).
  assert (Hv : length (dff.vertices geometry) = 4%nat).
  { vm_compute in Hrun. by inversion Hrun; subst geometry. }
  exists geometry. rewrite Hv in Hn, Hp, Hu.
  split; [reflexivity|]. split; [exact Hv|]. split; [exact Hn|].
  split; [exact Hp|]. apply Hu. lia.
Defined.

(** ** The atomic of a mesh object *)

(** With [append] set, [create_frame] puts the new frame behind the
    frames of the current clump, whose number it leaves as it was, and
    touches no other clump. *)
Lemma create_frame_appends (self self' : exporter) (obj : bpy.Datablock)
    (set_parent : bool) (frame : dff.Frame) (k : Z) (cl : dff.Clump) :
  current_clump self = Some k ->
  clumps self !! k = Some cl ->
  create_frame self obj true set_parent = Ok (frame, self') ->
  exists earlier,
    length earlier = length (dff.frame_list cl) /\
    current_clump self' = Some k /\
    clumps self' = <[ k := Clump_set_frame_list (earlier ++ [frame]) cl ]> (clumps self) /\
    dff.name frame = clear_extension (bpy.name (bpy.node_of obj)) /\
    dff.position frame = to_translation (bpy.matrix_local (bpy.node_of obj)) /\
    dff.rotation_matrix frame = transposed3 (to_3x3 (bpy.matrix_local (bpy.node_of obj))).
Proof.
  intros Hk Hcl Hrun. unfold create_frame in Hrun.
  inv_bind Hrun. destruct a as [k0 cl0].
  apply get_current_clump_Ok in Ha as [Hk0 Hcl0].
  rewrite Hk in Hk0. inversion Hk0; subst k0. rewrite Hcl in Hcl0.
  inversion Hcl0; subst cl0. clear Hk0 Hcl0.
  inv_bind Hrun. rename a into self1. inv_bind Hrun. rename a into parent.
  inv_bind Hrun. rename a into self3. inversion Hrun; subst frame self'; clear Hrun.
  simpl.
  assert (Hscan : exists earlier,
             length earlier = length (dff.frame_list cl) /\
             current_clump self1 = Some k /\
             clumps self1 !! k = Some (Clump_set_frame_list earlier cl) /\
             clumps self1 = <[ k := Clump_set_frame_list earlier cl ]> (clumps self)).
  { unfold scan_parent_queue in Ha.
    destruct (parent_queue self !! bpy.name (bpy.node_of obj)) as [i|].
    - inv_bind Ha. destruct a as [k1 cl1].
      apply get_current_clump_Ok in Ha2 as [Hk1 Hcl1].
      rewrite Hk in Hk1. inversion Hk1; subst k1. rewrite Hcl in Hcl1.
      inversion Hcl1; subst cl1. inv_bind Ha. inversion Ha; subst self1. simpl.
      eexists. split; [apply length_insert|]. split; [done|].
      split; [by rewrite lookup_insert_eq|done].
    - inversion Ha; subst self1. exists (dff.frame_list cl).
      split; [done|]. split; [done|].
      assert (Hsame : Clump_set_frame_list (dff.frame_list cl) cl = cl)
        by (by destruct cl).
      rewrite Hsame. split; [done|]. by rewrite insert_id. }
  destruct Hscan as (earlier & Hlen & Hk1 & Hcl1 & Hclumps).
  apply append_frame_Ok in Ha1 as (k2 & cl2 & Hk2 & Hcl2 & ->).
  simpl in Hk2, Hcl2. rewrite Hk1 in Hk2. inversion Hk2; subst k2.
  rewrite Hcl1 in Hcl2. inversion Hcl2; subst cl2. simpl.
  exists earlier. split; [done|]. split; [done|]. split; [|done].
  rewrite Hclumps, insert_insert_eq. done.
Qed.



(** ** The frames of an armature *)

Lemma create_frame_name (self self' : exporter) (obj : bpy.Datablock)
    (append set_parent : bool) (frame : dff.Frame) :
  create_frame self obj append set_parent = Ok (frame, self') ->
  dff.name frame = clear_extension (bpy.name (bpy.node_of obj)) /\
  dff.position frame = to_translation (bpy.matrix_local (bpy.node_of obj)) /\
  dff.rotation_matrix frame = transposed3 (to_3x3 (bpy.matrix_local (bpy.node_of obj))) /\
  dff.user_data frame = bpy.dff_user_data (bpy.node_of obj) /\
  dff.creation_flags frame = 0.
Proof.
  intros Hrun. unfold create_frame in Hrun. inv_bind Hrun. destruct a as [k cl].
  do 3 inv_bind Hrun. by inversion Hrun; subst.
Qed.

Lemma collect_hanim_bones (k : nat) (bones : list bpy.Bone) (all_bones : list dff.Bone) :
  collect hanim_bone (enumerate_from k bones) = Ok all_bones ->
  Forall2 hanim_entry (enumerate_from k bones) all_bones.
Proof.
  intros Hrun. apply collect_Forall2 in Hrun.
  eapply Forall2_impl; [exact Hrun|]. intros [j b] hb Hb. unfold hanim_bone in Hb.
  do 2 inv_bind Hb. inversion Hb; subst hb. unfold hanim_entry. simpl.
  unfold custom_prop in Ha, Ha0.
  destruct (bpy.bone_id b); [|done]. destruct (bpy.bone_type b); [|done].
  by inversion Ha; inversion Ha0; subst.
Qed.

(** One round of the loop of [export_armature]. *)
Lemma armature_bone_step_frame (obj : bpy.Object) (self self' : exporter)
    (i : nat) (bone : bpy.Bone) (k : Z) (cl : dff.Clump) :
  parent_queue self = ∅ ->
  current_clump self = Some k ->
  clumps self !! k = Some cl ->
  armature_bone_step obj self (i, bone) = Ok self' ->
  exists frame,
    self' =
      set_clumps
        (<[ k := Clump_set_frame_list (dff.frame_list cl ++ [frame]) cl ]> (clumps self))
        (register true (bpy.name (bpy.bone_node bone)) (length (dff.frame_list cl)) self) /\
    bone_frame obj i bone frame /\
    match i, bpy.parent (bpy.node obj) with
    | O, Some q => exists p, frames self !! q = Some p /\ dff.parent frame = Z.of_nat p
    | _, _ =>
        match bpy.parent (bpy.bone_node bone) with
        | None => dff.parent frame = -1
        | Some pn =>
            exists p, bones_registry self !! pn = Some p /\ dff.parent frame = Z.of_nat p
        end
    end.
Proof.
  intros Hq Hk Hcl Hrun. unfold armature_bone_step in Hrun.
  assert (Hcreate : forall frame self1,
             create_frame self (bpy.a_bone (bpy.bone_node bone)) false true =
               Ok (frame, self1) ->
             self1 = register true (bpy.name (bpy.bone_node bone))
                              (length (dff.frame_list cl)) self /\
             dff.name frame = clear_extension (bpy.name (bpy.bone_node bone)) /\
             dff.bone_data frame = None /\
             match bpy.parent (bpy.bone_node bone) with
             | None => dff.parent frame = -1
             | Some pn =>
                 exists p, bones_registry self !! pn = Some p /\
                           dff.parent frame = Z.of_nat p
             end).
  { intros frame self1 Hc.
    destruct (create_frame_name _ _ _ _ _ _ Hc) as (Hname & _).
    destruct (create_frame_Ok _ _ _ _ _ _ Hq Hc)
      as (k0 & cl0 & Hk0 & Hcl0 & Hparent & Hdata & Hself1).
    rewrite Hk in Hk0. inversion Hk0; subst k0. rewrite Hcl in Hcl0.
    inversion Hcl0; subst cl0. simpl in *.
    split; [done|]. split; [done|]. split; [done|].
    destruct Hparent as [[Hroot [Hnone|Hfalse]]|(pn & p & Hpn & _ & Hreg & Hp)].
    - by rewrite Hnone.
    - done.
    - rewrite Hpn. by exists p. }
  assert (Happend : forall frame self1,
             self1 = register true (bpy.name (bpy.bone_node bone))
                              (length (dff.frame_list cl)) self ->
             append_frame frame self1 = Ok self' ->
             self' =
               set_clumps
                 (<[ k := Clump_set_frame_list (dff.frame_list cl ++ [frame]) cl ]>
                    (clumps self))
                 (register true (bpy.name (bpy.bone_node bone))
                           (length (dff.frame_list cl)) self)).
  { intros frame self1 -> Happ.
    apply append_frame_Ok in Happ as (k0 & cl0 & Hk0 & Hcl0 & ->).
    simpl in Hk0, Hcl0. rewrite Hk in Hk0. inversion Hk0; subst k0.
    rewrite Hcl in Hcl0. by inversion Hcl0; subst cl0. }
  destruct i as [|i].
  - inv_bind Hrun. destruct a as [frame self1].
    destruct (Hcreate _ _ Ha) as (Hself1 & Hname & Hdata & Hparent).
    inv_bind Hrun. rename a into frame1. inv_bind Hrun. rename a into root_id.
    inv_bind Hrun. rename a into all_bones.
    eexists. split; [by eapply Happend|]. split.
    + split.
      * simpl. destruct (bpy.parent (bpy.node obj));
          [inv_bind Ha0|]; by inversion Ha0; subst frame1.
      * unfold custom_prop in Ha1. destruct (bpy.bone_id bone) as [id0|]; [|done].
        inversion Ha1; subst root_id. eexists _, _. split; [done|].
        split; [reflexivity|]. split; [done|]. by apply collect_hanim_bones.
    + simpl. destruct (bpy.parent (bpy.node obj)) as [q|].
      * inv_bind Ha0. inversion Ha0; subst frame1. apply getitem_Ok in Ha3.
        subst self1. simpl in Ha3. by exists a.
      * by inversion Ha0; subst frame1.
  - inv_bind Hrun. destruct a as [frame self1].
    destruct (Hcreate _ _ Ha) as (Hself1 & Hname & Hdata & Hparent).
    inv_bind Hrun. rename a into this_id.
    eexists. split; [by eapply Happend|]. split.
    + split; [done|].
      unfold custom_prop in Ha0. destruct (bpy.bone_id bone) as [id0|]; [|done].
      inversion Ha0; subst this_id. by eexists _, _.
    + done.
Qed.

(** The loop of [export_armature] from the bone at position
    [length visited] on. *)
Lemma armature_steps_frames (obj : bpy.Object) (k : Z) (base : nat)
    (rest visited : list bpy.Bone) (self self' : exporter) (cl : dff.Clump) :
  bpy.data_bones obj = visited ++ rest ->
  parent_queue self = ∅ ->
  current_clump self = Some k ->
  clumps self !! k = Some cl ->
  length (dff.frame_list cl) = (base + length visited)%nat ->
  (forall name j,
     last_named (bpy.data_bones obj) (length visited) name j ->
     bones_registry self !! name = Some (base + j)%nat) ->
  for_each (armature_bone_step obj) (enumerate_from (length visited) rest) self =
    Ok self' ->
  exists new,
    clumps self' = <[ k := Clump_set_frame_list (dff.frame_list cl ++ new) cl ]> (clumps self) /\
    current_clump self' = Some k /\
    parent_queue self' = ∅ /\
    frames self' = frames self /\
    Forall2 (fun ib frame =>
               bone_frame obj ib.1 ib.2 frame /\
               bone_frame_parent obj (frames self) base ib.1 ib.2 frame)
            (enumerate_from (length visited) rest) new.
Proof.
  revert visited self cl.
  induction rest as [|bone rest IH]; intros visited self cl Hbones Hq Hk Hcl Hlen Hreg Hrun;
    simpl in Hrun.
  - inversion Hrun; subst self'. exists []. rewrite app_nil_r.
    assert (Hsame : Clump_set_frame_list (dff.frame_list cl) cl = cl) by (by destruct cl).
    rewrite Hsame, insert_id by done. repeat split; try done.
  - inv_bind Hrun. rename a into self1.
    destruct (armature_bone_step_frame _ _ _ _ _ _ _ Hq Hk Hcl Ha)
      as (frame & Hself1 & Hframe & Hparent).
    assert (Hhere : bpy.data_bones obj !! length visited = Some bone).
    { rewrite Hbones. by rewrite lookup_app_r, Nat.sub_diag by lia. }
    replace (S (length visited)) with (length (visited ++ [bone])) in Hrun
      by (rewrite length_app; simpl; lia).
    apply IH with (cl := Clump_set_frame_list (dff.frame_list cl ++ [frame]) cl) in Hrun.
    + destruct Hrun as (new & Hclumps & Hcur & Hq' & Hframes & Hall).
      exists (frame :: new). subst self1. simpl in *.
      split; [by rewrite Hclumps, insert_insert_eq, <- app_assoc|].
      split; [done|]. split; [done|]. split; [done|].
      constructor.
      * split; [done|]. simpl. unfold bone_frame_parent.
        destruct (length visited) as [|i] eqn:Hi.
        -- destruct (bpy.parent (bpy.node obj)) as [q|]; [done|].
           destruct (bpy.parent (bpy.bone_node bone)) as [pn|]; [|done].
           intros j (Hlt & _). lia.
        -- destruct (bpy.parent (bpy.bone_node bone)) as [pn|]; [|done].
           destruct Hparent as (p & Hp & Hpar). intros j Hj.
           rewrite (Hreg pn j Hj) in Hp. inversion Hp; subst p.
           by destruct (bpy.parent (bpy.node obj)).
      * rewrite length_app in Hall. simpl in Hall.
        by replace (length visited + 1)%nat with (S (length visited)) in Hall by lia.
    + by rewrite Hbones, <- app_assoc.
    + by subst self1.
    + by subst self1.
    + subst self1. simpl. by rewrite lookup_insert_eq.
    + simpl. rewrite !length_app. simpl. lia.
    + subst self1. simpl. intros name j (Hlt & (b & Hb & Hname) & Hlast).
      rewrite length_app in Hlt, Hlast. simpl in Hlt, Hlast.
      destruct (decide (j = length visited)) as [->|Hne].
      * rewrite Hhere in Hb. inversion Hb; subst b. rewrite Hname, Hlen.
        by rewrite lookup_insert_eq.
      * rewrite lookup_insert_ne.
        -- apply Hreg. split; [lia|]. split; [by exists b|].
           intros j' b' Hj'. apply Hlast. lia.
        -- apply (Hlast (length visited) bone); [lia|done].
Qed.

(** X15: started with an empty parent queue, [export_armature] adds one
    frame per bone to the current clump, in bone order, and changes no
    other frame and no other clump.  The frame of a bone is named after it
    and carries HAnim data headed by the id of the bone; the data of the
    first bone counts the bones and lists the id, the position and the type
    of each, the data of the other bones is empty.  The first bone of an
    armature that has a parent hangs under the frame registered for that
    parent; any other bone is a root if it has no parent and hangs under
    the frame of its parent bone if that bone comes earlier. *)
Theorem armature_frames_follow_bones (self self' : exporter) (obj : bpy.Object)
    (k : Z) (cl : dff.Clump) :
  parent_queue self = ∅ ->
  current_clump self = Some k ->
  clumps self !! k = Some cl ->
  export_armature self obj = Ok self' ->
  exists new,
    clumps self' = <[ k := Clump_set_frame_list (dff.frame_list cl ++ new) cl ]> (clumps self) /\
    length new = length (bpy.data_bones obj) /\
    forall i bone frame,
      bpy.data_bones obj !! i = Some bone ->
      new !! i = Some frame ->
      bone_frame obj i bone frame /\
      bone_frame_parent obj (frames self) (length (dff.frame_list cl)) i bone frame.
Proof.
  intros Hq Hk Hcl Hrun. unfold export_armature, enumerate in Hrun.
  apply (armature_steps_frames obj k (length (dff.frame_list cl)) (bpy.data_bones obj) []
           self self' cl) in Hrun; try done.
  - destruct Hrun as (new & Hclumps & _ & _ & _ & Hall).
    exists new. split; [done|]. split.
    + by rewrite <- (Forall2_length _ _ _ Hall), enumerate_from_length.
    + intros i bone frame Hi Hf.
      pose proof (enumerate_from_lookup 0 i _ _ Hi) as Hib. simpl in Hib.
      destruct (Forall2_lookup_l _ _ _ _ _ Hall Hib) as (frame' & Hf' & Hok).
      rewrite Hf in Hf'. inversion Hf'; subst frame'. exact Hok.
  - simpl. intros name j (Hlt & _). lia.
Qed.

Lemma armature_frames_follow_bones_witness :
  exists self' cl new,
    export_armature body_state armature_object = Ok self' /\
    clumps body_state !! 0 = Some cl /\
    clumps self' !! 0 = Some (Clump_set_frame_list (dff.frame_list cl ++ new) cl) /\
    length new = 3%nat /\
    forall i bone frame,
      sample_bones !! i = Some bone ->
      new !! i = Some frame ->
      bone_frame armature_object i bone frame /\
      bone_frame_parent armature_object (frames body_state)
                        (length (dff.frame_list cl)) i bone frame.
Proof.
  destruct (export_armature body_state armature_object) as [self'|e] eqn:Hrun;
    [|vm_compute in Hrun; discriminate Hrun].
  destruct (clumps body_state !! 0) as [cl|] eqn:Hcl;
    [|vm_compute in Hcl; discriminate Hcl].
  assert (Hq : parent_queue body_state = ∅) by (vm_compute; reflexivity).
  assert (Hk : current_clump body_state = Some 0) by (vm_compute; reflexivity).
  destruct (armature_frames_follow_bones body_state self' armature_object 0 cl
              Hq Hk Hcl Hrun)
    as (new & Hclumps & Hlen & Hall).
  exists self', cl, new. split; [reflexivity|]. split; [reflexivity|].
  split; [by rewrite Hclumps, lookup_insert_eq|]. split; [exact Hlen|exact Hall].
Defined.

Lemma getitem_raises {K V : Type} `{Countable K} (d : gmap K V) (k : K) (e : exn) :
  getitem d k = Raise e -> e = KeyError.
Proof. unfold getitem. destruct (d !! k); [done|]. by intros [= <-]. Qed.

Lemma custom_prop_raises (p : option Z) (e : exn) :
  custom_prop p = Raise e -> e = KeyError.
Proof. unfold custom_prop. destruct p; [done|]. by intros [= <-]. Qed.

Lemma bind_Raise {A B : Type} (m : result A) (k : A -> result B) (e : exn) :
  (m ≫= k) = Raise e -> m = Raise e \/ exists a, m = Ok a /\ k a = Raise e.
Proof.
  destruct m as [a|e']; simpl; intros Hrun.
  - right. by exists a.
  - left. by inversion Hrun.
Qed.

Lemma collect_raises {A B : Type} (f : A -> result B) (xs : list A) (e0 e : exn) :
  (forall x e, f x = Raise e -> e = e0) ->
  collect f xs = Raise e -> e = e0.
Proof.
  intros Hf. induction xs as [|x xs IH]; simpl; [done|]. intros Hrun.
  apply bind_Raise in Hrun as [Hx|(y & _ & Hrun)]; [by eapply Hf|].
  apply bind_Raise in Hrun as [Hxs|(ys & _ & Hrun)]; [by apply IH|done].
Qed.

(** In a state with a current clump and nothing queued, the only
    exception of a round of the loop of [export_armature] is the
    [KeyError] of a missing registry entry or bone property. *)
Lemma armature_bone_step_raises (obj : bpy.Object) (self : exporter)
    (ib : nat * bpy.Bone) (k : Z) (cl : dff.Clump) (e : exn) :
  parent_queue self = ∅ ->
  current_clump self = Some k ->
  clumps self !! k = Some cl ->
  armature_bone_step obj self ib = Raise e -> e = KeyError.
Proof.
  intros Hq Hk Hcl Hrun. destruct ib as [i bone].
  assert (Hcur : get_current_clump self = Ok (k, cl)) by (by apply get_current_clump_Ok).
  assert (Hcreate : forall r,
             create_frame self (bpy.a_bone (bpy.bone_node bone)) false true = r ->
             match r with
             | Ok (frame, self1) =>
                 exists cl1, get_current_clump self1 = Ok (k, cl1)
             | Raise e' => e' = KeyError
             end).
  { intros r <-. unfold create_frame. rewrite Hcur. simpl.
    rewrite (scan_parent_queue_empty _ _ _ Hq). simpl.
    destruct (bpy.parent (bpy.bone_node bone)) as [pn|]; simpl.
    - destruct (getitem (bones_registry self) pn) as [p|e'] eqn:Hp; simpl.
      + exists cl. by apply get_current_clump_Ok.
      + by eapply getitem_raises.
    - exists cl. by apply get_current_clump_Ok. }
  assert (Happend : forall frame self1 cl1,
             get_current_clump self1 = Ok (k, cl1) ->
             append_frame frame self1 = Raise e -> False).
  { intros frame self1 cl1 Hc Happ. unfold append_frame in Happ.
    by rewrite Hc in Happ. }
  unfold armature_bone_step in Hrun.
  specialize (Hcreate _ eq_refl).
  destruct (create_frame self (bpy.a_bone (bpy.bone_node bone)) false true)
    as [[frame self1]|e'] eqn:Hc.
  - destruct Hcreate as [cl1 Hcl1]. simpl in Hrun. destruct i as [|i].
    + apply bind_Raise in Hrun as [Hrun|(frame1 & _ & Hrun)].
      { destruct (bpy.parent (bpy.node obj)) as [q|]; [|done].
        apply bind_Raise in Hrun as [Hrun|(p & _ & Hrun)]; [|done].
        by eapply getitem_raises. }
      apply bind_Raise in Hrun as [Hrun|(root_id & _ & Hrun)];
        [by eapply custom_prop_raises|].
      apply bind_Raise in Hrun as [Hrun|(all_bones & _ & Hrun)].
      { eapply collect_raises; [|exact Hrun]. intros [j b] e1 Hb.
        unfold hanim_bone in Hb.
        apply bind_Raise in Hb as [Hb|(? & _ & Hb)]; [by eapply custom_prop_raises|].
        apply bind_Raise in Hb as [Hb|(? & _ & Hb)]; [by eapply custom_prop_raises|].
        done. }
      by destruct (Happend _ _ _ Hcl1 Hrun).
    + apply bind_Raise in Hrun as [Hrun|(this_id & _ & Hrun)];
        [by eapply custom_prop_raises|].
      by destruct (Happend _ _ _ Hcl1 Hrun).
  - simpl in Hrun. destruct i; inversion Hrun; congruence.
Qed.

(** X16: an armature one of whose bones lacks the [bone_id] or the [type]
    property is not exported: in a state with a current clump and nothing
    queued, [export_armature] raises [KeyError], whichever bone it is. *)
Theorem bone_without_properties_raises_KeyError (self : exporter) (obj : bpy.Object)
    (k : Z) (cl : dff.Clump) :
  parent_queue self = ∅ ->
  current_clump self = Some k ->
  clumps self !! k = Some cl ->
  Exists (fun bone => bpy.bone_id bone = None \/ bpy.bone_type bone = None)
         (bpy.data_bones obj) ->
  export_armature self obj = Raise KeyError.
Proof.
  intros Hq Hk Hcl Hbad. unfold export_armature, enumerate.
  destruct (bpy.data_bones obj) as [|bone rest] eqn:Hbones;
    [by apply Exists_nil in Hbad|].
  cbn [enumerate_from for_each].
  destruct (armature_bone_step obj self (0%nat, bone)) as [self1|e] eqn:Hstep.
  - exfalso.
    destruct (armature_bone_step_frame _ _ _ _ _ _ _ Hq Hk Hcl Hstep)
      as (frame & _ & (_ & id & data & _ & _ & _ & Hall) & _).
    rewrite Hbones in Hall. unfold enumerate in Hall.
    apply Exists_exists in Hbad as (bad & Hin & Hnone).
    apply list_elem_of_lookup_1 in Hin as [j Hj].
    pose proof (enumerate_from_lookup 0 j _ _ Hj) as Hjb.
    destruct (Forall2_lookup_l _ _ _ _ _ Hall Hjb) as (hb & _ & Hid & Htype & _).
    simpl in Hid, Htype. destruct Hnone; congruence.
  - cbn. f_equal. by eapply armature_bone_step_raises.
Qed.

Lemma bone_without_properties_raises_KeyError_witness :
  export_armature body_state unmarked_armature = Raise KeyError.
Proof.
  destruct (clumps body_state !! 0) as [cl|] eqn:Hcl;
    [|vm_compute in Hcl; discriminate Hcl].
  apply (bone_without_properties_raises_KeyError body_state unmarked_armature 0 cl).
  - vm_compute. reflexivity.
  - vm_compute. reflexivity.
  - exact Hcl.
  - apply Exists_cons_tl, Exists_cons_hd. left. reflexivity.
Defined.

(** ** A pass over the meshes and empties of one clump *)

Lemma enumerate_from_app {A : Type} (k : nat) (xs ys : list A) :
  enumerate_from k (xs ++ ys) = enumerate_from k xs ++ enumerate_from (k + length xs) ys.
Proof.
  revert k. induction xs as [|x xs IH]; intros k; simpl.
  - by rewrite Nat.add_0_r.
  - rewrite IH. do 3 f_equal. lia.
Qed.

(** What [populate_atomic] makes of the state that [create_frame] leaves. *)
Lemma populate_atomic_steps (fps : Z) (self self' : exporter) (obj : bpy.Object) :
  populate_atomic fps self obj = Ok self' ->
  exists frame self1 k cl geometry,
    create_frame self (bpy.an_object (bpy.node obj)) true true = Ok (frame, self1) /\
    current_clump self1 = Some k /\
    clumps self1 !! k = Some cl /\
    frames self' = frames self1 /\
    bones_registry self' = bones_registry self1 /\
    parent_queue self' = parent_queue self1 /\
    current_clump self' = current_clump self1 /\
    clumps self' =
      <[ k := {| dff.frame_list := dff.frame_list cl;
                 dff.geometry_list := dff.geometry_list cl ++ [geometry];
                 dff.atomic_list :=
                   dff.atomic_list cl ++
                   [ {| dff.atomic_frame := Z.of_nat (length (dff.frame_list cl)) - 1;
                        dff.atomic_geometry := Z.of_nat (length (dff.geometry_list cl));
                        dff.atomic_flags := 4;
                        dff.atomic_unk := 0 |} ] |} ]> (clumps self1).
Proof.
  intros Hrun. unfold populate_atomic in Hrun.
  inv_bind Hrun. rename a into built.
  inv_bind Hrun. destruct a as [frame self1].
  inv_bind Hrun. destruct a as [materials self2].
  inv_bind Hrun. destruct a as [k cl].
  apply get_current_clump_Ok in Ha2 as [Hk Hcl].
  apply generate_material_list_registries in Ha1 as (Hc & Hf & Hb & Hq & Hcur).
  inversion Hrun; subst self'; clear Hrun. simpl.
  eexists frame, self1, k, cl, _.
  split; [done|]. split; [congruence|]. split; [congruence|].
  split; [done|]. split; [done|]. split; [done|]. split; [done|].
  rewrite Hc. do 3 f_equal. f_equal. f_equal. rewrite length_app. simpl. lia.
Qed.

(** ** The clumps handed to the file *)

Lemma scan_parent_queue_dff (name : string) (frame_index : nat) (self self' : exporter) :
  scan_parent_queue name frame_index self = Ok self' ->
  dff_clumps self' = dff_clumps self /\ uvanim_dict self' = uvanim_dict self.
Proof.
  unfold scan_parent_queue. destruct (parent_queue self !! name); intros Hrun.
  - inv_bind Hrun. destruct a as [k cl]. inv_bind Hrun. by inversion Hrun; subst.
  - by inversion Hrun; subst.
Qed.

Lemma append_frame_dff (frame : dff.Frame) (self self' : exporter) :
  append_frame frame self = Ok self' ->
  dff_clumps self' = dff_clumps self /\ uvanim_dict self' = uvanim_dict self.
Proof.
  intros Hrun. by apply append_frame_Ok in Hrun as (k & cl & _ & _ & ->).
Qed.

Lemma create_frame_dff (self self' : exporter) (obj : bpy.Datablock)
    (append set_parent : bool) (frame : dff.Frame) :
  create_frame self obj append set_parent = Ok (frame, self') ->
  dff_clumps self' = dff_clumps self /\ uvanim_dict self' = uvanim_dict self.
Proof.
  intros Hrun. unfold create_frame in Hrun. inv_bind Hrun. destruct a as [k cl].
  do 3 inv_bind Hrun. inversion Hrun; subst; clear Hrun.
  apply scan_parent_queue_dff in Ha0 as [Hd Hu].
  destruct append.
  - apply append_frame_dff in Ha2 as [Hd' Hu']. simpl in Hd', Hu'. split; congruence.
  - inversion Ha2; subst. simpl. by split.
Qed.

Lemma generate_material_list_dff (fps : Z) (self self' : exporter) (obj : bpy.Object)
    (materials : list dff.Material) :
  generate_material_list fps self obj = Ok (materials, self') ->
  dff_clumps self' = dff_clumps self.
Proof.
  unfold generate_material_list. intros Hrun.
  apply (for_each_related
           (fun a a' : list dff.Material * exporter => dff_clumps a'.2 = dff_clumps a.2)
           (material_step fps) (bpy.materials obj)) in Hrun; [done|done| |].
  - intros s1 s2 s3 H12 H23. congruence.
  - intros [ms s] m [ms' s'] _ Hstep. simpl. unfold material_step in Hstep.
    destruct m as [m|]; [|by inversion Hstep; subst].
    inv_bind Hstep. destruct a as [an|]; by inversion Hstep; subst.
Qed.

Lemma export_object_dff (fps : Z) (self self' : exporter) (obj : bpy.Object) :
  export_object fps self obj = Ok self' -> dff_clumps self' = dff_clumps self.
Proof.
  intros Hrun. unfold export_object in Hrun.
  assert (Henter : dff_clumps (enter_clump self (bpy.clump obj)) = dff_clumps self).
  { unfold enter_clump. by destruct (clumps self !! bpy.clump obj). }
  rewrite <- Henter. clear Henter.
  destruct (decide (bpy.type obj = "MESH")).
  - apply populate_atomic_Ok in Hrun
      as (g & frame & self1 & ms & self2 & k & cl & _ & Hframe & Hmat & _ & _
          & g' & atomic & -> & _).
    apply create_frame_dff in Hframe as [Hd _].
    apply generate_material_list_dff in Hmat.
    transitivity (dff_clumps self2); [done|congruence].
  - destruct (decide (bpy.type obj = "EMPTY")).
    + inv_bind Hrun. destruct a as [frame self1]. inversion Hrun; subst.
      by apply create_frame_dff in Ha as [Hd _].
    + destruct (decide (bpy.type obj = "ARMATURE")); [|by inversion Hrun; subst].
      unfold export_armature in Hrun.
      apply (for_each_related (fun s s' : exporter => dff_clumps s' = dff_clumps s)
               (armature_bone_step obj) (enumerate (bpy.data_bones obj))) in Hrun;
        [done|done| |].
      * intros s1 s2 s3 H12 H23. congruence.
      * intros s [i bone] s' _ Hstep. unfold armature_bone_step in Hstep.
        destruct i as [|i].
        -- inv_bind Hstep. destruct a as [frame self1]. do 3 inv_bind Hstep.
           apply create_frame_dff in Ha as [Hd _].
           apply append_frame_dff in Hstep as [Hd' _]. congruence.
        -- inv_bind Hstep. destruct a as [frame self1]. inv_bind Hstep.
           apply create_frame_dff in Ha as [Hd _].
           apply append_frame_dff in Hstep as [Hd' _]. congruence.
Qed.

Lemma export_loop_dff (fps : Z) (objects : list bpy.Object) (self self' : exporter) :
  for_each (export_object fps) objects self = Ok self' ->
  dff_clumps self' = dff_clumps self.
Proof.
  apply (for_each_related (fun s s' : exporter => dff_clumps s' = dff_clumps s)).
  - done.
  - intros s1 s2 s3 H12 H23. congruence.
  - intros s x s' _ Hstep. by eapply export_object_dff.
Qed.

Lemma mesh_positions_snoc (objects : list bpy.Object) (n : nat) (obj : bpy.Object) :
  objects !! n = Some obj ->
  mesh_positions (take (S n) objects) =
    mesh_positions (take n objects) ++
    (if decide (bpy.type obj = "MESH") then [Z.of_nat n] else []).
Proof.
  intros Hn. unfold mesh_positions, enumerate.
  rewrite (take_S_r _ _ _ Hn), enumerate_from_app, omap_app. f_equal. simpl.
  rewrite length_take_le by (apply lookup_lt_Some in Hn; lia).
  by destruct (decide (bpy.type obj = "MESH")).
Qed.

Lemma last_object_named_here (objects : list bpy.Object) (n : nat) (obj : bpy.Object) :
  objects !! n = Some obj ->
  last_object_named objects (S n) (bpy.name (bpy.node obj)) n.
Proof.
  intros Hn. split; [lia|]. split; [by exists obj|]. intros j' o' Hj'. lia.
Qed.

Lemma last_object_named_keep (objects : list bpy.Object) (n : nat) (obj : bpy.Object)
    (name : string) (p : nat) :
  objects !! n = Some obj ->
  bpy.name (bpy.node obj) <> name ->
  last_object_named objects n name p ->
  last_object_named objects (S n) name p.
Proof.
  intros Hn Hne (Hlt & Hex & Hlast).
  split; [lia|]. split; [done|]. intros j' o' Hj' Ho'.
  destruct (decide (j' = n)) as [->|Hjn].
  - rewrite Hn in Ho'. by inversion Ho'; subst o'.
  - apply (Hlast j' o'); [lia|done].
Qed.

(** The state that [enter_clump] hands to the export of the next object
    of the pass. *)
Lemma enter_clump_pass (k : Z) (objects : list bpy.Object) (n : nat) (self : exporter) :
  pass_state k objects n self ->
  parent_queue (enter_clump self k) = ∅ /\
  current_clump (enter_clump self k) = Some k /\
  clumps (enter_clump self k) !! k = Some (default dff.new_Clump (clumps self !! k)) /\
  (forall k', k' <> k -> clumps (enter_clump self k) !! k' = None) /\
  frames (enter_clump self k) = frames self.
Proof.
  intros (Hq & Hother & _). unfold enter_clump.
  destruct (clumps self !! k) as [cl|] eqn:Hcl; simpl.
  - by rewrite Hcl.
  - rewrite lookup_insert_eq. repeat split; try done.
    intros k' Hne. rewrite lookup_insert_ne by done. by apply Hother.
Qed.

(** The frame of the next object of the pass. *)
Lemma create_frame_pass (k : Z) (objects : list bpy.Object) (n : nat)
    (self self1 : exporter) (cl : dff.Clump) (obj : bpy.Object) (frame : dff.Frame) :
  parent_queue self = ∅ ->
  current_clump self = Some k ->
  clumps self !! k = Some cl ->
  (forall name p, frames self !! name = Some p -> last_object_named objects n name p) ->
  length (dff.frame_list cl) = n ->
  objects !! n = Some obj ->
  create_frame self (bpy.an_object (bpy.node obj)) true true = Ok (frame, self1) ->
  parent_queue self1 = ∅ /\
  current_clump self1 = Some k /\
  clumps self1 = <[ k := Clump_set_frame_list (dff.frame_list cl ++ [frame]) cl ]> (clumps self) /\
  (forall name p,
     frames self1 !! name = Some p -> last_object_named objects (S n) name p) /\
  object_frame objects n obj frame.
Proof.
  intros Hq Hk Hcl Hreg Hlen Hn Hrun.
  destruct (create_frame_name _ _ _ _ _ _ Hrun) as (Hname & Hpos & Hrot & _).
  destruct (create_frame_Ok _ _ _ _ _ _ Hq Hrun)
    as (k0 & cl0 & Hk0 & Hcl0 & Hparent & Hdata & Hself1).
  rewrite Hk in Hk0. inversion Hk0; subst k0. rewrite Hcl in Hcl0.
  inversion Hcl0; subst cl0. simpl in *. subst self1 n. simpl.
  split; [done|]. split; [done|]. split; [done|]. split.
  - intros name p Hp.
    destruct (decide (bpy.name (bpy.node obj) = name)) as [<-|Hne].
    + rewrite lookup_insert_eq in Hp. inversion Hp; subst p.
      by apply last_object_named_here.
    + rewrite lookup_insert_ne in Hp by done.
      apply (last_object_named_keep objects _ obj); [done|done|]. by apply Hreg.
  - split; [done|]. split; [done|]. split; [done|]. split; [done|].
    destruct Hparent as [[Hroot [Hnone|Hfalse]]|(pn & p & Hpn & _ & Hp & Hpar)].
    + by rewrite Hnone.
    + done.
    + rewrite Hpn. exists p. split; [done|]. by apply Hreg.
Qed.

(** One object of the pass. *)
Lemma export_object_pass (fps : Z) (k : Z) (objects : list bpy.Object) (n : nat)
    (self self' : exporter) (obj : bpy.Object) :
  pass_state k objects n self ->
  objects !! n = Some obj ->
  bpy.clump obj = k ->
  bpy.type obj = "MESH" \/ bpy.type obj = "EMPTY" ->
  export_object fps self obj = Ok self' ->
  pass_state k objects (S n) self'.
Proof.
  intros Hstate Hn Hclump Htype Hrun.
  destruct (enter_clump_pass _ _ _ _ Hstate) as (Hq2 & Hk2 & Hcl2 & Hother2 & Hf2).
  destruct Hstate as (Hq & Hother & Hsome & Hreg & Hstate). simpl in Hstate.
  set (cl := default dff.new_Clump (clumps self !! k)) in *.
  destruct Hstate as (Hlen & Hframes & Hatomics & Hgeoms & Hcount).
  unfold export_object in Hrun. rewrite Hclump in Hrun.
  assert (Hreg2 : forall name p,
             frames (enter_clump self k) !! name = Some p ->
             last_object_named objects n name p) by (by rewrite Hf2).
  assert (Hold : forall frame j obj0,
             (j < S n)%nat -> objects !! j = Some obj0 ->
             object_frame objects n obj frame ->
             exists frame0,
               (dff.frame_list cl ++ [frame]) !! j = Some frame0 /\
               object_frame objects j obj0 frame0).
  { intros frame j obj0 Hj Hobj0 Hframe.
    destruct (decide (j = n)) as [->|Hne].
    - rewrite Hn in Hobj0. inversion Hobj0; subst obj0. exists frame.
      split; [|done]. by rewrite lookup_app_r, Hlen, Nat.sub_diag by lia.
    - destruct (Hframes j obj0 ltac:(lia) Hobj0) as (frame0 & Hf0 & Hok).
      exists frame0. split; [by apply lookup_app_l_Some|done]. }
  destruct (decide (bpy.type obj = "MESH")) as [Hmesh|Hnomesh].
  - apply populate_atomic_steps in Hrun
      as (frame & self1 & k1 & cl1 & geometry & Hcreate & Hk1 & Hcl1 & Hfr & _ & Hq' & _
          & Hclumps').
    destruct (create_frame_pass _ _ _ _ _ _ _ _ Hq2 Hk2 Hcl2 Hreg2 Hlen Hn Hcreate)
      as (Hq1 & Hcur1 & Hclumps1 & Hreg1 & Hframe).
    rewrite Hcur1 in Hk1. inversion Hk1; subst k1.
    rewrite Hclumps1, lookup_insert_eq in Hcl1. inversion Hcl1; subst cl1.
    simpl in Hclumps'.
    split; [congruence|]. split.
    { intros k' Hne. rewrite Hclumps', lookup_insert_ne, Hclumps1, lookup_insert_ne by done.
      by apply Hother2. }
    split; [intros _; rewrite Hclumps', lookup_insert_eq; by eexists|].
    split; [by rewrite Hfr|].
    rewrite Hclumps', lookup_insert_eq. simpl.
    split; [rewrite length_app; simpl; lia|].
    split; [intros j obj0 Hj Hobj0; by apply Hold|].
    rewrite (mesh_positions_snoc _ _ _ Hn), decide_True by done.
    rewrite !fmap_app, !length_app, Hatomics, Hgeoms. simpl.
    split; [do 2 f_equal; lia|].
    split; [|lia].
    rewrite Nat.add_1_r, seq_S, fmap_app. simpl. by rewrite Hcount.
  - destruct Htype as [Hmesh|Hempty]; [done|].
    destruct (decide (bpy.type obj = "MESH")) as [|_] in Hrun; [done|].
    destruct (decide (bpy.type obj = "EMPTY")) as [_|] in Hrun; [|done].
    inv_bind Hrun. destruct a as [frame self1]. inversion Hrun; subst self1; clear Hrun.
    destruct (create_frame_pass _ _ _ _ _ _ _ _ Hq2 Hk2 Hcl2 Hreg2 Hlen Hn Ha)
      as (Hq1 & Hcur1 & Hclumps1 & Hreg1 & Hframe).
    split; [done|]. split.
    { intros k' Hne. rewrite Hclumps1, lookup_insert_ne by done. by apply Hother2. }
    split; [intros _; rewrite Hclumps1, lookup_insert_eq; by eexists|].
    split; [done|].
    rewrite Hclumps1, lookup_insert_eq. simpl.
    split; [rewrite length_app; simpl; lia|].
    split; [intros j obj0 Hj Hobj0; by apply Hold|].
    rewrite (mesh_positions_snoc _ _ _ Hn), decide_False by done.
    by rewrite app_nil_r.
Qed.

Lemma export_objects_pass (fps : Z) (k : Z) (objects rest : list bpy.Object) (n : nat)
    (self self' : exporter) :
  Forall (fun obj => bpy.clump obj = k /\
                     (bpy.type obj = "MESH" \/ bpy.type obj = "EMPTY")) objects ->
  drop n objects = rest ->
  (n <= length objects)%nat ->
  pass_state k objects n self ->
  for_each (export_object fps) rest self = Ok self' ->
  pass_state k objects (length objects) self'.
Proof.
  intros Hall. revert n self.
  induction rest as [|obj rest IH]; intros n self Hdrop Hle Hstate Hrun; simpl in Hrun.
  - inversion Hrun; subst self'.
    assert (n = length objects) as ->; [|done].
    apply (f_equal length) in Hdrop. rewrite length_drop in Hdrop. simpl in Hdrop. lia.
  - inv_bind Hrun.
    assert (Hn : objects !! n = Some obj).
    { rewrite <- (Nat.add_0_r n), <- lookup_drop, Hdrop. done. }
    rewrite Forall_forall in Hall.
    destruct (Hall obj ltac:(by eapply list_elem_of_lookup_2)) as [Hclump Htype].
    apply (IH (S n) a); [|by apply lookup_lt_Some in Hn| |done].
    + rewrite (drop_S _ _ _ Hn) in Hdrop. by inversion Hdrop.
    + by eapply export_object_pass.
Qed.

(** X17: a pass over meshes and empties that all belong to clump [k],
    started with nothing queued and an empty frame registry, yields that
    one clump and hands it to the file.  The clump has one frame per
    object, in object order: the frame is named after the object, placed
    by its local matrix, and is a root if the object has no parent and
    hangs under the frame of the last earlier object with the name of the
    parent otherwise.  It has one geometry and one atomic per mesh, the
    atomic naming the position of the frame of the mesh and the position of
    its geometry. *)
Theorem frames_follow_objects (fps : Z) (k : Z) (self self' : exporter)
    (objects : list bpy.Object) :
  parent_queue self = ∅ ->
  frames self = ∅ ->
  objects <> [] ->
  Forall (fun obj => bpy.clump obj = k /\
                     (bpy.type obj = "MESH" \/ bpy.type obj = "EMPTY")) objects ->
  export_dff fps self objects = Ok self' ->
  exists cl,
    clumps self' = {[ k := cl ]} /\
    dff_clumps self' = [cl] /\
    length (dff.frame_list cl) = length objects /\
    (forall j obj,
       objects !! j = Some obj ->
       exists frame,
         dff.frame_list cl !! j = Some frame /\ object_frame objects j obj frame) /\
    dff.atomic_frame <$> dff.atomic_list cl = mesh_positions objects /\
    dff.atomic_geometry <$> dff.atomic_list cl =
      Z.of_nat <$> seq 0 (length (dff.atomic_list cl)) /\
    length (dff.geometry_list cl) = length (dff.atomic_list cl).
Proof.
  intros Hq Hf Hne Hall Hrun. unfold export_dff, export_objects in Hrun.
  destruct objects as [|obj0 objects0] eqn:Hobjects; [done|]. rewrite <- Hobjects in *.
  inv_bind Hrun. rename a into self1. inversion Hrun; subst self'; clear Hrun.
  pose proof (export_loop_dff _ _ _ _ Ha) as Hdff. simpl in Hdff.
  apply (export_objects_pass fps k objects objects 0) in Ha; [|done|done|lia|].
  - destruct Ha as (_ & Hother & Hsome & _ & Hstate).
    destruct Hsome as [cl Hcl]; [rewrite Hobjects; simpl; lia|].
    rewrite Hcl in Hstate. simpl in Hstate.
    destruct Hstate as (Hlen & Hframes & Hatomics & Hgeoms & Hcount).
    assert (Hclumps : clumps self1 = {[ k := cl ]}).
    { apply map_eq. intros k'. destruct (decide (k' = k)) as [->|Hk'].
      - by rewrite Hcl, lookup_singleton_eq.
      - rewrite lookup_singleton_ne by done. by apply Hother. }
    exists cl. simpl. rewrite Hclumps, dom_singleton_L, elements_singleton.
    split; [done|]. split.
    { cbn. by rewrite Hdff, lookup_singleton_eq. }
    split; [done|]. split.
    { intros j obj Hj. apply Hframes; [by apply lookup_lt_Some in Hj|done]. }
    rewrite firstn_all in Hatomics. done.
  - split; [done|]. simpl. split; [intros k' _; by rewrite lookup_empty|].
    split; [lia|]. split; [intros name p; by rewrite Hf, lookup_empty|].
    rewrite lookup_empty. simpl. repeat split; try done. intros j obj Hj. lia.
Qed.

Lemma frames_follow_objects_witness :
  exists self' cl,
    export_dff 24 initial mesh_scene = Ok self' /\
    clumps self' = {[ 0 := cl ]} /\
    dff_clumps self' = [cl] /\
    length (dff.frame_list cl) = 3%nat /\
    (forall j obj,
       mesh_scene !! j = Some obj ->
       exists frame,
         dff.frame_list cl !! j = Some frame /\ object_frame mesh_scene j obj frame) /\
    dff.atomic_frame <$> dff.atomic_list cl = [1].
Proof.
  destruct (export_dff 24 initial mesh_scene) as [self'|e] eqn:Hrun;
    [|vm_compute in Hrun; discriminate Hrun].
  assert (Hall : Forall (fun obj => bpy.clump obj = 0 /\
                                    (bpy.type obj = "MESH" \/ bpy.type obj = "EMPTY"))
                        mesh_scene).
  { apply Forall_cons. split; [split; [reflexivity|right; reflexivity]|].
    apply Forall_cons. split; [split; [reflexivity|left; reflexivity]|].
    apply Forall_cons. split; [split; [reflexivity|right; reflexivity]|].
    apply Forall_nil_2. }
  destruct (frames_follow_objects 24 0 initial self' mesh_scene eq_refl eq_refl
              ltac:(discriminate) Hall Hrun)
    as (cl & Hclumps & Hdff & Hlen & Hframes & Hatomics & _).
  exists self', cl. split; [reflexivity|]. split; [exact Hclumps|].
  split; [exact Hdff|]. split; [exact Hlen|]. split; [exact Hframes|exact Hatomics].
Defined.

Lemma export_loop_keeps_clumps (fps : Z) (objects : list bpy.Object)
    (self self' : exporter) :
  parent_queue self = ∅ ->
  for_each (export_object fps) objects self = Ok self' ->
  (forall k, is_Some (clumps self !! k) -> is_Some (clumps self' !! k)) /\
  Forall (fun obj => is_Some (clumps self' !! bpy.clump obj)) objects.
Proof.
  revert self. induction objects as [|obj objects IH]; intros self Hq Hrun;
    simpl in Hrun.
  - inversion Hrun; subst. by split.
  - inv_bind Hrun. rename a into self1.
    destruct (export_object_quiet _ _ _ _ Ha Hq) as [Hq1 Hkept].
    destruct (IH self1 Hq1 Hrun) as [Hkeep Hall].
    assert (Hstep : forall k, is_Some (clumps self !! k) -> is_Some (clumps self1 !! k)).
    { intros k [cl Hcl]. destruct (Hkept k cl Hcl) as (cl' & Hcl' & _). by exists cl'. }
    split; [intros k Hk; by apply Hkeep, Hstep|].
    constructor; [|done]. apply Hkeep.
    unfold export_object in Ha.
    assert (Hentered : is_Some (clumps (enter_clump self (bpy.clump obj)) !! bpy.clump obj)).
    { unfold enter_clump. destruct (clumps self !! bpy.clump obj) as [cl|] eqn:Hcl; simpl.
      - by rewrite Hcl.
      - by rewrite lookup_insert_eq. }
    destruct Hentered as [cl Hcl].
    assert (Hq2 : parent_queue (enter_clump self (bpy.clump obj)) = ∅)
      by (by apply enter_clump_quiet).
    assert (Hquiet : quiet_step (enter_clump self (bpy.clump obj)) self1).
    { destruct (decide (bpy.type obj = "MESH")); [by eapply populate_atomic_quiet|].
      destruct (decide (bpy.type obj = "EMPTY")).
      - inv_bind Ha. destruct a as [frame self3]. inversion Ha; subst self3.
        by eapply create_frame_quiet.
      - destruct (decide (bpy.type obj = "ARMATURE")); [by eapply export_armature_quiet|].
        inversion Ha; subst. apply quiet_step_refl. }
    destruct (Hquiet Hq2) as [_ Hk2]. destruct (Hk2 _ cl Hcl) as (cl' & Hcl' & _).
    by exists cl'.
Qed.

(** X18: [export_objects] hands the clumps to the file in ascending order
    of their index.  With no object nothing is handed over, whatever clumps
    there are.  Otherwise, from a state with nothing queued, every clump of
    the map is handed over once, under a list of indices without
    repetition in ascending order, and the map has a clump for every
    object of the pass and keeps the clumps it had. *)
Theorem clumps_are_written_in_index_order (fps : Z) (self self' : exporter)
    (objects : list bpy.Object) :
  parent_queue self = ∅ ->
  export_objects fps self objects = Ok self' ->
  match objects with
  | [] => dff_clumps self' = [] /\ clumps self' = clumps self
  | _ =>
      exists keys,
        Sorted Z.le keys /\
        NoDup keys /\
        (forall k, k ∈ keys <-> is_Some (clumps self' !! k)) /\
        Forall2 (fun k cl => clumps self' !! k = Some cl) keys (dff_clumps self') /\
        Forall (fun obj => bpy.clump obj ∈ keys) objects /\
        (forall k, is_Some (clumps self !! k) -> k ∈ keys)
  end.
Proof.
  intros Hq Hrun. unfold export_objects in Hrun.
  destruct objects as [|obj0 objects0] eqn:Hobjects.
  { by inversion Hrun; subst. }
  rewrite <- Hobjects in *. clear Hobjects.
  inv_bind Hrun. rename a into self1. inversion Hrun; subst self'; clear Hrun.
  pose proof (export_loop_dff _ _ _ _ Ha) as Hdff. simpl in Hdff.
  destruct (export_loop_keeps_clumps fps objects (new_dff self) self1 Hq Ha)
    as [Hkeep Hall].
  simpl in Hkeep. simpl. rewrite Hdff. simpl.
  set (keys := merge_sort Z.le (elements (dom (clumps self1)))).
  assert (Hkeys : forall k, k ∈ keys <-> is_Some (clumps self1 !! k)).
  { intros k. unfold keys. rewrite merge_sort_Permutation, elem_of_elements.
    apply elem_of_dom. }
  exists keys. split; [apply Sorted_merge_sort; apply _|].
  split; [unfold keys; rewrite merge_sort_Permutation; apply NoDup_elements|].
  split; [done|]. split.
  - assert (Hgen : forall ks, Forall (fun k => is_Some (clumps self1 !! k)) ks ->
                     Forall2 (fun k cl => clumps self1 !! k = Some cl) ks
                             (omap (fun k => clumps self1 !! k) ks)).
    { induction ks as [|k ks IH]; intros Hks; [constructor|].
      inversion Hks as [|? ? [cl Hcl] Hrest]; subst. simpl. rewrite Hcl.
      constructor; [done|by apply IH]. }
    apply Hgen, Forall_forall. intros k Hk. by apply Hkeys.
  - split.
    + eapply Forall_impl; [exact Hall|]. intros obj Hobj. by apply Hkeys.
    + intros k Hk. by apply Hkeys, Hkeep.
Qed.

Lemma clumps_are_written_in_index_order_witness :
  exists self' keys,
    export_objects 24 (set_clumps ∅ initial)
      [ sample_object "EMPTY" "handle" None 1; sample_object "EMPTY" "door" None 0 ] =
      Ok self' /\
    Sorted Z.le keys /\
    NoDup keys /\
    Forall2 (fun k cl => clumps self' !! k = Some cl) keys (dff_clumps self') /\
    1 ∈ keys /\ 0 ∈ keys.
Proof.
  destruct (export_objects 24 (set_clumps ∅ initial)
              [ sample_object "EMPTY" "handle" None 1;
                sample_object "EMPTY" "door" None 0 ]) as [self'|e] eqn:Hrun;
    [|vm_compute in Hrun; discriminate Hrun].
  destruct (clumps_are_written_in_index_order 24 (set_clumps ∅ initial) self' _
              eq_refl Hrun) as (keys & Hsorted & Hnodup & _ & Hall & Hobjects & _).
  exists self', keys. split; [reflexivity|]. split; [exact Hsorted|].
  split; [exact Hnodup|]. split; [exact Hall|].
  inversion Hobjects as [|? ? Hhandle Hrest]; subst.
  inversion Hrest as [|? ? Hdoor _]; subst.
  split; [exact Hhandle|exact Hdoor].
Defined.

(** ** The key frames of a UV animation *)

Lemma uv_offset_cases (data_path : string) (off : nat) :
  uv_offset !! data_path = Some off -> off = 1%nat \/ off = 4%nat.
Proof.
  unfold uv_offset. intros Hoff.
  apply lookup_insert_Some in Hoff as [[_ <-]|[_ Hoff]]; [by left|].
  apply lookup_insert_Some in Hoff as [[_ <-]|[_ Hoff]]; [by right|].
  by rewrite lookup_empty in Hoff.
Qed.

Lemma keyframe_step_frames (fps : Z) (off array_index : nat) (anim : dff.UVAnim)
    (i : nat) (co : Q * Q) :
  fps <> 0 ->
  off = 1%nat \/ off = 4%nat ->
  (array_index <= 1)%nat ->
  (i <= length (dff.frames anim))%nat ->
  (forall j f, dff.frames anim !! j = Some f -> uv_frame_ok j f) ->
  exists anim',
    keyframe_step fps off array_index anim (i, co) = Ok anim' /\
    (forall j f, dff.frames anim' !! j = Some f -> uv_frame_ok j f) /\
    length (dff.frames anim') = Nat.max (length (dff.frames anim)) (S i) /\
    dff.anim_name anim' = dff.anim_name anim.
Proof.
  intros Hfps Hoff Harr Hi Hok. destruct co as [co0 co1]. unfold keyframe_step.
  set (frames0 := if decide (length (dff.frames anim) <= i)%nat
                  then dff.frames anim ++ _ else dff.frames anim).
  assert (Hlen0 : length frames0 = Nat.max (length (dff.frames anim)) (S i)).
  { subst frames0. case_decide; [rewrite length_app; simpl|]; lia. }
  assert (Hok0 : forall j f, frames0 !! j = Some f -> uv_frame_ok j f).
  { subst frames0. case_decide as Hle; [|done]. intros j f Hj.
    apply lookup_app_Some in Hj as [Hj|[Hge Hj]]; [by apply Hok|].
    apply list_lookup_singleton_Some in Hj as [Hj <-].
    assert (j = i) as -> by lia. by repeat split. }
  destruct (lookup_lt_is_Some_2 frames0 i ltac:(lia)) as [_frame Hframe].
  rewrite (proj2 (index_Ok _ _ _) Hframe). simpl.
  destruct (Hok0 i _frame Hframe) as (Huv & Hprev & H0 & H3).
  unfold setitem.
  rewrite (decide_True (P := (off + array_index < length (dff.uv _frame))%nat))
    by (rewrite Huv; destruct Hoff; subst; lia).
  simpl. rewrite (decide_False (P := fps = 0)) by done. simpl.
  eexists. split; [reflexivity|]. simpl. split; [|split; [|done]].
  - intros j f Hj. destruct (decide (i = j)) as [<-|Hne].
    + rewrite list_lookup_insert_eq in Hj by lia. inversion Hj; subst f.
      unfold uv_frame_ok. simpl. rewrite length_insert.
      rewrite !list_lookup_insert_ne by (destruct Hoff; subst; lia). done.
    + rewrite list_lookup_insert_ne in Hj by done. by apply Hok0.
  - by rewrite length_insert.
Qed.

Lemma keyframe_steps_frames (fps : Z) (off array_index : nat)
    (keyframe_points : list (Q * Q)) (k : nat) (anim : dff.UVAnim) :
  fps <> 0 ->
  off = 1%nat \/ off = 4%nat ->
  (array_index <= 1)%nat ->
  (k <= length (dff.frames anim))%nat ->
  (forall j f, dff.frames anim !! j = Some f -> uv_frame_ok j f) ->
  exists anim',
    for_each (keyframe_step fps off array_index) (enumerate_from k keyframe_points) anim =
      Ok anim' /\
    (forall j f, dff.frames anim' !! j = Some f -> uv_frame_ok j f) /\
    length (dff.frames anim') =
      Nat.max (length (dff.frames anim)) (k + length keyframe_points) /\
    dff.anim_name anim' = dff.anim_name anim.
Proof.
  intros Hfps Hoff Harr. revert k anim.
  induction keyframe_points as [|kp kps IH]; intros k anim Hk Hok;
    cbn [enumerate_from for_each].
  - exists anim. split; [done|]. split; [done|]. split; [simpl; lia|done].
  - destruct (keyframe_step_frames fps off array_index anim k kp Hfps Hoff Harr Hk Hok)
      as (anim1 & -> & Hok1 & Hlen1 & Hname1). simpl.
    destruct (IH (S k) anim1 ltac:(lia) Hok1) as (anim' & -> & Hok' & Hlen' & Hname').
    exists anim'. split; [done|]. split; [done|]. split; [simpl; lia|congruence].
Qed.

Lemma curve_step_frames (fps : Z) (anim : dff.UVAnim) (curve : bpy.FCurve) :
  fps <> 0 ->
  (forall j f, dff.frames anim !! j = Some f -> uv_frame_ok j f) ->
  exists anim',
    curve_step fps anim curve = Ok anim' /\
    (forall j f, dff.frames anim' !! j = Some f -> uv_frame_ok j f) /\
    length (dff.frames anim') =
      Nat.max (length (dff.frames anim)) (length (curve_times fps curve)) /\
    dff.anim_name anim' = dff.anim_name anim.
Proof.
  intros Hfps Hok. unfold curve_step, curve_times.
  destruct (decide (1 < bpy.array_index curve)%nat) as [Hskip|Harr].
  { exists anim. split; [done|]. split; [done|]. split; [simpl; lia|done]. }
  destruct (uv_offset !! bpy.data_path curve) as [off|] eqn:Hoff.
  - rewrite length_map. unfold enumerate.
    apply keyframe_steps_frames; try done; [by eapply uv_offset_cases|lia|lia].
  - exists anim. split; [done|]. split; [done|]. split; [simpl; lia|done].
Qed.

Lemma curve_steps_frames (fps : Z) (fcurves : list bpy.FCurve) (anim : dff.UVAnim) :
  fps <> 0 ->
  (forall j f, dff.frames anim !! j = Some f -> uv_frame_ok j f) ->
  exists anim',
    for_each (curve_step fps) fcurves anim = Ok anim' /\
    (forall j f, dff.frames anim' !! j = Some f -> uv_frame_ok j f) /\
    length (dff.frames anim') =
      Nat.max (length (dff.frames anim))
              (max_list (map (fun curve => length (curve_times fps curve)) fcurves)) /\
    dff.anim_name anim' = dff.anim_name anim.
Proof.
  intros Hfps. revert anim. induction fcurves as [|curve fcurves IH]; intros anim Hok;
    cbn [for_each map max_list].
  - exists anim. split; [done|]. split; [done|]. split; [simpl; lia|done].
  - destruct (curve_step_frames fps anim curve Hfps Hok)
      as (anim1 & -> & Hok1 & Hlen1 & Hname1). simpl.
    destruct (IH anim1 Hok1) as (anim' & -> & Hok' & Hlen' & Hname').
    exists anim'. split; [done|]. split; [done|]. split; [simpl; lia|congruence].
Qed.

(** X19: with a frame rate other than zero, the UV animation of a
    material that exports one, has a principled shader with a mapping node
    and animation data with an action is produced without an exception.
    It has the animation name of the material and as many key frames as the
    longest accepted curve has key frame points; every key frame has six
    values, of which the first and the fourth are zero, and is linked to the
    position before its own. *)
Theorem uv_animation_key_frames (fps : Z) (material : bpy.Material)
    (fcurves : list bpy.FCurve) :
  fps <> 0 ->
  bpy.export_animation material = true ->
  bpy.principled material = true ->
  bpy.has_mapping_node material = true ->
  bpy.anim_data material = Some (Some fcurves) ->
  exists anim,
    get_uv_animation fps material = Ok (Some anim) /\
    dff.anim_name anim = bpy.animation_name material /\
    length (dff.frames anim) =
      max_list (map (fun curve => length (curve_times fps curve)) fcurves) /\
    forall i f, dff.frames anim !! i = Some f -> uv_frame_ok i f.
Proof.
  intros Hfps Hexport Hprincipled Hnode Hdata. unfold get_uv_animation.
  rewrite Hexport, Hprincipled, Hnode, Hdata. simpl.
  destruct (curve_steps_frames fps fcurves
              {| dff.duration := 0%Q; dff.anim_name := bpy.animation_name material;
                 dff.frames := [] |} Hfps)
    as (anim & Hrun & Hok & Hlen & Hname).
  { intros j f Hj. simpl in Hj. done. }
  exists anim. simpl in *. rewrite Hrun. simpl.
  split; [done|]. split; [done|]. split; [done|exact Hok].
Qed.

Lemma uv_animation_key_frames_witness :
  exists anim,
    get_uv_animation 24 two_curve_material = Ok (Some anim) /\
    dff.anim_name anim = "scroll" /\
    length (dff.frames anim) = 2%nat /\
    forall i f, dff.frames anim !! i = Some f -> uv_frame_ok i f.
Proof.
  apply (uv_animation_key_frames 24 two_curve_material
           [ {| bpy.array_index := 0; bpy.data_path := mapping_input "1";
                bpy.keyframe_points := [(0, 0); (48, 1)]%Q |};
             {| bpy.array_index := 0; bpy.data_path := mapping_input "3";
                bpy.keyframe_points := [(0, 1); (24, 2)]%Q |} ]).
  - lia.
  - reflexivity.
  - reflexivity.
  - reflexivity.
  - reflexivity.
Defined.

(** ** The materials of an object *)

Lemma material_steps_tracks (fps : Z) (slots : list (option bpy.Material))
    (acc acc' : list dff.Material * exporter) :
  for_each (material_step fps) slots acc = Ok acc' ->
  exists new anims,
    acc'.1 = acc.1 ++ new /\
    uvanim_dict acc'.2 = uvanim_dict acc.2 ++ anims /\
    Forall2 (fun b_material material =>
               exists anim,
                 get_uv_animation fps b_material = Ok anim /\
                 dff.uv_anim material = dff.anim_name <$> anim)
            (omap (fun slot => slot) slots) new /\
    dff.anim_name <$> anims = omap dff.uv_anim new /\
    Forall (fun anim =>
              exists b_material,
                Some b_material ∈ slots /\
                get_uv_animation fps b_material = Ok (Some anim)) anims.
Proof.
  revert acc. induction slots as [|slot slots IH]; intros [ms s] Hrun; simpl in Hrun.
  - inversion Hrun; subst. exists [], []. simpl. rewrite !app_nil_r.
    repeat split; constructor.
  - inv_bind Hrun. destruct a as [ms1 s1].
    apply IH in Hrun as (new & anims & Hms & Hdict & Hall & Hnames & Hfrom).
    simpl in Hms, Hdict.
    assert (Hlater : Forall (fun anim =>
                               exists b_material,
                                 Some b_material ∈ slot :: slots /\
                                 get_uv_animation fps b_material = Ok (Some anim)) anims).
    { eapply Forall_impl; [exact Hfrom|]. intros anim (bm & Hin & Hbm).
      exists bm. split; [by right|done]. }
    unfold material_step in Ha. destruct slot as [bm|].
    + inv_bind Ha. destruct a as [an|]; inversion Ha; subst ms1 s1; clear Ha; simpl in *.
      * eexists (_ :: new), (an :: anims).
        split; [by rewrite Hms, <- app_assoc|].
        split; [by rewrite Hdict, <- app_assoc|].
        split; [constructor; [by exists (Some an)|done]|].
        split; [cbn [fmap list_fmap omap list_omap dff.uv_anim]; by rewrite <- Hnames|].
        constructor; [|done]. exists bm. split; [by left|done].
      * eexists (_ :: new), anims.
        split; [by rewrite Hms, <- app_assoc|]. split; [done|].
        split; [constructor; [by exists None|done]|]. by split.
    + inversion Ha; subst ms1 s1; clear Ha.
      exists new, anims. simpl. by repeat split.
Qed.

(** X20: [generate_material_list] gives one material per filled slot of
    the object, in slot order, and skips the empty slots.  A material
    whose helper produces a UV animation carries the name of that
    animation, any other carries none; the animations produced are
    appended to the dictionary of the file in material order, one per
    material that names one, without any being merged or dropped. *)
Theorem materials_follow_slots (fps : Z) (self self' : exporter) (obj : bpy.Object)
    (materials : list dff.Material) :
  generate_material_list fps self obj = Ok (materials, self') ->
  Forall2 (fun b_material material =>
             exists anim,
               get_uv_animation fps b_material = Ok anim /\
               dff.uv_anim material = dff.anim_name <$> anim)
          (omap (fun slot => slot) (bpy.materials obj)) materials /\
  exists anims,
    uvanim_dict self' = uvanim_dict self ++ anims /\
    dff.anim_name <$> anims = omap dff.uv_anim materials /\
    Forall (fun anim =>
              exists b_material,
                Some b_material ∈ bpy.materials obj /\
                get_uv_animation fps b_material = Ok (Some anim)) anims.
Proof.
  unfold generate_material_list. intros Hrun.
  apply material_steps_tracks in Hrun as (new & anims & Hms & Hdict & Hall & Hn & Hfrom).
  simpl in Hms, Hdict. subst new. split; [done|]. by exists anims.
Qed.

Lemma materials_follow_slots_witness :
  exists materials self' anims,
    generate_material_list 24 initial painted_object = Ok (materials, self') /\
    length materials = 2%nat /\
    uvanim_dict self' = anims /\
    dff.anim_name <$> anims = omap dff.uv_anim materials.
Proof.
  destruct (generate_material_list 24 initial painted_object)
    as [[materials self']|e] eqn:Hrun; [|vm_compute in Hrun; discriminate Hrun].
  destruct (materials_follow_slots 24 initial self' painted_object materials Hrun)
    as (Hall & anims & Hdict & Hnames & _).
  exists materials, self', anims.
  split; [reflexivity|].
  split; [by rewrite <- (Forall2_length _ _ _ Hall)|].
  split; [exact Hdict|exact Hnames].
Defined.

(** ** The placement of a frame *)



(** ** A well-formed mesh is exported *)

Lemma for_each_returns {A S : Type} (P : S -> Prop) (body : S -> A -> result S)
    (xs : list A) :
  (forall s x, x ∈ xs -> P s -> exists s', body s x = Ok s' /\ P s') ->
  forall s, P s -> exists s', for_each body xs s = Ok s' /\ P s'.
Proof.
  induction xs as [|x xs IH]; intros Hbody s Hs; simpl.
  - by exists s.
  - destruct (Hbody s x ltac:(left) Hs) as (s1 & -> & Hs1). simpl.
    apply IH; [|done]. intros s0 x0 Hx0. apply Hbody. by right.
Qed.

Lemma collect_returns {A B : Type} (f : A -> result B) (xs : list A) :
  Forall (fun x => exists y, f x = Ok y) xs ->
  exists ys, collect f xs = Ok ys /\ length ys = length xs.
Proof.
  induction xs as [|x xs IH]; intros Hall; simpl.
  - by exists [].
  - inversion Hall as [|? ? [y Hy] Hxs]; subst. rewrite Hy. simpl.
    destruct (IH Hxs) as (ys & -> & Hlen). simpl. exists (y :: ys).
    split; [done|]. simpl. by rewrite Hlen.
Qed.

Lemma corner_step_returns (mesh : bpy.Mesh) (bone_groups : gmap nat nat)
    (vertices_list : list vert) (loop_index : nat) :
  loop_ok mesh loop_index ->
  exists v,
    corner_step mesh bone_groups vertices_list loop_index = Ok (vertices_list ++ [v]) /\
    length (vert_cols v) = length (bpy.vertex_colors mesh) /\
    (length (bones v) <= 4)%nat.
Proof.
  intros ((loop & Hloop & [mv Hmv]) & Huv & Hcol). unfold corner_step.
  rewrite (proj2 (index_Ok _ _ _) Hloop). simpl.
  rewrite (proj2 (index_Ok _ _ _) Hmv). simpl.
  destruct (collect_returns (fun uv_layer : list bpy.UV => index uv_layer loop_index)
              (bpy.uv_layers mesh)) as (uvs0 & -> & _).
  { eapply Forall_impl; [exact Huv|]. intros layer Hlt. simpl in Hlt.
    destruct (lookup_lt_is_Some_2 _ _ Hlt) as [uv Huv0]. exists uv.
    by apply index_Ok. }
  simpl.
  destruct (collect_returns (fun vert_col : list bpy.Color => index vert_col loop_index)
              (bpy.vertex_colors mesh)) as (cols & -> & Hlen).
  { eapply Forall_impl; [exact Hcol|]. intros layer Hlt. simpl in Hlt.
    destruct (lookup_lt_is_Some_2 _ _ Hlt) as [c Hc]. exists c.
    by apply index_Ok. }
  simpl. eexists. split; [reflexivity|]. simpl. split; [done|].
  by destruct (collect_bones_ok bone_groups (bpy.groups mv) [])
    as [Hle _]; [split; [simpl; lia|constructor]|].
Qed.

(** What the corner loop keeps true of the collected corners. *)
Lemma polygons_return (mesh : bpy.Mesh) (bone_groups : gmap nat nat)
    (ips : list (nat * bpy.MeshPolygon)) (acc : list vert * list face) :
  Forall (fun ip => Forall (loop_ok mesh) (bpy.loop_indices ip.2)) ips ->
  Forall (fun v => length (vert_cols v) = length (bpy.vertex_colors mesh) /\
                   (length (bones v) <= 4)%nat) acc.1 ->
  exists acc',
    for_each (polygon_step mesh bone_groups) ips acc = Ok acc' /\
    Forall (fun v => length (vert_cols v) = length (bpy.vertex_colors mesh) /\
                     (length (bones v) <= 4)%nat) acc'.1.
Proof.
  intros Hall.
  apply (for_each_returns
           (fun a : list vert * list face =>
              Forall (fun v => length (vert_cols v) = length (bpy.vertex_colors mesh) /\
                               (length (bones v) <= 4)%nat) a.1)).
  intros [vl fl] [i polygon] Hin Hvl. simpl in Hvl. unfold polygon_step.
  rewrite Forall_forall in Hall. specialize (Hall _ Hin). simpl in Hall.
  destruct (for_each_returns
              (Forall (fun v => length (vert_cols v) = length (bpy.vertex_colors mesh) /\
                                (length (bones v) <= 4)%nat))
              (corner_step mesh bone_groups) (bpy.loop_indices polygon))
    with (s := vl) as (vl' & -> & Hvl'); [|done|].
  - intros s l Hl Hs. rewrite Forall_forall in Hall.
    destruct (corner_step_returns mesh bone_groups s l (Hall l Hl))
      as (v & -> & Hc & Hb).
    eexists. split; [reflexivity|]. apply Forall_app. split; [done|].
    by constructor.
  - simpl. by eexists.
Qed.

Lemma skin_plg_returns (obj : bpy.Object) :
  bones_invertible obj ->
  exists skin_plg bone_groups,
    get_skin_plg_and_bone_groups obj = Ok (skin_plg, bone_groups).
Proof.
  unfold bones_invertible, get_skin_plg_and_bone_groups.
  destruct (find_armature (bpy.modifiers obj)) as [armature_bones|]; [|by eexists _, _].
  intros Hall.
  destruct (for_each_returns (fun _ => True)
              (skin_bone_step (bpy.vertex_groups obj)) (enumerate armature_bones))
    with (s := ({| dff.num_bones := length armature_bones;
                   dff.bone_matrices := dff.bone_matrices dff.new_SkinPLG;
                   dff.vertex_bone_indices := dff.vertex_bone_indices dff.new_SkinPLG;
                   dff.vertex_bone_weights := dff.vertex_bone_weights dff.new_SkinPLG |},
                (∅ : gmap nat nat)))
    as ([skin' bg] & -> & _); [|done|by eexists _, _].
  intros [skin bg] [i bone] Hin _. unfold skin_bone_step.
  apply list_elem_of_In, enumerate_from_In in Hin as [_ Hin].
  rewrite Forall_forall in Hall. destruct (Hall bone ltac:(by apply list_elem_of_In)) as [inv ->].
  destruct (vertex_group_index _ _); by eexists.
Qed.

Lemma vertex_steps_return (p n : bool) (max_uv n_colours : nat)
    (vertices_list : list vert) (st : vertices_state) :
  Forall (fun v => length (vert_cols v) = n_colours /\ (length (bones v) <= 4)%nat)
         vertices_list ->
  (p = true -> (0 < n_colours)%nat) ->
  (n = true -> (1 < n_colours)%nat) ->
  exists st', for_each (vertex_step p n max_uv) vertices_list st = Ok st'.
Proof.
  intros Hall Hp Hn.
  destruct (for_each_returns (fun _ => True) (vertex_step p n max_uv) vertices_list)
    with (s := st) as (st' & Hrun & _); [|done|by exists st'].
  intros s v Hv _. rewrite Forall_forall in Hall. destruct (Hall v Hv) as [Hcols Hbones].
  unfold vertex_step.
  assert (Hday : exists prelit,
             (if p
              then col ← index (vert_cols v) 0;
                   Ok (dff.prelit_colors (vs_geometry s) ++ [to_RGBA col])
              else Ok (dff.prelit_colors (vs_geometry s))) = Ok prelit).
  { destruct p; [|by eexists].
    destruct (lookup_lt_is_Some_2 (vert_cols v) 0) as [col Hcol];
      [rewrite Hcols; by apply Hp|].
    rewrite (proj2 (index_Ok _ _ _) Hcol). by eexists. }
  destruct Hday as [prelit ->]. simpl.
  assert (Hnight : exists extra,
             (if n
              then col ← index (vert_cols v) 1;
                   Ok ((fun colors => colors ++ [to_RGBA col]) <$> vs_extra_vert s)
              else Ok (vs_extra_vert s)) = Ok extra).
  { destruct n; [|by eexists].
    destruct (lookup_lt_is_Some_2 (vert_cols v) 1) as [col Hcol];
      [rewrite Hcols; by apply Hn|].
    rewrite (proj2 (index_Ok _ _ _) Hcol). by eexists. }
  destruct Hnight as [extra ->]. simpl.
  destruct (vs_skin s) as [skin|]; [|by eexists].
  unfold skin_add_vertex. rewrite (bone_rows _ Hbones). simpl. by eexists.
Qed.

Lemma face_steps_return (faces_list : list face) (g : dff.Geometry) :
  Forall (fun f => length (verts f) = 3%nat) faces_list ->
  exists g', for_each face_step faces_list g = Ok g'.
Proof.
  intros Hall.
  destruct (for_each_returns (fun _ => True) face_step faces_list) with (s := g)
    as (g' & Hrun & _); [|done|by exists g'].
  intros s f Hf _. rewrite Forall_forall in Hall.
  destruct (three_entries _ (Hall f Hf)) as (x & y & z & Hxyz).
  rewrite (face_step_triangles s f x y z Hxyz). by eexists.
Qed.

(** X22: a mesh whose polygons name loops that exist, with vertices that
    exist and an entry in every UV and colour layer, is turned into a
    geometry without an exception, whatever the number of corners of its
    polygons, provided the bones of the armature of the object, if there
    is one, have invertible matrices. *)
Theorem well_formed_mesh_is_exported (obj : bpy.Object) (geometry : dff.Geometry) :
  well_formed (bpy.mesh obj) ->
  bones_invertible obj ->
  exists geometry', populate_geometry_with_mesh_data obj geometry = Ok geometry'.
Proof.
  intros Hmesh Hbones. unfold populate_geometry_with_mesh_data.
  destruct (skin_plg_returns obj Hbones) as (skin_plg & bone_groups & ->). simpl.
  destruct (polygons_return (bpy.mesh obj) bone_groups
              (enumerate (bpy.polygons (bpy.mesh obj))) ([], []))
    as ([vl fl] & Hpoly & Hvl); [|constructor|].
  { apply Forall_forall. intros [i polygon] Hin.
    apply list_elem_of_In, enumerate_from_In in Hin as [_ Hin]. simpl.
    unfold well_formed in Hmesh. rewrite Forall_forall in Hmesh.
    by apply Hmesh, list_elem_of_In. }
  rewrite Hpoly. simpl. simpl in Hvl.
  destruct (collected_corners_numbered _ _ _ _ Hpoly) as (_ & _ & Hthree).
  pose proof (cleanup_outer_sublist (length vl) vl ∅) as Hsub.
  unfold cleanup_duplicate_verts in *.
  destruct (cleanup_outer (length vl) vl ∅) as [stored removed]. simpl in Hsub, Hthree.
  unfold populate_geometry_from_vertices_data.
  destruct (vertex_steps_return
              (bool_decide (0 < length (bpy.vertex_colors (bpy.mesh obj)))%nat &&
               bpy.day_cols obj)
              (bool_decide (1 < length (bpy.vertex_colors (bpy.mesh obj)))%nat &&
               bpy.night_cols obj)
              (max_uv_layers obj) (length (bpy.vertex_colors (bpy.mesh obj))) stored
              {| vs_geometry := geometry; vs_skin := skin_plg;
                 vs_extra_vert :=
                   if bool_decide (1 < length (bpy.vertex_colors (bpy.mesh obj)))%nat &&
                      bpy.night_cols obj
                   then Some [] else None |}) as (st' & Hrun).
  - apply Forall_forall. intros v Hv. rewrite Forall_forall in Hvl.
    apply Hvl. by eapply elem_of_sublist.
  - intros Hp. apply andb_true_iff in Hp as [Hp _]. by apply bool_decide_eq_true in Hp.
  - intros Hn. apply andb_true_iff in Hn as [Hn _]. by apply bool_decide_eq_true in Hn.
  - cbn zeta. rewrite Hrun. simpl. unfold populate_geometry_from_faces_data.
    by apply face_steps_return.
Qed.

Lemma well_formed_mesh_is_exported_witness :
  exists geometry',
    populate_geometry_with_mesh_data quad_object dff.new_Geometry = Ok geometry'.
Proof.
  apply (well_formed_mesh_is_exported quad_object dff.new_Geometry).
  - assert (Hloop : forall l, (l < 6)%nat -> loop_ok quad_mesh l).
    { intros l Hl. split; [|split].
      - destruct l as [|[|[|[|[|[|l]]]]]]; try lia;
          (eexists; split; [reflexivity|]; by eexists).
      - apply Forall_cons. split; [simpl; lia|].
        apply Forall_cons. split; [simpl; lia|]. apply Forall_nil_2.
      - apply Forall_cons. split; [simpl; lia|]. apply Forall_nil_2. }
    apply Forall_cons. split.
    { apply Forall_cons. split; [apply Hloop; lia|].
      apply Forall_cons. split; [apply Hloop; lia|].
      apply Forall_cons. split; [apply Hloop; lia|]. apply Forall_nil_2. }
    apply Forall_cons. split; [|apply Forall_nil_2].
    apply Forall_cons. split; [apply Hloop; lia|].
    apply Forall_cons. split; [apply Hloop; lia|].
    apply Forall_cons. split; [apply Hloop; lia|]. apply Forall_nil_2.
  - apply Forall_cons. split; [by eexists|].
    apply Forall_cons. split; [by eexists|].
    apply Forall_cons. split; [by eexists|]. apply Forall_nil_2.
Defined.

(** ** Influences past the fourth *)

(** Without a skin the vertex loop reads no influence: it returns as soon
    as every vertex has the colours that the loop asks for. *)
Lemma vertex_steps_return_unskinned (p n : bool) (max_uv n_colours : nat)
    (vertices_list : list vert) (st : vertices_state) :
  Forall (fun v => length (vert_cols v) = n_colours) vertices_list ->
  (p = true -> (0 < n_colours)%nat) ->
  (n = true -> (1 < n_colours)%nat) ->
  vs_skin st = None ->
  exists st', for_each (vertex_step p n max_uv) vertices_list st = Ok st'.
Proof.
  intros Hall Hp Hn Hskin.
  destruct (for_each_returns (fun s => vs_skin s = None) (vertex_step p n max_uv)
              vertices_list)
    with (s := st) as (st' & Hrun & _); [|done|by exists st'].
  intros s v Hv Hs. rewrite Forall_forall in Hall. pose proof (Hall v Hv) as Hcols.
  unfold vertex_step.
  assert (Hday : exists prelit,
             (if p
              then col ← index (vert_cols v) 0;
                   Ok (dff.prelit_colors (vs_geometry s) ++ [to_RGBA col])
              else Ok (dff.prelit_colors (vs_geometry s))) = Ok prelit).
  { destruct p; [|by eexists].
    destruct (lookup_lt_is_Some_2 (vert_cols v) 0) as [col Hcol];
      [rewrite Hcols; by apply Hp|].
    rewrite (proj2 (index_Ok _ _ _) Hcol). by eexists. }
  destruct Hday as [prelit ->]. simpl.
  assert (Hnight : exists extra,
             (if n
              then col ← index (vert_cols v) 1;
                   Ok ((fun colors => colors ++ [to_RGBA col]) <$> vs_extra_vert s)
              else Ok (vs_extra_vert s)) = Ok extra).
  { destruct n; [|by eexists].
    destruct (lookup_lt_is_Some_2 (vert_cols v) 1) as [col Hcol];
      [rewrite Hcols; by apply Hn|].
    rewrite (proj2 (index_Ok _ _ _) Hcol). by eexists. }
  destruct Hnight as [extra ->]. simpl.
  rewrite Hs. simpl. by eexists.
Qed.

(** X7: let every vertex carry one colour for each colour layer of the
    mesh, so that no colour lookup fails.  With a skin,
    [populate_geometry_from_vertices_data] raises [IndexError] when some
    vertex carries more than four influences, and returns a geometry when
    none does: the rows of a vertex have four places and the fifth write
    is out of range.  Without a skin the influences are not read, and a
    geometry is returned whatever their number. *)
Theorem fifth_influence_raises_IndexError (vertices_list : list vert)
    (skin : dff.SkinPLG) (obj : bpy.Object) (geometry : dff.Geometry) :
  Forall (fun v => length (vert_cols v) =
                   length (bpy.vertex_colors (bpy.mesh obj))) vertices_list ->
  (Exists (fun v => (4 < length (bones v))%nat) vertices_list ->
   populate_geometry_from_vertices_data vertices_list (Some skin) obj geometry =
     Raise IndexError) /\
  (Forall (fun v => (length (bones v) <= 4)%nat) vertices_list ->
   exists geometry',
     populate_geometry_from_vertices_data vertices_list (Some skin) obj geometry =
       Ok geometry') /\
  (exists geometry',
     populate_geometry_from_vertices_data vertices_list None obj geometry =
       Ok geometry').
Proof.
  intros Hcols.
  assert (Hp : bool_decide (0 < length (bpy.vertex_colors (bpy.mesh obj)))%nat &&
               bpy.day_cols obj = true ->
               (0 < length (bpy.vertex_colors (bpy.mesh obj)))%nat).
  { intros Hp. apply andb_true_iff in Hp as [Hp _]. by apply bool_decide_eq_true in Hp. }
  assert (Hn : bool_decide (1 < length (bpy.vertex_colors (bpy.mesh obj)))%nat &&
               bpy.night_cols obj = true ->
               (1 < length (bpy.vertex_colors (bpy.mesh obj)))%nat).
  { intros Hn. apply andb_true_iff in Hn as [Hn _]. by apply bool_decide_eq_true in Hn. }
  split; [apply overflow_raises|]. split.
  - intros Hfour. unfold populate_geometry_from_vertices_data.
    destruct (vertex_steps_return _ _ (max_uv_layers obj) _ vertices_list
                {| vs_geometry := geometry; vs_skin := Some skin;
                   vs_extra_vert :=
                     if bool_decide (1 < length (bpy.vertex_colors (bpy.mesh obj)))%nat &&
                        bpy.night_cols obj
                     then Some [] else None |}
                ltac:(by apply Forall_and) Hp Hn) as (st' & Hrun).
    cbn zeta. rewrite Hrun. simpl. by eexists.
  - unfold populate_geometry_from_vertices_data.
    destruct (vertex_steps_return_unskinned _ _ (max_uv_layers obj) _ vertices_list
                {| vs_geometry := geometry; vs_skin := None;
                   vs_extra_vert :=
                     if bool_decide (1 < length (bpy.vertex_colors (bpy.mesh obj)))%nat &&
                        bpy.night_cols obj
                     then Some [] else None |}
                Hcols Hp Hn eq_refl) as (st' & Hrun).
    cbn zeta. rewrite Hrun. simpl. by eexists.
Qed.

Lemma fifth_influence_raises_IndexError_witness :
  populate_geometry_from_vertices_data
    [weighted_vertex [(0%nat, 1%Q); (1%nat, 1%Q); (2%nat, 1%Q); (0%nat, 1%Q);
                      (1%nat, 1%Q)]]
    (Some dff.new_SkinPLG) quad_object dff.new_Geometry = Raise IndexError /\
  (exists geometry',
     populate_geometry_from_vertices_data
       [weighted_vertex [(0%nat, 1%Q); (1%nat, 1%Q); (2%nat, 1%Q); (0%nat, 1%Q)]]
       (Some dff.new_SkinPLG) quad_object dff.new_Geometry = Ok geometry') /\
  (exists geometry',
     populate_geometry_from_vertices_data
       [weighted_vertex [(0%nat, 1%Q); (1%nat, 1%Q); (2%nat, 1%Q); (0%nat, 1%Q);
                         (1%nat, 1%Q)]]
       None quad_object dff.new_Geometry = Ok geometry').
Proof.
  split; [|split].
  - apply fifth_influence_raises_IndexError.
    + constructor; [reflexivity|constructor].
    + constructor. simpl. lia.
  - apply fifth_influence_raises_IndexError.
    + constructor; [reflexivity|constructor].
    + constructor; [simpl; lia|constructor].
  - apply (fifth_influence_raises_IndexError _ dff.new_SkinPLG).
    constructor; [reflexivity|constructor].
Defined.

(** ** Clumps that a pass does not name *)

Lemma export_object_other_clumps (fps : Z) (self self' : exporter) (obj : bpy.Object) :
  parent_queue self = ∅ ->
  export_object fps self obj = Ok self' ->
  forall k, k <> bpy.clump obj -> clumps self' !! k = clumps self !! k.
Proof.
  intros Hq Hrun k Hne. unfold export_object in Hrun.
  set (self2 := enter_clump self (bpy.clump obj)) in *.
  assert (Hq2 : parent_queue self2 = ∅) by (by apply enter_clump_quiet).
  assert (Hk2 : current_clump self2 = Some (bpy.clump obj)) by done.
  assert (Hcl2 : is_Some (clumps self2 !! bpy.clump obj)).
  { subst self2. unfold enter_clump.
    destruct (clumps self !! bpy.clump obj) as [cl|] eqn:Hcl; simpl.
    - by rewrite Hcl.
    - by rewrite lookup_insert_eq. }
  destruct Hcl2 as [cl Hcl].
  assert (Hother2 : clumps self2 !! k = clumps self !! k).
  { subst self2. unfold enter_clump.
    destruct (clumps self !! bpy.clump obj); simpl; [done|].
    by rewrite lookup_insert_ne. }
  rewrite <- Hother2. clearbody self2. clear Hother2 Hq.
  destruct (decide (bpy.type obj = "MESH")).
  - apply populate_atomic_steps in Hrun
      as (frame & self1 & k1 & cl1 & geometry & Hcreate & Hk1 & Hcl1 & _ & _ & _ & _
          & Hclumps').
    destruct (create_frame_appends _ _ _ _ _ _ _ Hk2 Hcl Hcreate)
      as (earlier & _ & Hcur1 & Hclumps1 & _).
    rewrite Hcur1 in Hk1. inversion Hk1; subst k1.
    by rewrite Hclumps', lookup_insert_ne, Hclumps1, lookup_insert_ne.
  - destruct (decide (bpy.type obj = "EMPTY")).
    + inv_bind Hrun. destruct a as [frame self1]. inversion Hrun; subst self1.
      destruct (create_frame_appends _ _ _ _ _ _ _ Hk2 Hcl Ha)
        as (earlier & _ & _ & Hclumps1 & _).
      by rewrite Hclumps1, lookup_insert_ne.
    + destruct (decide (bpy.type obj = "ARMATURE")); [|by inversion Hrun; subst].
      unfold export_armature, enumerate in Hrun.
      apply (armature_steps_frames obj (bpy.clump obj) (length (dff.frame_list cl))
               (bpy.data_bones obj) [] self2 self' cl) in Hrun; try done.
      * destruct Hrun as (new & Hclumps' & _). by rewrite Hclumps', lookup_insert_ne.
      * simpl. intros name j (Hlt & _). lia.
Qed.

(** X23: a pass started with nothing queued leaves every clump alone
    whose index none of its objects carries. *)
Theorem unnamed_clumps_are_untouched (fps : Z) (self self' : exporter)
    (objects : list bpy.Object) (k : Z) :
  parent_queue self = ∅ ->
  Forall (fun obj => bpy.clump obj <> k) objects ->
  export_objects fps self objects = Ok self' ->
  clumps self' !! k = clumps self !! k.
Proof.
  intros Hq Hall Hrun. unfold export_objects in Hrun.
  destruct objects as [|obj0 objects0] eqn:Hobjects; [by inversion Hrun; subst|].
  rewrite <- Hobjects in *. clear Hobjects.
  inv_bind Hrun. rename a into self1. inversion Hrun; subst self'; clear Hrun. simpl.
  change (clumps self) with (clumps (new_dff self)).
  assert (Hq0 : parent_queue (new_dff self) = ∅) by done.
  revert Hq0 Ha. generalize (new_dff self). clear Hq.
  induction objects as [|obj objects IH]; intros s Hq Hrun; simpl in Hrun.
  - by inversion Hrun; subst.
  - inv_bind Hrun. inversion Hall as [|? ? Hobj Hrest]; subst.
    destruct (export_object_quiet _ _ _ _ Ha Hq) as [Hq1 _].
    rewrite (IH Hrest a Hq1 Hrun).
    apply (export_object_other_clumps fps s a obj Hq Ha). congruence.
Qed.

Lemma unnamed_clumps_are_untouched_witness :
  exists self',
    export_objects 24 first_call_state
      [ sample_object "EMPTY" "handle" None 1; sample_object "EMPTY" "knob" None 1 ] =
      Ok self' /\
    clumps self' !! 0 = Some dff.new_Clump.
Proof.
  destruct (export_objects 24 first_call_state
              [ sample_object "EMPTY" "handle" None 1;
                sample_object "EMPTY" "knob" None 1 ]) as [self'|e] eqn:Hrun;
    [|vm_compute in Hrun; discriminate Hrun].
  assert (Hall : Forall (fun obj => bpy.clump obj <> 0)
                        [ sample_object "EMPTY" "handle" None 1;
                          sample_object "EMPTY" "knob" None 1 ]).
  { apply Forall_cons. split; [simpl; lia|].
    apply Forall_cons. split; [simpl; lia|]. apply Forall_nil_2. }
  exists self'. split; [reflexivity|].
  rewrite (unnamed_clumps_are_untouched 24 first_call_state self' _ 0 eq_refl Hall Hrun).
  reflexivity.
Defined.

(** ** A pass over one clump *)

Lemma parents_from_root_append (self : exporter) (k : Z) (cl : dff.Clump)
    (frame : dff.Frame) (is_bone : bool) (name : string) (n : nat) :
  parents_from_root self ->
  clumps self !! k = Some cl ->
  -1 <= dff.parent frame ->
  parents_from_root
    (set_clumps
       (<[ k := Clump_set_frame_list (dff.frame_list cl ++ [frame]) cl ]> (clumps self))
       (register is_bone name n self)).
Proof.
  intros [Hq Hall] Hcl Hframe. split; [done|]. simpl. intros k' cl' f Hcl' Hf.
  destruct (decide (k' = k)) as [->|Hne].
  - rewrite lookup_insert_eq in Hcl'. inversion Hcl'; subst cl'. simpl in Hf.
    apply elem_of_app in Hf as [Hf|Hf]; [by eapply Hall|].
    apply list_elem_of_singleton in Hf. by subst f.
  - rewrite lookup_insert_ne in Hcl' by done. by eapply Hall.
Qed.

Lemma create_frame_from_root (self self' : exporter) (obj : bpy.Datablock)
    (frame : dff.Frame) :
  parents_from_root self ->
  create_frame self obj true true = Ok (frame, self') ->
  parents_from_root self'.
Proof.
  intros Hroot Hrun. pose proof Hroot as [Hq _].
  destruct (create_frame_Ok _ _ _ _ _ _ Hq Hrun)
    as (k & cl & Hk & Hcl & Hparent & _ & ->).
  apply parents_from_root_append; [done|done|].
  destruct Hparent as [[-> _]|(pn & p & _ & _ & _ & ->)]; lia.
Qed.

Lemma export_object_from_root (fps : Z) (self self' : exporter) (obj : bpy.Object) :
  parents_from_root self ->
  export_object fps self obj = Ok self' ->
  parents_from_root self'.
Proof.
  intros Hroot Hrun. unfold export_object in Hrun.
  assert (Hroot2 : parents_from_root (enter_clump self (bpy.clump obj))).
  { destruct Hroot as [Hq Hall]. split; [by apply enter_clump_quiet|].
    unfold enter_clump. destruct (clumps self !! bpy.clump obj) eqn:Hcl; simpl; [done|].
    intros k cl f Hk Hf. destruct (decide (k = bpy.clump obj)) as [->|Hne].
    - rewrite lookup_insert_eq in Hk. inversion Hk; subst cl. simpl in Hf.
      by apply elem_of_nil in Hf.
    - rewrite lookup_insert_ne in Hk by done. by eapply Hall. }
  assert (Hcur : exists cl, current_clump (enter_clump self (bpy.clump obj)) =
                              Some (bpy.clump obj) /\
                            clumps (enter_clump self (bpy.clump obj)) !! bpy.clump obj =
                              Some cl).
  { unfold enter_clump. destruct (clumps self !! bpy.clump obj) as [cl|] eqn:Hcl; simpl.
    - by exists cl.
    - eexists. split; [done|]. by rewrite lookup_insert_eq. }
  revert Hroot2 Hcur Hrun. generalize (enter_clump self (bpy.clump obj)).
  intros self2 Hroot2 (cl & Hk2 & Hcl2) Hrun. clear Hroot.
  destruct (decide (bpy.type obj = "MESH")).
  - apply populate_atomic_steps in Hrun
      as (frame & self1 & k1 & cl1 & geometry & Hcreate & Hk1 & Hcl1 & _ & _ & Hq' & _
          & Hclumps').
    destruct (create_frame_from_root _ _ _ _ Hroot2 Hcreate) as [Hq1 Hall1].
    split; [congruence|]. rewrite Hclumps'. intros k' cl' f Hcl' Hf.
    destruct (decide (k' = k1)) as [->|Hne].
    + rewrite lookup_insert_eq in Hcl'. inversion Hcl'; subst cl'. simpl in Hf.
      by eapply Hall1.
    + rewrite lookup_insert_ne in Hcl' by done. by eapply Hall1.
  - destruct (decide (bpy.type obj = "EMPTY")).
    + inv_bind Hrun. destruct a as [frame self1]. inversion Hrun; subst self1.
      by eapply create_frame_from_root.
    + destruct (decide (bpy.type obj = "ARMATURE")); [|by inversion Hrun; subst].
      unfold export_armature in Hrun.
      apply (for_each_invariant
               (fun s => parents_from_root s /\
                         exists cl0, current_clump s = Some (bpy.clump obj) /\
                                     clumps s !! bpy.clump obj = Some cl0)
               (armature_bone_step obj) (enumerate (bpy.data_bones obj)))
        with (s := self2) in Hrun; [by destruct Hrun| |by split; [|exists cl]].
      intros s [i bone] s' [Hs (cl0 & Hk0 & Hcl0)] _ Hstep.
      pose proof Hs as [Hq0 _].
      destruct (armature_bone_step_frame _ _ _ _ _ _ _ Hq0 Hk0 Hcl0 Hstep)
        as (frame & -> & _ & Hparent).
      split.
      * apply parents_from_root_append; [done|done|].
        destruct i as [|i].
        -- destruct (bpy.parent (bpy.node obj)) as [q|].
           ++ destruct Hparent as (p & _ & ->). lia.
           ++ destruct (bpy.parent (bpy.bone_node bone)) as [pn|].
              ** destruct Hparent as (p & _ & ->). lia.
              ** lia.
        -- destruct (bpy.parent (bpy.bone_node bone)) as [pn|].
           ++ destruct Hparent as (p & _ & ->). lia.
           ++ lia.
      * simpl. eexists. split; [done|]. by rewrite lookup_insert_eq.
Qed.

(** X24: a pass (export_dff without mass export) over objects of any
    type that all carry clump index [k], started with nothing queued and
    with empty registries, leaves no clump but [k], and every frame of it
    is a root or has as parent index the position of an earlier frame of
    the list: within one clump no parent reference points forward or
    outside the list. *)
Theorem one_clump_parents_are_earlier_frames (fps : Z) (k : Z) (self self' : exporter)
    (objects : list bpy.Object) :
  parent_queue self = ∅ ->
  frames self = ∅ ->
  bones_registry self = ∅ ->
  Forall (fun obj => bpy.clump obj = k) objects ->
  export_dff fps self objects = Ok self' ->
  forall (k' : Z) (cl : dff.Clump),
    clumps self' !! k' = Some cl ->
    k' = k /\
    forall (i : nat) (f : dff.Frame),
      dff.frame_list cl !! i = Some f ->
      dff.parent f = -1 \/
      exists (p : nat) (above : dff.Frame),
        dff.parent f = Z.of_nat p /\ (p < i)%nat /\ dff.frame_list cl !! p = Some above.
Proof.
  intros Hq Hf Hb Hall Hrun.
  assert (Hstart : single_clump_ok k (new_dff (set_clumps ∅ self)) /\
                   parents_from_root (new_dff (set_clumps ∅ self))).
  { split.
    - split; [done|].
      split; [intros k' cl Hcl; simpl in Hcl; by rewrite lookup_empty in Hcl|].
      split; intros name i Hi; simpl in Hi; [rewrite Hf in Hi|rewrite Hb in Hi];
        by rewrite lookup_empty in Hi.
    - split; [done|]. intros k' cl f Hcl. simpl in Hcl. by rewrite lookup_empty in Hcl. }
  assert (Hend : single_clump_ok k self' /\ parents_from_root self').
  { unfold export_dff, export_objects in Hrun.
    destruct objects as [|obj objects]; [by inversion Hrun; subst|].
    inv_bind Hrun. inversion Hrun; subst self'.
    apply (for_each_invariant
             (fun s => single_clump_ok k s /\ parents_from_root s)
             (export_object fps) (obj :: objects))
      with (s' := a) in Hstart; [exact Hstart| |exact Ha].
    intros s x s' [Hs Hr] Hx Hstep. split.
    - apply (export_object_single_clump fps k x s s'); [|done|done].
      rewrite Forall_forall in Hall. by apply Hall, list_elem_of_In.
    - by eapply export_object_from_root. }
  intros k' cl Hcl. destruct Hend as [(_ & Hclumps & _) [_ Hroot]].
  destruct (Hclumps k' cl Hcl) as [-> Hback]. split; [done|].
  intros i f Hi. destruct (Hback i f Hi) as [Hminus|Hlt]; [by left|].
  pose proof (Hroot k cl f Hcl ltac:(by eapply list_elem_of_lookup_2)) as Hge.
  destruct (decide (dff.parent f = -1)) as [|Hne]; [by left|].
  right. exists (Z.to_nat (dff.parent f)).
  destruct (lookup_lt_is_Some_2 (dff.frame_list cl) (Z.to_nat (dff.parent f)))
    as [above Habove]; [apply lookup_lt_Some in Hi; lia|].
  exists above. split; [lia|]. split; [lia|done].
Qed.

Lemma one_clump_parents_are_earlier_frames_witness :
  exists self' cl,
    export_dff 24 initial (one_clump_scene ++ [armature_object]) = Ok self' /\
    clumps self' !! 0 = Some cl /\
    length (dff.frame_list cl) = 6%nat /\
    forall (i : nat) (f : dff.Frame),
      dff.frame_list cl !! i = Some f ->
      dff.parent f = -1 \/
      exists (p : nat) (above : dff.Frame),
        dff.parent f = Z.of_nat p /\ (p < i)%nat /\ dff.frame_list cl !! p = Some above.
Proof.
  destruct (export_dff 24 initial (one_clump_scene ++ [armature_object]))
    as [self'|e] eqn:Hrun; [|vm_compute in Hrun; discriminate Hrun].
  destruct (clumps self' !! 0) as [cl|] eqn:Hcl;
    [|vm_compute in Hrun; inversion Hrun; subst self'; vm_compute in Hcl;
      discriminate Hcl].
  assert (Hall : Forall (fun obj => bpy.clump obj = 0)
                        (one_clump_scene ++ [armature_object])).
  { apply Forall_cons. split; [reflexivity|].
    apply Forall_cons. split; [reflexivity|].
    apply Forall_cons. split; [reflexivity|].
    apply Forall_cons. split; [reflexivity|]. apply Forall_nil_2. }
  destruct (one_clump_parents_are_earlier_frames 24 0 initial self' _
              eq_refl eq_refl eq_refl Hall Hrun 0 cl Hcl) as [_ Hframes].
  exists self', cl. split; [reflexivity|]. split; [exact Hcl|].
  split; [|exact Hframes].
  vm_compute in Hrun. inversion Hrun; subst self'.
  vm_compute in Hcl. by inversion Hcl; subst cl.
Defined.
